(** * A shallow embedding of the storage layer

    The Go packages [record], [page], [bptree], [disk], [catalog] and [layer]
    are embedded as Rocq functions, package by package (Part I), and the
    properties of the specification are stated and settled against them
    (Part II).  [Scan], [Flush] and [Close] of the storage layer are not
    embedded: none of the properties depends on them.

    Conventions of the embedding:
    - Go's [int] is the 64-bit signed integer of the amd64/arm64 targets;
      [int16], [int32], [uint16], [uint32] wrap as the Go conversions do.
      Integers are [Z] with the wrap-around written out.
    - a [[]byte] is a [list byte]; a Go [string] is its byte sequence.
    - a [float64] is carried as its IEEE-754 bit pattern (a [uint64]),
      which is what [math.Float64bits] and [math.Float64frombits] expose.
    - a function that returns [(T, error)] returns an [outcome T]; a run-time
      panic (slice bounds out of range, nil dereference) is the third
      outcome.  The error messages are abstracted to the error kinds.
    - a method on a pointer receiver takes the receiver's state and returns
      the new state next to its result.
    - the locks are not modelled: the calls are sequential. *)

From Stdlib Require Import ZArith Lia List.
From Stdlib.Strings Require Import Byte.
From stdpp Require Import base gmap list strings.

Local Open Scope Z_scope.

(* ===================================================================== *)
(** * Part I: definitions                                                 *)
(* ===================================================================== *)

(** ** Machine integers and bytes *)

Definition wrap_unsigned (w : Z) (z : Z) : Z := z mod 2 ^ w.

Definition wrap_signed (w : Z) (z : Z) : Z :=
  (z + 2 ^ (w - 1)) mod 2 ^ w - 2 ^ (w - 1).

Definition to_uint16 : Z -> Z := wrap_unsigned 16.
Definition to_uint32 : Z -> Z := wrap_unsigned 32.
Definition to_int16 : Z -> Z := wrap_signed 16.
Definition to_int32 : Z -> Z := wrap_signed 32.
(** Go's [int] on a 64-bit target. *)
Definition to_int : Z -> Z := wrap_signed 64.

Definition Z_of_byte (b : byte) : Z := Z.of_N (Byte.to_N b).

(** The conversion [byte(v)]: the low eight bits. *)
Definition byte_of_Z (z : Z) : byte :=
  match Byte.of_N (Z.to_N (z mod 256)) with
  | Some b => b
  | None => x00
  end.

(** [len(s)] as a Go [int]. *)
Definition len {A : Type} (l : list A) : Z := Z.of_nat (length l).

(** [binary.LittleEndian.PutUintN] for N = 8 * n: byte [k] is [byte(v >> 8k)]. *)
Fixpoint put_le (n : nat) (v : Z) : list byte :=
  match n with
  | O => []
  | S n' => byte_of_Z v :: put_le n' (Z.shiftr v 8)
  end.

(** [binary.LittleEndian.UintN]: [b[0] | b[1]<<8 | ...]. *)
Fixpoint get_le (bs : list byte) : Z :=
  match bs with
  | [] => 0
  | b :: bs' => Z.lor (Z_of_byte b) (Z.shiftl (get_le bs') 8)
  end.

(** ** Errors and outcomes *)

Inductive error : Type :=
  (* record *)
  | ValueCountMismatch
  | NullNotAllowed
  | TypeMismatch
  | StringTooLong
  | UnsupportedType
  | EmptyData
  | Truncated
  | FieldError (e : error)
  (* page *)
  | PageFull
  | NoSuchSlot
  | EmptySlot
  | CorruptSlot
  | SizeMismatch
  | AlreadyEmpty
  (* catalog, index, layer, disk *)
  | DuplicateTable
  | UnknownTable
  | NotFound
  | AlreadyOpen
  | NotOpen
  | LoadPageFailed
  | IOError.

Inductive outcome (A : Type) : Type :=
  | Ok (a : A)
  | Err (e : error)
  | Panic.
Arguments Ok {A} a.
Arguments Err {A} e.
Arguments Panic {A}.

(** ** Package [record]: the row codec (serializer.go) *)

Module record.

Definition TypeInt : string := "INT".
Definition TypeFloat : string := "FLOAT".
Definition TypeString : string := "STRING".

Record Column : Type := {
  Name : string;
  ColType : string;   (* the field [Type] *)
  Length : Z;
  Nullable : bool
}.

Record Schema : Type := { Columns : list Column }.

(** A value of type [interface{}]: [nil], an [int], a [float64] (its bit
    pattern), a [string], or a value of any other dynamic type. *)
Inductive Value : Type :=
  | Nil
  | Int (n : Z)
  | Float64 (bits : Z)
  | Str (s : list byte)
  | Other.

Definition serializeField (col : Column) (value : Value) : outcome (list byte) :=
  if String.eqb (ColType col) TypeInt then
    match value with
    | Int intVal => Ok (put_le 4 (to_uint32 intVal))
    | _ => Err TypeMismatch
    end
  else if String.eqb (ColType col) TypeFloat then
    match value with
    | Float64 bits => Ok (put_le 8 bits)
    | _ => Err TypeMismatch
    end
  else if String.eqb (ColType col) TypeString then
    match value with
    | Str strVal =>
        if Length col <? len strVal then Err StringTooLong
        else Ok (put_le 2 (to_uint16 (len strVal)) ++ strVal)
    | _ => Err TypeMismatch
    end
  else Err UnsupportedType.

(** The body of [for i, col := range schema.Columns] in [Serialize];
    [i] is the index of the first column of [cols]. *)
Fixpoint serialize_loop (i : nat) (cols : list Column) (values : list Value)
    (result : list byte) : outcome (list byte) :=
  match cols with
  | [] => Ok result
  | col :: cols' =>
      match values !! i with
      | None => Panic
      | Some Nil =>
          if negb (Nullable col) then Err NullNotAllowed
          else
            let byteIdx := (i / 8)%nat in
            let bitIdx := (i mod 8)%nat in
            match result !! byteIdx with
            | None => Panic
            | Some b =>
                serialize_loop (S i) cols' values
                  (<[byteIdx := byte_of_Z (Z.lor (Z_of_byte b)
                                 (Z.shiftl 1 (Z.of_nat bitIdx)))]> result)
            end
      | Some value =>
          match serializeField col value with
          | Ok fieldData => serialize_loop (S i) cols' values (result ++ fieldData)
          | Err e => Err (FieldError e)
          | Panic => Panic
          end
      end
  end.

Definition Serialize (schema : Schema) (values : list Value) : outcome (list byte) :=
  if negb (length values =? length (Columns schema))%nat then Err ValueCountMismatch
  else
    let nullBitmapSize := ((length (Columns schema) + 7) / 8)%nat in
    serialize_loop 0 (Columns schema) values (replicate nullBitmapSize x00).

(** Returns the value and the number of bytes read. *)
Definition deserializeField (col : Column) (data : list byte) : outcome (Value * nat) :=
  if String.eqb (ColType col) TypeInt then
    if len data <? 4 then Err Truncated
    else Ok (Int (to_int (get_le (take 4 data))), 4%nat)
  else if String.eqb (ColType col) TypeFloat then
    if len data <? 8 then Err Truncated
    else Ok (Float64 (get_le (take 8 data)), 8%nat)
  else if String.eqb (ColType col) TypeString then
    if len data <? 2 then Err Truncated
    else
      let length := get_le (take 2 data) in
      if len data <? 2 + length then Err Truncated
      else
        (* [data[2 : 2+length]]: the upper bound is [uint16] arithmetic *)
        let hi := to_uint16 (2 + length) in
        if hi <? 2 then Panic
        else Ok (Str (take (Z.to_nat (hi - 2)) (drop 2 data)),
                 (2 + Z.to_nat length)%nat)
  else Err UnsupportedType.

(** The body of [for i, col := range schema.Columns] in [Deserialize]. *)
Fixpoint deserialize_loop (i : nat) (cols : list Column) (data : list byte)
    (offset : nat) (values : list Value) : outcome (list Value) :=
  match cols with
  | [] => Ok values
  | col :: cols' =>
      let byteIdx := (i / 8)%nat in
      let bitIdx := (i mod 8)%nat in
      match data !! byteIdx with
      | None => Panic
      | Some b =>
          let isNull :=
            negb (Z.land (Z_of_byte b) (Z.shiftl 1 (Z.of_nat bitIdx)) =? 0) in
          if isNull then
            deserialize_loop (S i) cols' data offset (<[i := Nil]> values)
          else if (length data <? offset)%nat then Panic
          else
            match deserializeField col (drop offset data) with
            | Ok (value, bytesRead) =>
                deserialize_loop (S i) cols' data (offset + bytesRead)
                  (<[i := value]> values)
            | Err e => Err (FieldError e)
            | Panic => Panic
            end
      end
  end.

Definition Deserialize (schema : Schema) (data : list byte) : outcome (list Value) :=
  if (length data =? 0)%nat then Err EmptyData
  else
    let nullBitmapSize := ((length (Columns schema) + 7) / 8)%nat in
    if (length data <? nullBitmapSize)%nat then Err Truncated
    else
      deserialize_loop 0 (Columns schema) data nullBitmapSize
        (replicate (length (Columns schema)) Nil).

(** *** Notions used to state the round-trip law *)

(** A value that meets its column's constraints: [nil] only where the
    column is nullable, an [int] that is a non-negative signed 32-bit
    integer, a [float64] bit pattern, a string no longer than the declared
    maximum and of a length the two-byte prefix and the [uint16] slice bound
    of [deserializeField] can carry. *)
Definition value_fits (col : Column) (v : Value) : Prop :=
  match v with
  | Nil => Nullable col = true
  | Int n => ColType col = TypeInt /\ 0 <= n < 2 ^ 31
  | Float64 bits => ColType col = TypeFloat /\ 0 <= bits < 2 ^ 64
  | Str s => ColType col = TypeString /\ len s <= Length col /\ len s <= 65533
  | Other => False
  end.

Definition is_nil_at (values : list Value) (j : nat) : bool :=
  match values !! j with
  | Some Nil => true
  | _ => false
  end.

(** Bit [j] of a null bitmap. *)
Definition bit_at (bm : list byte) (j : nat) : bool :=
  match bm !! (j / 8)%nat with
  | Some b => Z.testbit (Z_of_byte b) (Z.of_nat (j mod 8))
  | None => false
  end.

Definition encode_field (col : Column) (v : Value) : list byte :=
  match v with
  | Nil => []
  | _ => match serializeField col v with
         | Ok d => d
         | _ => []
         end
  end.

Fixpoint payload (cols : list Column) (values : list Value) : list byte :=
  match cols, values with
  | col :: cols', v :: values' => encode_field col v ++ payload cols' values'
  | _, _ => []
  end.

(** A value that [Serialize] takes for a column: [nil] where the column is
    nullable, otherwise a value of the column's type, a string within the
    declared length. *)
Definition accepted (col : Column) (v : Value) : Prop :=
  match v with
  | Nil => Nullable col = true
  | Int _ => ColType col = TypeInt
  | Float64 _ => ColType col = TypeFloat
  | Str s => ColType col = TypeString /\ len s <= Length col
  | Other => False
  end.

(** The number of bytes a value takes in the record. *)
Definition field_size (v : Value) : nat :=
  match v with
  | Nil => 0
  | Int _ => 4
  | Float64 _ => 8
  | Str s => 2 + length s
  | Other => 0
  end.

Definition fields_size (values : list Value) : nat :=
  foldr (fun v n => (field_size v + n)%nat) 0%nat values.

(** A value that [Deserialize] can return for a column. *)
Definition decoded (col : Column) (v : Value) : Prop :=
  match v with
  | Nil => True
  | Int n => ColType col = TypeInt /\ 0 <= n < 2 ^ 32
  | Float64 bits => ColType col = TypeFloat /\ 0 <= bits < 2 ^ 64
  | Str s => ColType col = TypeString /\ len s < 2 ^ 16
  | Other => False
  end.

End record.

(** ** Package [page]: the slotted page (page.go) *)

Module page.

Definition PageSize : Z := 4096.
Definition PageHeaderSize : Z := 18.
Definition SlotEntrySize : Z := 4.

Record PageHeader : Type := {
  HdrPageID : Z;      (* the field [PageID], int32 *)
  SlotCount : Z;      (* int16 *)
  FreeStart : Z;      (* int16 *)
  FreeEnd : Z;        (* int16 *)
  NextPageID : Z;     (* int32 *)
  PrevPageID : Z      (* int32 *)
}.

Record SlotEntry : Type := {
  Offset : Z;         (* int16 *)
  Size : Z            (* int16 *)
}.

(** [Data] is the array [[PageSize]byte]. *)
Record Page : Type := {
  PageID : Z;
  Data : list byte;
  dirty : bool
}.

(** The bounds check of a slice expression [p.Data[lo:hi]]. *)
Definition in_bounds (lo hi : Z) : bool :=
  (0 <=? lo) && (lo <=? hi) && (hi <=? PageSize).

(** The bytes of [data[lo:hi]], for bounds that passed the check. *)
Definition slice (data : list byte) (lo hi : Z) : list byte :=
  take (Z.to_nat (hi - lo)) (drop (Z.to_nat lo) data).

(** [data] with the bytes [bs] written from position [lo] on. *)
Definition store (data : list byte) (lo : Z) (bs : list byte) : list byte :=
  take (Z.to_nat lo) data ++ bs ++ drop (Z.to_nat lo + length bs) data.

(** [copy(data[lo:hi], src)]: [min(hi - lo, len(src))] bytes are copied. *)
Definition copy_to (data : list byte) (lo hi : Z) (src : list byte) : list byte :=
  store data lo (take (Z.to_nat (hi - lo)) src).

Definition set_data (p : Page) (d : list byte) : Page :=
  {| PageID := PageID p; Data := d; dirty := dirty p |}.

Definition set_dirty (p : Page) (b : bool) : Page :=
  {| PageID := PageID p; Data := Data p; dirty := b |}.

Definition readHeader (p : Page) : PageHeader :=
  {| HdrPageID := to_int32 (get_le (slice (Data p) 0 4));
     SlotCount := to_int16 (get_le (slice (Data p) 4 6));
     FreeStart := to_int16 (get_le (slice (Data p) 6 8));
     FreeEnd := to_int16 (get_le (slice (Data p) 8 10));
     NextPageID := to_int32 (get_le (slice (Data p) 10 14));
     PrevPageID := to_int32 (get_le (slice (Data p) 14 18)) |}.

Definition writeHeader (p : Page) (header : PageHeader) : Page :=
  let d := Data p in
  let d := store d 0 (put_le 4 (to_uint32 (HdrPageID header))) in
  let d := store d 4 (put_le 2 (to_uint16 (SlotCount header))) in
  let d := store d 6 (put_le 2 (to_uint16 (FreeStart header))) in
  let d := store d 8 (put_le 2 (to_uint16 (FreeEnd header))) in
  let d := store d 10 (put_le 4 (to_uint32 (NextPageID header))) in
  let d := store d 14 (put_le 4 (to_uint32 (PrevPageID header))) in
  {| PageID := PageID p; Data := d; dirty := true |}.

(** [PageHeaderSize + slotID*SlotEntrySize], in [int] arithmetic. *)
Definition slot_offset (slotID : Z) : Z :=
  to_int (PageHeaderSize + slotID * SlotEntrySize).

(** [None] is the panic of a slice expression out of range. *)
Definition readSlot (p : Page) (slotID : Z) : option SlotEntry :=
  let offset := slot_offset slotID in
  if in_bounds offset (to_int (offset + 2))
     && in_bounds (to_int (offset + 2)) (to_int (offset + 4))
  then Some {| Offset := to_int16 (get_le (slice (Data p) offset (offset + 2)));
               Size := to_int16 (get_le (slice (Data p) (offset + 2) (offset + 4))) |}
  else None.

(** Returns [false] with the page as it is at the panic. *)
Definition writeSlot (p : Page) (slotID : Z) (slot : SlotEntry) : bool * Page :=
  let offset := slot_offset slotID in
  if in_bounds offset (to_int (offset + 2)) then
    let p1 := set_data p (store (Data p) offset (put_le 2 (to_uint16 (Offset slot)))) in
    if in_bounds (to_int (offset + 2)) (to_int (offset + 4)) then
      (true,
       {| PageID := PageID p;
          Data := store (Data p1) (offset + 2) (put_le 2 (to_uint16 (Size slot)));
          dirty := true |})
    else (false, p1)
  else (false, p).

Definition NewPage (pageID : Z) : Page :=
  let page := {| PageID := pageID;
                 Data := replicate (Z.to_nat PageSize) x00;
                 dirty := true |} in
  let header := {| HdrPageID := pageID;
                   SlotCount := 0;
                   FreeStart := PageHeaderSize;
                   FreeEnd := PageSize;
                   NextPageID := -1;
                   PrevPageID := -1 |} in
  writeHeader page header.

(** [None] is the [nil] page. *)
Definition LoadPage (pageID : Z) (data : list byte) : option Page :=
  if negb (len data =? PageSize) then None
  else Some {| PageID := pageID; Data := data; dirty := false |}.

(** The scan [for i := 0; i < int(header.SlotCount); i++] for the first
    slot of size 0, with [n] iterations left from index [i];
    [Some (-1)] when none is found, [None] when [readSlot] panics. *)
Fixpoint find_empty_slot (p : Page) (i : Z) (n : nat) : option Z :=
  match n with
  | O => Some (-1)
  | S n' =>
      match readSlot p i with
      | None => None
      | Some slot =>
          if Size slot =? 0 then Some i else find_empty_slot p (i + 1) n'
      end
  end.

Definition InsertRecord (p : Page) (record : list byte) : outcome Z * Page :=
  let header := readHeader p in
  let recordSize := len record in
  let freeSpace := FreeEnd header - FreeStart header - SlotEntrySize in
  if freeSpace <? recordSize then (Err PageFull, p)
  else
    match find_empty_slot p 0 (Z.to_nat (SlotCount header)) with
    | None => (Panic, p)
    | Some found =>
        let slotID := if found =? -1 then SlotCount header else found in
        let header :=
          if found =? -1 then
            {| HdrPageID := HdrPageID header;
               SlotCount := to_int16 (SlotCount header + 1);
               FreeStart := to_int16 (FreeStart header + SlotEntrySize);
               FreeEnd := FreeEnd header;
               NextPageID := NextPageID header;
               PrevPageID := PrevPageID header |}
          else header in
        let recordOffset := FreeEnd header - recordSize in
        if negb (in_bounds recordOffset (recordOffset + recordSize)) then (Panic, p)
        else
          let p1 := set_data p (copy_to (Data p) recordOffset
                                  (recordOffset + recordSize) record) in
          let slot := {| Offset := to_int16 recordOffset;
                         Size := to_int16 recordSize |} in
          match writeSlot p1 slotID slot with
          | (false, p2) => (Panic, p2)
          | (true, p2) =>
              let header :=
                {| HdrPageID := HdrPageID header;
                   SlotCount := SlotCount header;
                   FreeStart := FreeStart header;
                   FreeEnd := to_int16 recordOffset;
                   NextPageID := NextPageID header;
                   PrevPageID := PrevPageID header |} in
              (Ok slotID, writeHeader p2 header)
          end
    end.

Definition GetRecord (p : Page) (slotID : Z) : outcome (list byte) :=
  let header := readHeader p in
  if SlotCount header <=? slotID then Err NoSuchSlot
  else
    match readSlot p slotID with
    | None => Panic
    | Some slot =>
        if Size slot =? 0 then Err EmptySlot
        else if (Offset slot <? 0) || (Size slot <? 0) then Err CorruptSlot
        else
          let endOffset := Offset slot + Size slot in
          if PageSize <? endOffset then Err CorruptSlot
          else
            (* the upper bound [slot.Offset+slot.Size] is [int16] arithmetic *)
            let hi := to_int16 (Offset slot + Size slot) in
            if negb (in_bounds (Offset slot) hi) then Panic
            else Ok (slice (Data p) (Offset slot) hi)
    end.

Definition UpdateRecord (p : Page) (slotID : Z) (newRecord : list byte)
    : outcome unit * Page :=
  let header := readHeader p in
  if SlotCount header <=? slotID then (Err NoSuchSlot, p)
  else
    match readSlot p slotID with
    | None => (Panic, p)
    | Some slot =>
        if Size slot =? 0 then (Err EmptySlot, p)
        else if negb (len newRecord =? Size slot) then (Err SizeMismatch, p)
        else
          let hi := to_int16 (Offset slot + Size slot) in
          if negb (in_bounds (Offset slot) hi) then (Panic, p)
          else
            (Ok tt,
             {| PageID := PageID p;
                Data := copy_to (Data p) (Offset slot) hi newRecord;
                dirty := true |})
    end.

Definition DeleteRecord (p : Page) (slotID : Z) : outcome unit * Page :=
  let header := readHeader p in
  if SlotCount header <=? slotID then (Err NoSuchSlot, p)
  else
    match readSlot p slotID with
    | None => (Panic, p)
    | Some slot =>
        if Size slot =? 0 then (Err AlreadyEmpty, p)
        else
          let emptySlot := {| Offset := 0; Size := 0 |} in
          match writeSlot p slotID emptySlot with
          | (false, p') => (Panic, p')
          | (true, p') => (Ok tt, p')
          end
    end.

Definition IsDirty (p : Page) : bool := dirty p.
Definition SetClean (p : Page) : Page := set_dirty p false.
Definition GetData (p : Page) : list byte := Data p.

(** *** Notions used to state the page properties *)

(** The image has the size of the array [[PageSize]byte]. *)
Definition image_ok (p : Page) : Prop := len (Data p) = PageSize.

Definition header_ok (h : PageHeader) : Prop :=
  0 <= SlotCount h
  /\ FreeStart h = PageHeaderSize + SlotCount h * SlotEntrySize
  /\ FreeStart h <= FreeEnd h
  /\ FreeEnd h <= PageSize.

(** The record region [[Offset, Offset + Size)] of a non-empty slot lies
    in [[FreeEnd, PageSize)]. *)
Definition region_ok (h : PageHeader) (s : SlotEntry) : Prop :=
  Size s <> 0 ->
  FreeEnd h <= Offset s /\ 0 < Size s /\ Offset s + Size s <= PageSize.

Definition regions_disjoint (s t : SlotEntry) : Prop :=
  Size s <> 0 -> Size t <> 0 ->
  Offset s + Size s <= Offset t \/ Offset t + Size t <= Offset s.

(** The page invariants of the data model. *)
Definition page_inv (p : Page) : Prop :=
  image_ok p
  /\ header_ok (readHeader p)
  /\ (forall i s, 0 <= i < SlotCount (readHeader p) ->
        readSlot p i = Some s -> region_ok (readHeader p) s)
  /\ (forall i j s t,
        0 <= i < SlotCount (readHeader p) -> 0 <= j < SlotCount (readHeader p) ->
        i <> j -> readSlot p i = Some s -> readSlot p j = Some t ->
        regions_disjoint s t).

(** Slot [i] is empty, respectively holds a record. *)
Definition slot_empty (p : Page) (i : Z) : Prop :=
  exists s, readSlot p i = Some s /\ Size s = 0.

Definition slot_used (p : Page) (i : Z) : Prop :=
  exists s, readSlot p i = Some s /\ Size s <> 0.

(** The slot [InsertRecord] chooses: the first empty one, or a new one at
    index [SlotCount]. *)
Definition chosen_slot (p : Page) (slotID : Z) (appended : bool) : Prop :=
  if appended then
    slotID = SlotCount (readHeader p)
    /\ forall j, 0 <= j < SlotCount (readHeader p) -> slot_used p j
  else
    0 <= slotID < SlotCount (readHeader p) /\ slot_empty p slotID
    /\ forall j, 0 <= j < slotID -> slot_used p j.

(** What a successful [InsertRecord] of [record] into [p] leaves behind. *)
Definition insert_post (p : Page) (record : list byte) (slotID : Z)
    (appended : bool) (p' : Page) : Prop :=
  chosen_slot p slotID appended
  /\ image_ok p'
  /\ PageID p' = PageID p
  /\ dirty p' = true
  /\ readHeader p' =
       {| HdrPageID := HdrPageID (readHeader p);
          SlotCount := if appended then SlotCount (readHeader p) + 1
                       else SlotCount (readHeader p);
          FreeStart := if appended then FreeStart (readHeader p) + SlotEntrySize
                       else FreeStart (readHeader p);
          FreeEnd := FreeEnd (readHeader p) - len record;
          NextPageID := NextPageID (readHeader p);
          PrevPageID := PrevPageID (readHeader p) |}
  /\ readSlot p' slotID =
       Some {| Offset := FreeEnd (readHeader p) - len record; Size := len record |}
  /\ (forall j, 0 <= j < SlotCount (readHeader p) -> j <> slotID ->
        readSlot p' j = readSlot p j)
  /\ (forall lo hi, FreeEnd (readHeader p) <= lo ->
        slice (Data p') lo hi = slice (Data p) lo hi)
  /\ slice (Data p') (FreeEnd (readHeader p) - len record) (FreeEnd (readHeader p))
     = record.

(** Slot [i] is a slot of the page and holds a record. *)
Definition live (p : Page) (i : Z) : Prop :=
  0 <= i < SlotCount (readHeader p) /\ slot_used p i.

(** The slot entry stored at byte [off] of an image. *)
Definition slot_at (d : list byte) (off : Z) : SlotEntry :=
  {| Offset := to_int16 (get_le (slice d off (off + 2)));
     Size := to_int16 (get_le (slice d (off + 2) (off + 4))) |}.

Definition header_in_range (h : PageHeader) : Prop :=
  (- 2 ^ 31 <= HdrPageID h < 2 ^ 31)
  /\ (- 2 ^ 15 <= SlotCount h < 2 ^ 15)
  /\ (- 2 ^ 15 <= FreeStart h < 2 ^ 15)
  /\ (- 2 ^ 15 <= FreeEnd h < 2 ^ 15)
  /\ (- 2 ^ 31 <= NextPageID h < 2 ^ 31)
  /\ (- 2 ^ 31 <= PrevPageID h < 2 ^ 31).

(** The header as it reads back after [writeHeader]. *)
Definition stored_header (h : PageHeader) : PageHeader :=
  {| HdrPageID := to_int32 (to_uint32 (HdrPageID h));
     SlotCount := to_int16 (to_uint16 (SlotCount h));
     FreeStart := to_int16 (to_uint16 (FreeStart h));
     FreeEnd := to_int16 (to_uint16 (FreeEnd h));
     NextPageID := to_int32 (to_uint32 (NextPageID h));
     PrevPageID := to_int32 (to_uint32 (PrevPageID h)) |}.

(** Sequences of page operations. *)
Inductive operation : Type :=
  | OpInsert (record : list byte)
  | OpUpdate (slotID : Z) (newRecord : list byte)
  | OpDelete (slotID : Z).

Definition apply_op (p : Page) (o : operation) : Page :=
  match o with
  | OpInsert record => snd (InsertRecord p record)
  | OpUpdate slotID newRecord => snd (UpdateRecord p slotID newRecord)
  | OpDelete slotID => snd (DeleteRecord p slotID)
  end.

Definition run (p : Page) (ops : list operation) : Page :=
  fold_left apply_op ops p.

Definition slot_arg_nonneg (o : operation) : Prop :=
  match o with
  | OpInsert _ => True
  | OpUpdate slotID _ => 0 <= slotID
  | OpDelete slotID => 0 <= slotID
  end.

End page.

(** ** The host file system

    A heap file is its bytes.  The two metadata files are JSON documents;
    they are carried as the values they encode.  The host is reliable: the
    only I/O errors are reads past the end of a file and negative offsets. *)

Module host.

Record FileSystem : Type := {
  heap_files : gmap string (list byte);
  catalog_files : gmap string (gmap string record.Schema);
  (* [{index: {id: {page_id, slot_id}}, next_id}] *)
  index_files : gmap string (gmap Z (Z * Z) * Z)
}.

Definition empty_fs : FileSystem :=
  {| heap_files := ∅; catalog_files := ∅; index_files := ∅ |}.

(** [filepath.Join(basePath, name)]. *)
Definition Join (basePath name : string) : string :=
  (basePath +:+ "/" +:+ name)%string.

Definition set_heap (fs : FileSystem) (h : gmap string (list byte)) : FileSystem :=
  {| heap_files := h; catalog_files := catalog_files fs; index_files := index_files fs |}.

Definition set_catalog (fs : FileSystem) (c : gmap string (gmap string record.Schema))
    : FileSystem :=
  {| heap_files := heap_files fs; catalog_files := c; index_files := index_files fs |}.

Definition set_index (fs : FileSystem) (i : gmap string (gmap Z (Z * Z) * Z))
    : FileSystem :=
  {| heap_files := heap_files fs; catalog_files := catalog_files fs; index_files := i |}.

End host.

(** ** Package [bptree]: the logical-ID index (simple_index.go) *)

Module bptree.

Record RecordID : Type := {
  PageID : Z;   (* int32 *)
  SlotID : Z    (* int *)
}.

Record SimpleIndex : Type := {
  tableName : string;
  basePath : string;
  index : gmap Z RecordID;
  nextID : Z
}.

Definition NewSimpleIndex (tableName basePath : string) : SimpleIndex :=
  {| tableName := tableName; basePath := basePath; index := ∅; nextID := 1 |}.

Definition indexPath (si : SimpleIndex) : string :=
  host.Join (basePath si) (tableName si +:+ ".idx")%string.

Definition Load (si : SimpleIndex) (fs : host.FileSystem) : outcome unit * SimpleIndex :=
  match host.index_files fs !! indexPath si with
  | None => (Ok tt, si)
  | Some (idx, next) =>
      (Ok tt,
       {| tableName := tableName si; basePath := basePath si;
          index := (fun r => {| PageID := fst r; SlotID := snd r |}) <$> idx;
          nextID := next |})
  end.

Definition Save (si : SimpleIndex) (fs : host.FileSystem) : outcome unit * host.FileSystem :=
  (Ok tt,
   host.set_index fs
     (<[indexPath si := ((fun r => (PageID r, SlotID r)) <$> index si, nextID si)]>
        (host.index_files fs))).

Definition Insert (si : SimpleIndex) (rid : RecordID) : outcome Z * SimpleIndex :=
  let id := nextID si in
  (Ok id,
   {| tableName := tableName si; basePath := basePath si;
      index := <[id := rid]> (index si);
      nextID := to_int (nextID si + 1) |}).

(** [(rid, exists)]: [None] when the id is not in the map. *)
Definition Search (si : SimpleIndex) (id : Z) : option RecordID :=
  index si !! id.

Definition Delete (si : SimpleIndex) (id : Z) : outcome unit * SimpleIndex :=
  match index si !! id with
  | None => (Err NotFound, si)
  | Some _ =>
      (Ok tt,
       {| tableName := tableName si; basePath := basePath si;
          index := delete id (index si);
          nextID := nextID si |})
  end.

Definition Update (si : SimpleIndex) (id : Z) (rid : RecordID) : outcome unit * SimpleIndex :=
  match index si !! id with
  | None => (Err NotFound, si)
  | Some _ =>
      (Ok tt,
       {| tableName := tableName si; basePath := basePath si;
          index := <[id := rid]> (index si);
          nextID := nextID si |})
  end.

Definition GetAllRecords (si : SimpleIndex) : gmap Z RecordID := index si.

(** *** Notions used to state the properties of the issued IDs *)

Inductive operation : Type :=
  | OpInsert (rid : RecordID)
  | OpDelete (id : Z)
  | OpUpdate (id : Z) (rid : RecordID)
  | OpSearch (id : Z).

(** Runs the operations in order and collects the IDs that the
    successive [Insert]s return. *)
Fixpoint run (si : SimpleIndex) (ops : list operation) : list Z * SimpleIndex :=
  match ops with
  | [] => ([], si)
  | OpInsert rid :: ops' =>
      match Insert si rid with
      | (Ok id, si') => let '(ids, si'') := run si' ops' in (id :: ids, si'')
      | (_, si') => run si' ops'
      end
  | OpDelete id :: ops' => run (snd (Delete si id)) ops'
  | OpUpdate id rid :: ops' => run (snd (Update si id rid)) ops'
  | OpSearch _ :: ops' => run si ops'
  end.

Definition is_insert (o : operation) : bool :=
  match o with OpInsert _ => true | _ => false end.

Definition count_inserts (ops : list operation) : Z :=
  len (filter (fun o => is_insert o = true) ops).

End bptree.

(** ** Package [disk]: the disk manager (disk_manager.go) *)

Module disk.

Definition PageSize : Z := 4096.

(** [files] holds the names of the tables with an open file handle. *)
Record DiskManager : Type := {
  basePath : string;
  files : gset string;
  pageCounter : gmap string Z   (* int32 *)
}.

Definition NewDiskManager (basePath : string) : DiskManager :=
  {| basePath := basePath; files := ∅; pageCounter := ∅ |}.

(** [os.MkdirAll]: directories are not part of the host model. *)
Definition Open (dm : DiskManager) : outcome unit * DiskManager := (Ok tt, dm).

Definition Close (dm : DiskManager) : outcome unit * DiskManager :=
  (Ok tt, {| basePath := basePath dm; files := ∅; pageCounter := pageCounter dm |}).

Definition filePath (dm : DiskManager) (tableName : string) : string :=
  host.Join (basePath dm) (tableName +:+ ".tbl")%string.

(** The bytes of the table's heap file, empty when it does not exist. *)
Definition contents (dm : DiskManager) (fs : host.FileSystem) (tableName : string)
    : list byte :=
  default [] (host.heap_files fs !! filePath dm tableName).

Definition getFile (dm : DiskManager) (fs : host.FileSystem) (tableName : string)
    : outcome unit * DiskManager * host.FileSystem :=
  if decide (tableName ∈ files dm) then (Ok tt, dm, fs)
  else
    (* os.OpenFile(filePath, os.O_RDWR|os.O_CREATE, 0644) *)
    let fs' :=
      match host.heap_files fs !! filePath dm tableName with
      | Some _ => fs
      | None => host.set_heap fs (<[filePath dm tableName := []]> (host.heap_files fs))
      end in
    let files' := {[tableName]} ∪ files dm in
    let counter' :=
      match pageCounter dm !! tableName with
      | Some _ => pageCounter dm
      | None =>
          <[tableName := to_int32 (len (contents dm fs' tableName) / PageSize)]>
            (pageCounter dm)
      end in
    (Ok tt, {| basePath := basePath dm; files := files'; pageCounter := counter' |}, fs').

Definition ReadPage (dm : DiskManager) (fs : host.FileSystem) (tableName : string)
    (pageID : Z) : outcome (list byte) * DiskManager * host.FileSystem :=
  match getFile dm fs tableName with
  | (Ok _, dm', fs') =>
      let offset := pageID * PageSize in
      let data := contents dm' fs' tableName in
      if (offset <? 0) || (len data <? offset + PageSize) then (Err IOError, dm', fs')
      else (Ok (take (Z.to_nat PageSize) (drop (Z.to_nat offset) data)), dm', fs')
  | (Err e, dm', fs') => (Err e, dm', fs')
  | (Panic, dm', fs') => (Panic, dm', fs')
  end.

Definition WritePage (dm : DiskManager) (fs : host.FileSystem) (tableName : string)
    (pageID : Z) (data : list byte) : outcome unit * DiskManager * host.FileSystem :=
  if negb (len data =? PageSize) then (Err IOError, dm, fs)
  else
    match getFile dm fs tableName with
    | (Ok _, dm', fs') =>
        let offset := pageID * PageSize in
        if offset <? 0 then (Err IOError, dm', fs')
        else
          let old := contents dm' fs' tableName in
          let padded := old ++ replicate (Z.to_nat offset - length old) x00 in
          let new := take (Z.to_nat offset) padded ++ data
                     ++ drop (Z.to_nat (offset + PageSize)) padded in
          (Ok tt, dm',
           host.set_heap fs' (<[filePath dm' tableName := new]> (host.heap_files fs')))
    | (Err e, dm', fs') => (Err e, dm', fs')
    | (Panic, dm', fs') => (Panic, dm', fs')
    end.

Definition AllocatePage (dm : DiskManager) (fs : host.FileSystem) (tableName : string)
    : outcome Z * DiskManager * host.FileSystem :=
  match getFile dm fs tableName with
  | (Ok _, dm', fs') =>
      let pageID := default 0 (pageCounter dm' !! tableName) in
      (Ok pageID,
       {| basePath := basePath dm'; files := files dm';
          pageCounter := <[tableName := to_int32 (pageID + 1)]> (pageCounter dm') |},
       fs')
  | (Err e, dm', fs') => (Err e, dm', fs')
  | (Panic, dm', fs') => (Panic, dm', fs')
  end.

(** A missing key reads as the zero value. *)
Definition GetPageCount (dm : DiskManager) (tableName : string) : Z :=
  default 0 (pageCounter dm !! tableName).

(** *** Notions used to state the properties of the heap file *)

(** What [ReadAt(data, pageID*PageSize)] gives on a file image: the page
    when all its [PageSize] bytes are there, an error otherwise. *)
Definition page_at (image : list byte) (pageID : Z) : outcome (list byte) :=
  let offset := pageID * PageSize in
  if (offset <? 0) || (len image <? offset + PageSize) then Err IOError
  else Ok (take (Z.to_nat PageSize) (drop (Z.to_nat offset) image)).


End disk.

(** ** Package [catalog] (catalog.go) *)

Module catalog.

Record CatalogManager : Type := {
  basePath : string;
  schemas : gmap string record.Schema
}.

Definition NewCatalogManager (basePath : string) : CatalogManager :=
  {| basePath := basePath; schemas := ∅ |}.

Definition metaPath (cm : CatalogManager) : string :=
  host.Join (basePath cm) "tables.meta".

Definition Load (cm : CatalogManager) (fs : host.FileSystem)
    : outcome unit * CatalogManager :=
  match host.catalog_files fs !! metaPath cm with
  | None => (Ok tt, cm)
  | Some blob => (Ok tt, {| basePath := basePath cm; schemas := blob |})
  end.

Definition Save (cm : CatalogManager) (fs : host.FileSystem)
    : outcome unit * host.FileSystem :=
  (Ok tt, host.set_catalog fs (<[metaPath cm := schemas cm]> (host.catalog_files fs))).

Definition CreateTable (cm : CatalogManager) (fs : host.FileSystem)
    (tableName : string) (schema : record.Schema)
    : outcome unit * CatalogManager * host.FileSystem :=
  match schemas cm !! tableName with
  | Some _ => (Err DuplicateTable, cm, fs)
  | None =>
      let cm' := {| basePath := basePath cm;
                    schemas := <[tableName := schema]> (schemas cm) |} in
      let '(r, fs') := Save cm' fs in
      (r, cm', fs')
  end.

Definition GetSchema (cm : CatalogManager) (tableName : string) : outcome record.Schema :=
  match schemas cm !! tableName with
  | Some schema => Ok schema
  | None => Err UnknownTable
  end.

Definition TableExists (cm : CatalogManager) (tableName : string) : bool :=
  bool_decide (is_Some (schemas cm !! tableName)).

(** In map-iteration order, which is unspecified; here the order of the
    map's elements. *)
Definition ListTables (cm : CatalogManager) : list string :=
  (map_to_list (schemas cm)).*1.

End catalog.

(** ** Package [layer]: the storage layer (storage_layer.go)

    The state of a method call is the layer together with the host file
    system.  A [*page.Page] obtained from the cache points into the cache:
    what a page method does to it is written back to the cache entry. *)

Module layer.

Record FileStorageLayer : Type := {
  basePath : string;
  diskManager : disk.DiskManager;
  catalog : catalog.CatalogManager;
  pageCache : gmap string (gmap Z page.Page);
  indexes : gmap string bptree.SimpleIndex;
  isOpen : bool
}.

Abbreviation State := (FileStorageLayer * host.FileSystem)%type.

Definition NewFileStorageLayer : FileStorageLayer :=
  {| basePath := "";
     diskManager := disk.NewDiskManager "";
     catalog := catalog.NewCatalogManager "";
     pageCache := ∅;
     indexes := ∅;
     isOpen := false |}.

Definition set_diskManager (fsl : FileStorageLayer) (dm : disk.DiskManager) :=
  {| basePath := basePath fsl; diskManager := dm; catalog := catalog fsl;
     pageCache := pageCache fsl; indexes := indexes fsl; isOpen := isOpen fsl |}.

Definition set_pageCache (fsl : FileStorageLayer) (c : gmap string (gmap Z page.Page)) :=
  {| basePath := basePath fsl; diskManager := diskManager fsl; catalog := catalog fsl;
     pageCache := c; indexes := indexes fsl; isOpen := isOpen fsl |}.

Definition set_indexes (fsl : FileStorageLayer) (i : gmap string bptree.SimpleIndex) :=
  {| basePath := basePath fsl; diskManager := diskManager fsl; catalog := catalog fsl;
     pageCache := pageCache fsl; indexes := i; isOpen := isOpen fsl |}.

(** [fsl.pageCache[tableName][pageID]]. *)
Definition cached (fsl : FileStorageLayer) (tableName : string) (pageID : Z)
    : option page.Page :=
  match pageCache fsl !! tableName with
  | Some pages => pages !! pageID
  | None => None
  end.

(** [fsl.pageCache[tableName][pageID] = pg], creating the table's map
    when it is missing. *)
Definition put_page (fsl : FileStorageLayer) (tableName : string) (pageID : Z)
    (pg : page.Page) : FileStorageLayer :=
  set_pageCache fsl
    (<[tableName := <[pageID := pg]> (default ∅ (pageCache fsl !! tableName))]>
       (pageCache fsl)).

Definition getPage (tableName : string) (pageID : Z) (st : State)
    : outcome page.Page * State :=
  let '(fsl, fs) := st in
  match cached fsl tableName pageID with
  | Some pg => (Ok pg, st)
  | None =>
      match disk.ReadPage (diskManager fsl) fs tableName pageID with
      | (Ok data, dm', fs') =>
          match page.LoadPage pageID data with
          | None => (Err LoadPageFailed, (set_diskManager fsl dm', fs'))
          | Some pg => (Ok pg, (put_page (set_diskManager fsl dm') tableName pageID pg, fs'))
          end
      | (Err e, dm', fs') => (Err e, (set_diskManager fsl dm', fs'))
      | (Panic, dm', fs') => (Panic, (set_diskManager fsl dm', fs'))
      end
  end.

(** The loop [for pageID := int32(0); pageID < pageCount; pageID++] of
    [insertRecord], with [n] iterations left; [Ok None] when it ends
    without having placed the record. *)
Fixpoint scan_pages (tableName : string) (recordData : list byte) (pageID : Z)
    (n : nat) (st : State) : outcome (option (Z * Z)) * State :=
  match n with
  | O => (Ok None, st)
  | S n' =>
      match getPage tableName pageID st with
      | (Ok pg, (fsl1, fs1)) =>
          match page.InsertRecord pg recordData with
          | (Ok slotID, pg') =>
              (Ok (Some (pageID, slotID)), (put_page fsl1 tableName pageID pg', fs1))
          | (Err _, pg') =>
              scan_pages tableName recordData (to_int32 (pageID + 1)) n'
                (put_page fsl1 tableName pageID pg', fs1)
          | (Panic, pg') => (Panic, (put_page fsl1 tableName pageID pg', fs1))
          end
      | (Err _, st1) => scan_pages tableName recordData (to_int32 (pageID + 1)) n' st1
      | (Panic, st1) => (Panic, st1)
      end
  end.

Definition insertRecord (tableName : string) (recordData : list byte) (st : State)
    : outcome (Z * Z) * State :=
  let pageCount := disk.GetPageCount (diskManager (fst st)) tableName in
  match scan_pages tableName recordData 0 (Z.to_nat pageCount) st with
  | (Ok (Some placed), st1) => (Ok placed, st1)
  | (Ok None, (fsl1, fs1)) =>
      match disk.AllocatePage (diskManager fsl1) fs1 tableName with
      | (Ok newPageID, dm', fs') =>
          let newPage := page.NewPage newPageID in
          match page.InsertRecord newPage recordData with
          | (Ok slotID, newPage') =>
              (Ok (newPageID, slotID),
               (put_page (set_diskManager fsl1 dm') tableName newPageID newPage', fs'))
          | (Err e, _) => (Err e, (set_diskManager fsl1 dm', fs'))
          | (Panic, _) => (Panic, (set_diskManager fsl1 dm', fs'))
          end
      | (Err e, dm', fs') => (Err e, (set_diskManager fsl1 dm', fs'))
      | (Panic, dm', fs') => (Panic, (set_diskManager fsl1 dm', fs'))
      end
  | (Err e, st1) => (Err e, st1)
  | (Panic, st1) => (Panic, st1)
  end.

Definition Open (path : string) (st : State) : outcome unit * State :=
  let '(fsl, fs) := st in
  if isOpen fsl then (Err AlreadyOpen, st)
  else
    let dm := disk.NewDiskManager path in
    let cm := catalog.NewCatalogManager path in
    match disk.Open dm with
    | (Ok _, dm) =>
        match catalog.Load cm fs with
        | (Ok _, cm) =>
            let load tableName :=
              snd (bptree.Load (bptree.NewSimpleIndex tableName path) fs) in
            let fsl' :=
              {| basePath := path; diskManager := dm; catalog := cm;
                 pageCache :=
                   foldr (fun tableName c => <[tableName := ∅]> c) (pageCache fsl)
                     (catalog.ListTables cm);
                 indexes :=
                   foldr (fun tableName i => <[tableName := load tableName]> i)
                     (indexes fsl) (catalog.ListTables cm);
                 isOpen := true |} in
            (Ok tt, (fsl', fs))
        | (Err e, cm) => (Err e, st)
        | (Panic, cm) => (Panic, st)
        end
    | (Err e, _) => (Err e, st)
    | (Panic, _) => (Panic, st)
    end.

Definition CreateTable (tableName : string) (schema : record.Schema) (st : State)
    : outcome unit * State :=
  let '(fsl, fs) := st in
  if negb (isOpen fsl) then (Err NotOpen, st)
  else
    match catalog.CreateTable (catalog fsl) fs tableName schema with
    | (Ok _, cm', fs') =>
        let index := bptree.NewSimpleIndex tableName (basePath fsl) in
        (Ok tt,
         ({| basePath := basePath fsl; diskManager := diskManager fsl; catalog := cm';
             pageCache := <[tableName := ∅]> (pageCache fsl);
             indexes := <[tableName := index]> (indexes fsl);
             isOpen := isOpen fsl |}, fs'))
    | (Err e, cm', fs') => (Err e, st)
    | (Panic, cm', fs') => (Panic, st)
    end.

(** [fsl.indexes[tableName]] is a nil pointer for a table without an
    index; a method called on it panics when it locks the mutex. *)
Definition Insert (tableName : string) (recordData : list byte) (st : State)
    : outcome Z * State :=
  let '(fsl, fs) := st in
  if negb (isOpen fsl) then (Err NotOpen, st)
  else if negb (catalog.TableExists (catalog fsl) tableName) then (Err UnknownTable, st)
  else
    match insertRecord tableName recordData st with
    | (Ok (pageID, slotID), (fsl1, fs1)) =>
        let rid := {| bptree.PageID := pageID; bptree.SlotID := slotID |} in
        match indexes fsl1 !! tableName with
        | None => (Panic, (fsl1, fs1))
        | Some idx =>
            match bptree.Insert idx rid with
            | (Ok recordID, idx') =>
                (Ok recordID,
                 (set_indexes fsl1 (<[tableName := idx']> (indexes fsl1)), fs1))
            | (Err e, idx') =>
                (Err e, (set_indexes fsl1 (<[tableName := idx']> (indexes fsl1)), fs1))
            | (Panic, idx') =>
                (Panic, (set_indexes fsl1 (<[tableName := idx']> (indexes fsl1)), fs1))
            end
        end
    | (Err e, st1) => (Err e, st1)
    | (Panic, st1) => (Panic, st1)
    end.

Definition Get (tableName : string) (recordID : Z) (st : State)
    : outcome (list byte) * State :=
  let '(fsl, fs) := st in
  if negb (isOpen fsl) then (Err NotOpen, st)
  else
    match indexes fsl !! tableName with
    | None => (Panic, st)
    | Some idx =>
        match bptree.Search idx recordID with
        | None => (Err NotFound, st)
        | Some rid =>
            match getPage tableName (bptree.PageID rid) st with
            | (Ok pg, st1) => (page.GetRecord pg (bptree.SlotID rid), st1)
            | (Err e, st1) => (Err e, st1)
            | (Panic, st1) => (Panic, st1)
            end
        end
    end.

Definition Update (tableName : string) (recordID : Z) (updatedRecord : list byte)
    (st : State) : outcome unit * State :=
  let '(fsl, fs) := st in
  if negb (isOpen fsl) then (Err NotOpen, st)
  else
    match indexes fsl !! tableName with
    | None => (Panic, st)
    | Some idx =>
        match bptree.Search idx recordID with
        | None => (Err NotFound, st)
        | Some rid =>
            match getPage tableName (bptree.PageID rid) st with
            | (Ok pg, (fsl1, fs1)) =>
                let '(r, pg') := page.UpdateRecord pg (bptree.SlotID rid) updatedRecord in
                (r, (put_page fsl1 tableName (bptree.PageID rid) pg', fs1))
            | (Err e, st1) => (Err e, st1)
            | (Panic, st1) => (Panic, st1)
            end
        end
    end.

Definition DeleteRecord (tableName : string) (recordID : Z) (st : State)
    : outcome unit * State :=
  let '(fsl, fs) := st in
  if negb (isOpen fsl) then (Err NotOpen, st)
  else
    match indexes fsl !! tableName with
    | None => (Panic, st)
    | Some idx =>
        match bptree.Search idx recordID with
        | None => (Err NotFound, st)
        | Some rid =>
            match getPage tableName (bptree.PageID rid) st with
            | (Ok pg, (fsl1, fs1)) =>
                match page.DeleteRecord pg (bptree.SlotID rid) with
                | (Ok _, pg') =>
                    let fsl2 := put_page fsl1 tableName (bptree.PageID rid) pg' in
                    match indexes fsl2 !! tableName with
                    | None => (Panic, (fsl2, fs1))
                    | Some idx2 =>
                        let '(r, idx') := bptree.Delete idx2 recordID in
                        (r, (set_indexes fsl2 (<[tableName := idx']> (indexes fsl2)), fs1))
                    end
                | (Err e, pg') =>
                    (Err e, (put_page fsl1 tableName (bptree.PageID rid) pg', fs1))
                | (Panic, pg') =>
                    (Panic, (put_page fsl1 tableName (bptree.PageID rid) pg', fs1))
                end
            | (Err e, st1) => (Err e, st1)
            | (Panic, st1) => (Panic, st1)
            end
        end
    end.

(** [filter == nil || filter(recordData)]. *)
Definition passes (filter : option (list byte -> bool)) (recordData : list byte) : bool :=
  match filter with
  | None => true
  | Some f => f recordData
  end.

(** The loop [for _, rid := range allRecords] of [Scan], over the record
    locations in the order [rids] in which the loop visits them. *)
Fixpoint scan_records (tableName : string) (filter : option (list byte -> bool))
    (rids : list bptree.RecordID) (results : list (list byte)) (st : State)
    : outcome (list (list byte)) * State :=
  match rids with
  | [] => (Ok results, st)
  | rid :: rids' =>
      match getPage tableName (bptree.PageID rid) st with
      | (Ok pg, st1) =>
          match page.GetRecord pg (bptree.SlotID rid) with
          | Ok recordData =>
              if passes filter recordData
              then scan_records tableName filter rids' (results ++ [recordData]) st1
              else scan_records tableName filter rids' results st1
          | Err _ => scan_records tableName filter rids' results st1
          | Panic => (Panic, st1)
          end
      | (Err _, st1) => scan_records tableName filter rids' results st1
      | (Panic, st1) => (Panic, st1)
      end
  end.

(** The order in which a [range] loop visits a map is not specified; here
    it is the order of the map's elements.  The properties of [Scan] are
    stated up to the order of the results, and for the loop in any order. *)
Definition Scan (tableName : string) (filter : option (list byte -> bool)) (st : State)
    : outcome (list (list byte)) * State :=
  let '(fsl, fs) := st in
  if negb (isOpen fsl) then (Err NotOpen, st)
  else if negb (catalog.TableExists (catalog fsl) tableName) then (Err UnknownTable, st)
  else
    match indexes fsl !! tableName with
    | None => (Panic, st)
    | Some idx =>
        scan_records tableName filter (map_to_list (bptree.GetAllRecords idx)).*2 [] st
    end.

(** The loop [for _, index := range fsl.indexes] of [Flush]. *)
Fixpoint save_indexes (idxs : list bptree.SimpleIndex) (fs : host.FileSystem)
    : outcome unit * host.FileSystem :=
  match idxs with
  | [] => (Ok tt, fs)
  | idx :: idxs' =>
      match bptree.Save idx fs with
      | (Ok _, fs') => save_indexes idxs' fs'
      | (Err e, fs') => (Err e, fs')
      | (Panic, fs') => (Panic, fs')
      end
  end.

(** The two nested loops over [fsl.pageCache] of [Flush], over the cached
    pages in the order [entries] in which the loops visit them. *)
Fixpoint flush_pages (entries : list (string * Z * page.Page)) (st : State)
    : outcome unit * State :=
  match entries with
  | [] => (Ok tt, st)
  | (tableName, pageID, pg) :: entries' =>
      if page.IsDirty pg then
        match disk.WritePage (diskManager st.1) st.2 tableName pageID (page.GetData pg) with
        | (Ok _, dm', fs') =>
            flush_pages entries'
              (put_page (set_diskManager st.1 dm') tableName pageID (page.SetClean pg), fs')
        | (Err e, dm', fs') => (Err e, (set_diskManager st.1 dm', fs'))
        | (Panic, dm', fs') => (Panic, (set_diskManager st.1 dm', fs'))
        end
      else flush_pages entries' st
  end.

(** The cached pages, table by table, in the order of the maps' elements. *)
Definition cache_entries (fsl : FileStorageLayer) : list (string * Z * page.Page) :=
  map_to_list (pageCache fsl)
  ≫= (fun tp => (fun e => (tp.1, e.1, e.2)) <$> map_to_list tp.2).

(** The body of [Flush], with the two [range] loops visiting the indexes
    and the cached pages in the orders [idxs] and [entries]. *)
Definition Flush_in (idxs : list bptree.SimpleIndex)
    (entries : list (string * Z * page.Page)) (st : State) : outcome unit * State :=
  let '(fsl, fs) := st in
  if negb (isOpen fsl) then (Err NotOpen, st)
  else
    match catalog.Save (catalog fsl) fs with
    | (Ok _, fs1) =>
        match save_indexes idxs fs1 with
        | (Ok _, fs2) => flush_pages entries (fsl, fs2)
        | (Err e, fs2) => (Err e, (fsl, fs2))
        | (Panic, fs2) => (Panic, (fsl, fs2))
        end
    | (Err e, fs1) => (Err e, (fsl, fs1))
    | (Panic, fs1) => (Panic, (fsl, fs1))
    end.


Definition Close_in (idxs : list bptree.SimpleIndex)
    (entries : list (string * Z * page.Page)) (st : State) : outcome unit * State :=
  let '(fsl, fs) := st in
  if negb (isOpen fsl) then (Ok tt, st)
  else
    match Flush_in idxs entries st with
    | (Ok _, (fsl1, fs1)) =>
        match disk.Close (diskManager fsl1) with
        | (Ok _, dm') =>
            (Ok tt,
             ({| basePath := basePath fsl1; diskManager := dm'; catalog := catalog fsl1;
                 pageCache := pageCache fsl1; indexes := indexes fsl1;
                 isOpen := false |}, fs1))
        | (Err e, dm') => (Err e, (set_diskManager fsl1 dm', fs1))
        | (Panic, dm') => (Panic, (set_diskManager fsl1 dm', fs1))
        end
    | (Err e, st1) => (Err e, st1)
    | (Panic, st1) => (Panic, st1)
    end.

Definition Close (st : State) : outcome unit * State :=
  Close_in (map_to_list (indexes st.1)).*2 (cache_entries st.1) st.

(** *** Notions used to state the layer properties *)

(** The page that [getPage] returns: the cached one, else the one loaded
    from the heap file. *)
Definition fetch (st : State) (tableName : string) (pageID : Z) : outcome page.Page :=
  match cached st.1 tableName pageID with
  | Some pg => Ok pg
  | None =>
      match disk.page_at (disk.contents (diskManager st.1) st.2 tableName) pageID with
      | Ok data =>
          match page.LoadPage pageID data with
          | Some pg => Ok pg
          | None => Err LoadPageFailed
          end
      | Err e => Err e
      | Panic => Panic
      end
  end.

(** The record at a location, as [Get] and [Scan] read it. *)
Definition read (st : State) (tableName : string) (rid : bptree.RecordID)
    : outcome (list byte) :=
  match fetch st tableName (bptree.PageID rid) with
  | Ok pg => page.GetRecord pg (bptree.SlotID rid)
  | Err e => Err e
  | Panic => Panic
  end.





(** What [Get] on a table depends on is the same in two states. *)
Definition same_table_view (tableName : string) (st st' : State) : Prop :=
  isOpen st'.1 = isOpen st.1
  /\ indexes st'.1 !! tableName = indexes st.1 !! tableName
  /\ forall pageID, fetch st' tableName pageID = fetch st tableName pageID.

(** Different IDs of a table are recorded at different locations. *)
Definition locations_distinct (fsl : FileStorageLayer) (tableName : string) : Prop :=
  forall idx id1 id2 rid1 rid2,
    indexes fsl !! tableName = Some idx ->
    bptree.index idx !! id1 = Some rid1 -> bptree.index idx !! id2 = Some rid2 ->
    id1 <> id2 ->
    (bptree.PageID rid1, bptree.SlotID rid1) <> (bptree.PageID rid2, bptree.SlotID rid2).

(** What [Scan] keeps of a read. *)
Definition kept (filter : option (list byte -> bool)) (r : outcome (list byte))
    : option (list byte) :=
  match r with
  | Ok recordData => if passes filter recordData then Some recordData else None
  | _ => None
  end.


(** Every cached page meets the page invariants. *)
Definition cache_ok (fsl : FileStorageLayer) : Prop :=
  forall tableName pageID pg,
    cached fsl tableName pageID = Some pg -> page.page_inv pg.

(** Every whole page of every heap file meets the page invariants. *)
Definition heap_ok (fs : host.FileSystem) : Prop :=
  forall path data k pageID,
    host.heap_files fs !! path = Some data ->
    0 <= k -> k * disk.PageSize + disk.PageSize <= len data ->
    page.page_inv
      {| page.PageID := pageID;
         page.Data := take (Z.to_nat disk.PageSize) (drop (Z.to_nat (k * disk.PageSize)) data);
         page.dirty := false |}.

Definition layer_ok (st : State) : Prop := cache_ok st.1 /\ heap_ok st.2.

(** The parts of the layer that the page-level helpers leave alone. *)
Definition same_tables (fsl fsl' : FileStorageLayer) : Prop :=
  isOpen fsl' = isOpen fsl /\ indexes fsl' = indexes fsl /\ catalog fsl' = catalog fsl.

(** What the caller of [insertRecord] relies on: the record sits in the
    cached page at the returned location. *)
Definition placed (tableName : string) (recordData : list byte)
    (fsl : FileStorageLayer) (at_ : Z * Z) : Prop :=
  exists pg, cached fsl tableName at_.1 = Some pg
             /\ page.GetRecord pg at_.2 = Ok recordData.

(** Every location recorded in an index has a slot number that is not
    negative. *)
Definition index_ok (fsl : FileStorageLayer) : Prop :=
  forall tableName idx id rid,
    indexes fsl !! tableName = Some idx -> bptree.index idx !! id = Some rid ->
    0 <= bptree.SlotID rid.

(** Calls of the public API, and the state they leave behind. *)
Inductive call : Type :=
  | CallOpen (path : string)
  | CallCreateTable (tableName : string) (schema : record.Schema)
  | CallInsert (tableName : string) (recordData : list byte)
  | CallGet (tableName : string) (recordID : Z)
  | CallUpdate (tableName : string) (recordID : Z) (updatedRecord : list byte)
  | CallDeleteRecord (tableName : string) (recordID : Z).

Definition exec (st : State) (c : call) : State :=
  match c with
  | CallOpen path => (Open path st).2
  | CallCreateTable tableName schema => (CreateTable tableName schema st).2
  | CallInsert tableName recordData => (Insert tableName recordData st).2
  | CallGet tableName recordID => (Get tableName recordID st).2
  | CallUpdate tableName recordID updatedRecord =>
      (Update tableName recordID updatedRecord st).2
  | CallDeleteRecord tableName recordID => (DeleteRecord tableName recordID st).2
  end.

Definition exec_all (st : State) (calls : list call) : State :=
  fold_left exec calls st.

(** The invariant of the states reached from a new layer on an empty
    directory. *)
Definition state_ok (st : State) : Prop :=
  layer_ok st /\ index_ok st.1 /\ host.index_files st.2 = ∅.

(** No heap file has been written yet. *)
Definition heap_empty (fs : host.FileSystem) : Prop :=
  forall path data, host.heap_files fs !! path = Some data -> data = [].

(** Every location recorded in an index is a slot of a cached page that
    holds a record. *)
Definition located (fsl : FileStorageLayer) : Prop :=
  forall tableName idx id rid,
    indexes fsl !! tableName = Some idx -> bptree.index idx !! id = Some rid ->
    exists pg, cached fsl tableName (bptree.PageID rid) = Some pg
               /\ page.live pg (bptree.SlotID rid).

(** The cached pages of a table have page numbers below its page count. *)
Definition counted (fsl : FileStorageLayer) : Prop :=
  forall tableName pageID pg,
    cached fsl tableName pageID = Some pg ->
    0 <= pageID < disk.GetPageCount (diskManager fsl) tableName.

(** The invariant of the states reached, without [Flush] and [Close], from a
    new layer on an empty directory by calls of which at most [k] are
    insertions and none inserts an empty record. *)
Definition records_ok (k : Z) (st : State) : Prop :=
  layer_ok st
  /\ heap_empty st.2
  /\ host.index_files st.2 = ∅
  /\ located st.1
  /\ (forall tableName, locations_distinct st.1 tableName)
  /\ counted st.1
  /\ (forall tableName, 0 <= disk.GetPageCount (diskManager st.1) tableName <= k)
  /\ (isOpen st.1 = false -> pageCache st.1 = ∅ /\ indexes st.1 = ∅).

Definition inserts_nonempty (c : call) : Prop :=
  match c with
  | CallInsert _ recordData => recordData <> []
  | _ => True
  end.

Definition is_insert_call (c : call) : bool :=
  match c with CallInsert _ _ => true | _ => false end.

Definition count_insert_calls (calls : list call) : Z :=
  len (filter (fun c => is_insert_call c = true) calls).

End layer.

(* ===================================================================== *)
(** * Part II: properties                                                 *)
(* ===================================================================== *)

(** ** Bytes and little-endian words *)

Lemma Z_of_byte_range b : 0 <= Z_of_byte b < 256.
Proof.
  unfold Z_of_byte. pose proof (Byte.to_N_bounded b). lia.
Qed.

Lemma byte_of_Z_of_byte b : byte_of_Z (Z_of_byte b) = b.
Proof.
  unfold byte_of_Z. pose proof (Z_of_byte_range b) as Hr.
  rewrite Z.mod_small by lia. unfold Z_of_byte.
  rewrite N2Z.id, Byte.of_to_N. reflexivity.
Qed.

Lemma Z_of_byte_of_Z z : Z_of_byte (byte_of_Z z) = z mod 256.
Proof.
  unfold byte_of_Z, Z_of_byte.
  pose proof (Z.mod_pos_bound z 256 ltac:(lia)) as Hr.
  destruct (Byte.of_N (Z.to_N (z mod 256))) as [b|] eqn:E.
  - apply Byte.to_of_N in E. rewrite E. lia.
  - apply Byte.of_N_None_iff in E. lia.
Qed.

Lemma land_low_shiftl_8 a x : 0 <= a < 256 -> Z.land a (Z.shiftl x 8) = 0.
Proof.
  intros Ha. apply Z.bits_inj'. intros n Hn.
  rewrite Z.land_spec, Z.bits_0.
  destruct (Z.lt_ge_cases n 8) as [Hlt|Hge].
  - rewrite Z.shiftl_spec_low by lia. apply andb_false_r.
  - destruct (Z.eq_dec a 0) as [->|Hne].
    + rewrite Z.bits_0. reflexivity.
    + rewrite (Z.bits_above_log2 a n); [reflexivity|lia|].
      assert (Z.log2 a < 8); [|lia].
      apply Z.log2_lt_pow2; lia.
Qed.

Lemma lor_shiftl_8 a x : 0 <= a < 256 -> Z.lor a (Z.shiftl x 8) = a + 256 * x.
Proof.
  intros Ha.
  rewrite <- Z.lxor_lor, <- Z.add_nocarry_lxor by (apply land_low_shiftl_8; lia).
  rewrite Z.shiftl_mul_pow2 by lia. lia.
Qed.

Lemma get_le_cons b bs : get_le (b :: bs) = Z_of_byte b + 256 * get_le bs.
Proof. cbn [get_le]. apply lor_shiftl_8, Z_of_byte_range. Qed.

Lemma length_put_le n v : length (put_le n v) = n.
Proof. revert v. induction n as [|n IH]; intros v; cbn [put_le length]; [|rewrite IH]; reflexivity. Qed.

Lemma take_put_le_app n v rest : take n (put_le n v ++ rest) = put_le n v.
Proof.
  rewrite <- (length_put_le n v) at 1. apply take_app_length.
Qed.

Lemma drop_put_le_app n v rest : drop n (put_le n v ++ rest) = rest.
Proof.
  rewrite <- (length_put_le n v) at 1. apply drop_app_length.
Qed.

Lemma get_le_put_le n v : get_le (put_le n v) = v mod 2 ^ (8 * Z.of_nat n).
Proof.
  revert v. induction n as [|n IH]; intros v.
  - cbn [put_le get_le]. rewrite Z.mul_0_r, Z.pow_0_r, Z.mod_1_r. reflexivity.
  - cbn [put_le]. rewrite get_le_cons, IH, Z_of_byte_of_Z, Z.shiftr_div_pow2 by lia.
    replace (8 * Z.of_nat (S n)) with (8 + 8 * Z.of_nat n) by lia.
    rewrite Z.pow_add_r by lia.
    change (2 ^ 8) with 256.
    rewrite Z.rem_mul_r by lia. reflexivity.
Qed.

Lemma get_le_put_le_small n v :
  0 <= v < 2 ^ (8 * Z.of_nat n) -> get_le (put_le n v) = v.
Proof. intros Hv. rewrite get_le_put_le. apply Z.mod_small, Hv. Qed.

Lemma get_le_put_uint16 z : get_le (put_le 2 (to_uint16 z)) = to_uint16 z.
Proof.
  rewrite get_le_put_le. unfold to_uint16, wrap_unsigned.
  change (8 * Z.of_nat 2) with 16. apply Z.mod_mod. lia.
Qed.

Lemma get_le_put_uint32 z : get_le (put_le 4 (to_uint32 z)) = to_uint32 z.
Proof.
  rewrite get_le_put_le. unfold to_uint32, wrap_unsigned.
  change (8 * Z.of_nat 4) with 32. apply Z.mod_mod. lia.
Qed.

Lemma land_bit_eqb x k :
  0 <= k -> (Z.land x (Z.shiftl 1 k) =? 0) = negb (Z.testbit x k).
Proof.
  intros Hk. rewrite Z.shiftl_1_l.
  destruct (Z.testbit x k) eqn:Hb; cbn [negb].
  - apply Z.eqb_neq. intros H0.
    assert (Z.testbit (Z.land x (2 ^ k)) k = true) as Ht.
    { rewrite Z.land_spec, Hb, Z.pow2_bits_true by lia. reflexivity. }
    rewrite H0, Z.bits_0 in Ht. discriminate.
  - apply Z.eqb_eq. apply Z.bits_inj'. intros n Hn.
    rewrite Z.land_spec, Z.bits_0.
    destruct (Z.eq_dec n k) as [->|Hne].
    + rewrite Hb. reflexivity.
    + rewrite Z.pow2_bits_false by lia. apply andb_false_r.
Qed.

Lemma to_int_small z : - 2 ^ 63 <= z < 2 ^ 63 -> to_int z = z.
Proof.
  intros Hz. unfold to_int, wrap_signed.
  change (2 ^ (64 - 1)) with (2 ^ 63). change (2 ^ 64) with (2 * 2 ^ 63).
  rewrite Z.mod_small by lia. lia.
Qed.

Lemma len_put_le n v : len (put_le n v) = Z.of_nat n.
Proof. unfold len. rewrite length_put_le. reflexivity. Qed.

(** ** The row codec *)

Section codec.
Import record.

Lemma drop_cons_inv {A} (l : list A) i x rest :
  drop i l = x :: rest -> l !! i = Some x /\ drop (S i) l = rest.
Proof.
  intros H.
  assert (l !! i = Some x) as Hx.
  { pose proof (lookup_drop l i 0) as Hl. rewrite H in Hl. cbn in Hl.
    rewrite Nat.add_0_r in Hl. congruence. }
  split; [exact Hx|].
  rewrite (drop_S _ _ _ Hx) in H. congruence.
Qed.

Lemma drop_nil_lookup {A} (l : list A) i j :
  drop i l = [] -> (i <= j)%nat -> l !! j = None.
Proof.
  intros H Hij. apply lookup_ge_None.
  apply (f_equal length) in H. rewrite length_drop in H. cbn in H. lia.
Qed.

Lemma divmod8_eq (i j : nat) :
  (j = i) <-> ((j / 8 = i / 8) /\ (j mod 8 = i mod 8))%nat.
Proof.
  pose proof (Nat.div_mod_eq i 8). pose proof (Nat.div_mod_eq j 8).
  split; [intros ->; auto | intros [? ?]; lia].
Qed.

Lemma bit_at_zeros n j : bit_at (replicate n x00) j = false.
Proof.
  unfold bit_at. destruct (replicate n x00 !! (j / 8)%nat) as [b|] eqn:E; [|reflexivity].
  apply lookup_replicate in E as [-> _]. apply Z.bits_0.
Qed.

Lemma bit_at_set bm i j b :
  bm !! (i / 8)%nat = Some b ->
  bit_at (<[(i / 8)%nat :=
             byte_of_Z (Z.lor (Z_of_byte b) (Z.shiftl 1 (Z.of_nat (i mod 8))))]> bm) j
  = bit_at bm j || (j =? i)%nat.
Proof.
  intros Hb. unfold bit_at.
  pose proof (lookup_lt_Some _ _ _ Hb) as Hlt.
  pose proof (Nat.mod_upper_bound j 8 ltac:(lia)) as Hj8.
  destruct (decide (j / 8 = i / 8)%nat) as [He|Hne].
  - rewrite He, list_lookup_insert_eq, Hb by exact Hlt.
    rewrite Z_of_byte_of_Z. change 256 with (2 ^ 8).
    rewrite Z.mod_pow2_bits_low by lia.
    rewrite Z.lor_spec, Z.shiftl_1_l, Z.pow2_bits_eqb by lia.
    f_equal.
    destruct (Nat.eqb_spec j i) as [->|Hji].
    + apply Z.eqb_refl.
    + apply Z.eqb_neq. intros Hm.
      apply Hji, divmod8_eq. split; [exact He|lia].
  - rewrite list_lookup_insert_ne by congruence.
    destruct (Nat.eqb_spec j i) as [->|Hji]; [congruence|].
    rewrite orb_false_r. reflexivity.
Qed.

Lemma serializeField_fits col v :
  value_fits col v -> v <> Nil ->
  serializeField col v = Ok (encode_field col v).
Proof.
  intros Hfit Hnn. unfold encode_field.
  destruct v as [|n|bits|s|]; try congruence; cbn in Hfit.
  - destruct Hfit as [Ht _]. unfold serializeField. rewrite Ht. reflexivity.
  - destruct Hfit as [Ht _]. unfold serializeField. rewrite Ht. reflexivity.
  - destruct Hfit as (Ht & Hl & _). unfold serializeField. rewrite Ht. cbn.
    destruct (Z.ltb_spec (Length col) (len s)); [lia|reflexivity].
  - contradiction.
Qed.

Lemma deserializeField_encode col v rest :
  value_fits col v -> v <> Nil ->
  deserializeField col (encode_field col v ++ rest)
  = Ok (v, length (encode_field col v)).
Proof.
  intros Hfit Hnn.
  destruct v as [|n|bits|s|]; try congruence; cbn in Hfit.
  - destruct Hfit as [Ht Hn].
    assert (encode_field col (Int n) = put_le 4 (to_uint32 n)) as ->.
    { unfold encode_field, serializeField. rewrite Ht. reflexivity. }
    unfold deserializeField. rewrite Ht.
    change (String.eqb TypeInt TypeInt) with true. cbv iota.
    unfold len. rewrite length_app, length_put_le.
    destruct (Z.ltb_spec (Z.of_nat (4 + length rest)) 4); [lia|].
    rewrite take_put_le_app.
    rewrite get_le_put_le. unfold to_uint32, wrap_unsigned, to_int, wrap_signed.
    change (8 * Z.of_nat 4) with 32. rewrite Z.mod_mod by lia.
    change (2 ^ 31) with 2147483648 in Hn.
    rewrite (Z.mod_small n) by (change (2 ^ 32) with 4294967296; lia).
    change (2 ^ (64 - 1)) with 9223372036854775808.
    change (2 ^ 64) with 18446744073709551616.
    rewrite Z.mod_small by lia.
    do 3 f_equal. lia.
  - destruct Hfit as [Ht Hn].
    assert (encode_field col (Float64 bits) = put_le 8 bits) as ->.
    { unfold encode_field, serializeField. rewrite Ht. reflexivity. }
    unfold deserializeField. rewrite Ht.
    change (String.eqb TypeFloat TypeInt) with false.
    change (String.eqb TypeFloat TypeFloat) with true. cbv iota.
    unfold len. rewrite length_app, length_put_le.
    destruct (Z.ltb_spec (Z.of_nat (8 + length rest)) 8); [lia|].
    rewrite take_put_le_app.
    rewrite get_le_put_le_small by (change (8 * Z.of_nat 8) with 64; lia).
    reflexivity.
  - destruct Hfit as (Ht & Hl & Hs).
    assert (to_uint16 (len s) = len s) as Hu.
    { unfold to_uint16, wrap_unsigned. apply Z.mod_small.
      change (2 ^ 16) with 65536. unfold len in *. lia. }
    assert (encode_field col (Str s) = put_le 2 (len s) ++ s) as ->.
    { unfold encode_field, serializeField. rewrite Ht.
      change (String.eqb TypeString TypeInt) with false.
      change (String.eqb TypeString TypeFloat) with false.
      change (String.eqb TypeString TypeString) with true. cbv iota.
      destruct (Z.ltb_spec (Length col) (len s)); [lia|].
      rewrite Hu. reflexivity. }
    unfold deserializeField. rewrite Ht.
    change (String.eqb TypeString TypeInt) with false.
    change (String.eqb TypeString TypeFloat) with false.
    change (String.eqb TypeString TypeString) with true. cbv iota.
    rewrite <- app_assoc.
    assert (len (put_le 2 (len s) ++ s ++ rest) = 2 + len s + len rest) as Hlen.
    { unfold len. rewrite !length_app, length_put_le. lia. }
    rewrite Hlen.
    destruct (Z.ltb_spec (2 + len s + len rest) 2); [unfold len in *; lia|].
    rewrite take_put_le_app.
    rewrite get_le_put_le_small
      by (change (8 * Z.of_nat 2) with 16; change (2 ^ 16) with 65536; unfold len in *; lia).
    destruct (Z.ltb_spec (2 + len s + len rest) (2 + len s));
      [unfold len in *; lia|].
    assert (to_uint16 (2 + len s) = 2 + len s) as Hu2.
    { unfold to_uint16, wrap_unsigned. apply Z.mod_small.
      change (2 ^ 16) with 65536. unfold len in *. lia. }
    rewrite Hu2.
    destruct (Z.ltb_spec (2 + len s) 2); [unfold len in *; lia|].
    rewrite drop_put_le_app.
    replace (Z.to_nat (2 + len s - 2)) with (length s) by (unfold len; lia).
    rewrite take_app_length.
    replace (Z.to_nat (len s)) with (length s) by (unfold len; lia).
    rewrite length_app, length_put_le.
    reflexivity.
  - contradiction.
Qed.

Lemma value_nil_dec (v : Value) : {v = Nil} + {v <> Nil}.
Proof. destruct v; (left; reflexivity) || (right; discriminate). Qed.

Lemma is_nil_at_lookup values i v :
  values !! i = Some v -> is_nil_at values i = true <-> v = Nil.
Proof.
  intros H. unfold is_nil_at. rewrite H.
  destruct v; split; intros; congruence.
Qed.

Lemma serialize_loop_ok cols : forall i values bm pl,
  Forall2 value_fits cols (drop i values) ->
  (i + length cols <= 8 * length bm)%nat ->
  exists bm',
    serialize_loop i cols values (bm ++ pl)
    = Ok (bm' ++ pl ++ payload cols (drop i values))
    /\ length bm' = length bm
    /\ forall j, bit_at bm' j = bit_at bm j || ((i <=? j)%nat && is_nil_at values j).
Proof.
  induction cols as [|col cols IH]; intros i values bm pl Hfit Hlen.
  - apply Forall2_nil_inv_l in Hfit.
    exists bm. cbn [serialize_loop payload]. rewrite app_nil_r.
    split; [reflexivity|]. split; [reflexivity|].
    intros j. destruct (Nat.leb_spec i j) as [Hij|Hij]; cbn [andb].
    + unfold is_nil_at. rewrite (drop_nil_lookup _ _ _ Hfit Hij).
      rewrite orb_false_r. reflexivity.
    + rewrite orb_false_r. reflexivity.
  - apply Forall2_cons_inv_l in Hfit as (v & rest & Hv & Hrest & Hdrop).
    apply drop_cons_inv in Hdrop as [Hi Hdrop]. subst rest.
    cbn [length] in Hlen.
    destruct (value_nil_dec v) as [->|Hnn].
    + cbn in Hv. cbn [serialize_loop]. rewrite Hi, Hv. cbn [negb].
      assert (i / 8 < length bm)%nat as Hidx.
      { pose proof (Nat.div_mod_eq i 8).
        pose proof (Nat.mod_upper_bound i 8 ltac:(lia)). lia. }
      destruct (lookup_lt_is_Some_2 bm _ Hidx) as [b Hb].
      rewrite lookup_app_l, Hb by exact Hidx.
      rewrite insert_app_l by exact Hidx.
      destruct (IH (S i) values
                  (<[(i / 8)%nat :=
                      byte_of_Z (Z.lor (Z_of_byte b)
                                   (Z.shiftl 1 (Z.of_nat (i mod 8))))]> bm)
                  pl Hrest) as (bm' & Hrun & Hl & Hbits).
      { rewrite length_insert. lia. }
      exists bm'. split; [|split].
      * rewrite Hrun. rewrite (drop_S _ _ _ Hi). reflexivity.
      * rewrite Hl. apply length_insert.
      * intros j. rewrite Hbits, (bit_at_set _ _ _ _ Hb).
        rewrite <- orb_assoc. f_equal.
        destruct (Nat.eqb_spec j i) as [->|Hji].
        -- rewrite Nat.leb_refl. cbn [andb orb].
           symmetry. apply (is_nil_at_lookup _ _ _ Hi). reflexivity.
        -- cbn [orb]. f_equal.
           destruct (Nat.leb_spec (S i) j), (Nat.leb_spec i j); try reflexivity; lia.
    + assert (serialize_loop i (col :: cols) values (bm ++ pl)
              = serialize_loop (S i) cols values ((bm ++ pl) ++ encode_field col v)) as ->.
      { cbn [serialize_loop]. rewrite Hi, (serializeField_fits _ _ Hv Hnn).
        destruct v; congruence. }
      rewrite <- app_assoc.
      destruct (IH (S i) values bm (pl ++ encode_field col v) Hrest)
        as (bm' & Hrun & Hl & Hbits); [lia|].
      exists bm'. split; [|split].
      * rewrite Hrun, (drop_S _ _ _ Hi). cbn [payload].
        rewrite <- !app_assoc. reflexivity.
      * exact Hl.
      * intros j. rewrite Hbits. f_equal.
        destruct (Nat.eqb_spec j i) as [->|Hji].
        -- assert (is_nil_at values i = false) as ->.
           { destruct (is_nil_at values i) eqn:E; [|reflexivity].
             apply (is_nil_at_lookup _ _ _ Hi) in E. contradiction. }
           rewrite !andb_false_r. reflexivity.
        -- f_equal.
           destruct (Nat.leb_spec (S i) j), (Nat.leb_spec i j); try reflexivity; lia.
Qed.

Lemma deserialize_loop_ok cols : forall i values bm pre acc,
  Forall2 value_fits cols (drop i values) ->
  (i + length cols <= 8 * length bm)%nat ->
  (forall j, (j < length values)%nat -> bit_at bm j = is_nil_at values j) ->
  length acc = length values ->
  (forall j, (j < i)%nat -> acc !! j = values !! j) ->
  deserialize_loop i cols (bm ++ pre ++ payload cols (drop i values))
    (length bm + length pre) acc
  = Ok values.
Proof.
  induction cols as [|col cols IH]; intros i values bm pre acc Hfit Hlen Hbits Hacc Hpre.
  - apply Forall2_nil_inv_l in Hfit. cbn [deserialize_loop]. f_equal.
    apply (f_equal length) in Hfit. rewrite length_drop in Hfit. cbn in Hfit.
    apply list_eq. intros j.
    destruct (decide (j < i)%nat) as [Hj|Hj]; [apply Hpre, Hj|].
    rewrite !(proj2 (lookup_ge_None _ _)) by lia. reflexivity.
  - apply Forall2_cons_inv_l in Hfit as (v & rest & Hv & Hrest & Hdrop).
    apply drop_cons_inv in Hdrop as [Hi Hdrop]. subst rest.
    cbn [length] in Hlen.
    pose proof (lookup_lt_Some _ _ _ Hi) as Hilt.
    assert (i / 8 < length bm)%nat as Hidx.
    { pose proof (Nat.div_mod_eq i 8).
      pose proof (Nat.mod_upper_bound i 8 ltac:(lia)). lia. }
    destruct (lookup_lt_is_Some_2 bm _ Hidx) as [b Hb].
    cbn [deserialize_loop]. rewrite lookup_app_l, Hb by exact Hidx.
    rewrite land_bit_eqb, negb_involutive by lia.
    assert (Z.testbit (Z_of_byte b) (Z.of_nat (i mod 8)) = is_nil_at values i) as ->.
    { rewrite <- (Hbits i Hilt). unfold bit_at. rewrite Hb. reflexivity. }
    rewrite (drop_S _ _ _ Hi). cbn [payload].
    destruct (value_nil_dec v) as [->|Hnn].
    + rewrite (proj2 (is_nil_at_lookup _ _ _ Hi) eq_refl).
      cbn [encode_field app].
      apply IH; try assumption; [lia|rewrite length_insert; exact Hacc|].
      intros j Hj. destruct (decide (j = i)) as [->|Hji].
      * rewrite list_lookup_insert_eq by lia. symmetry. exact Hi.
      * rewrite list_lookup_insert_ne by congruence. apply Hpre. lia.
    + assert (is_nil_at values i = false) as ->.
      { destruct (is_nil_at values i) eqn:E; [|reflexivity].
        apply (is_nil_at_lookup _ _ _ Hi) in E. contradiction. }
      set (rest := payload cols (drop (S i) values)).
      assert ((length (bm ++ pre ++ encode_field col v ++ rest) <? length bm + length pre)%nat
              = false) as ->.
      { apply Nat.ltb_ge. rewrite !length_app. lia. }
      assert (drop (length bm + length pre) (bm ++ pre ++ encode_field col v ++ rest)
              = encode_field col v ++ rest) as ->.
      { rewrite app_assoc, <- length_app. apply drop_app_length. }
      rewrite (deserializeField_encode _ _ _ Hv Hnn).
      replace (length bm + length pre + length (encode_field col v))%nat
        with (length bm + length (pre ++ encode_field col v))%nat
        by (rewrite length_app; lia).
      replace (bm ++ pre ++ encode_field col v ++ rest)
        with (bm ++ (pre ++ encode_field col v) ++ rest)
        by (rewrite <- !app_assoc; reflexivity).
      apply IH; try assumption; [lia|rewrite length_insert; exact Hacc|].
      intros j Hj. destruct (decide (j = i)) as [->|Hji].
      * rewrite list_lookup_insert_eq by lia. symmetry. exact Hi.
      * rewrite list_lookup_insert_ne by congruence. apply Hpre. lia.
Qed.

(** The round-trip law on the inputs the code carries faithfully: a schema
    with at least one column and values that fit their columns. *)
Lemma serialize_deserialize_roundtrip (schema : Schema) (values : list Value) :
  Columns schema <> [] ->
  Forall2 value_fits (Columns schema) values ->
  exists data,
    Serialize schema values = Ok data /\ Deserialize schema data = Ok values.
Proof.
  intros Hne Hfit.
  pose proof (Forall2_length _ _ _ Hfit) as Hlen.
  set (n := length (Columns schema)) in *.
  set (nbm := ((n + 7) / 8)%nat).
  assert (n <= 8 * nbm)%nat as Hn.
  { unfold nbm. pose proof (Nat.div_mod_eq (n + 7) 8).
    pose proof (Nat.mod_upper_bound (n + 7) 8 ltac:(lia)). lia. }
  assert (0 < n)%nat as Hpos.
  { unfold n. destruct (Columns schema); [congruence|cbn; lia]. }
  destruct (serialize_loop_ok (Columns schema) 0 values (replicate nbm x00) [])
    as (bm & Hrun & Hl & Hbits).
  { rewrite drop_0. exact Hfit. }
  { rewrite length_replicate. fold n. lia. }
  rewrite length_replicate in Hl. rewrite drop_0 in Hrun. cbn [app] in Hrun.
  rewrite app_nil_r in Hrun.
  exists (bm ++ payload (Columns schema) values). split.
  - unfold Serialize. fold n. rewrite <- Hlen, Nat.eqb_refl. cbn [negb].
    fold nbm. exact Hrun.
  - unfold Deserialize. fold n. fold nbm.
    assert ((length (bm ++ payload (Columns schema) values) =? 0)%nat = false) as ->.
    { apply Nat.eqb_neq. rewrite length_app. lia. }
    assert ((length (bm ++ payload (Columns schema) values) <? nbm)%nat = false) as ->.
    { apply Nat.ltb_ge. rewrite length_app. lia. }
    pose proof (deserialize_loop_ok (Columns schema) 0 values bm []
                  (replicate n Nil)) as Hd.
    rewrite drop_0 in Hd. cbn [app length] in Hd.
    rewrite Nat.add_0_r, Hl in Hd. apply Hd.
    + exact Hfit.
    + fold n. lia.
    + intros j Hj. rewrite Hbits, bit_at_zeros. cbn. reflexivity.
    + rewrite length_replicate. exact Hlen.
    + intros j Hj. lia.
Qed.

(** C1: the round-trip law fails for negative integers.  [serializeField]
    writes [uint32(intVal)]; [deserializeField] converts the [uint32] it reads
    straight to [int], which on a 64-bit target never yields a negative
    number: -1 comes back as 4294967295. *)
Theorem negative_int_does_not_round_trip :
  let schema := {| Columns := [ {| Name := "id"; ColType := TypeInt;
                                   Length := 0; Nullable := false |} ] |} in
  Serialize schema [Int (-1)] = Ok [x00; xff; xff; xff; xff]
  /\ Deserialize schema [x00; xff; xff; xff; xff] = Ok [Int 4294967295]
  /\ Deserialize schema [x00; xff; xff; xff; xff] <> Ok [Int (-1)].
Proof. vm_compute. repeat split; congruence. Qed.

(** Every negative signed 32-bit integer comes back from its field encoding
    as its unsigned image. *)
Lemma negative_int_comes_back_unsigned col (n : Z) rest :
  ColType col = TypeInt -> - 2 ^ 31 <= n < 0 ->
  serializeField col (Int n) = Ok (put_le 4 (to_uint32 n))
  /\ deserializeField col (put_le 4 (to_uint32 n) ++ rest) = Ok (Int (n + 2 ^ 32), 4%nat).
Proof.
  intros Ht Hn. unfold serializeField, deserializeField. rewrite Ht.
  change (String.eqb TypeInt TypeInt) with true. cbv iota.
  split; [reflexivity|].
  assert (to_uint32 n = n + 2 ^ 32) as Hu.
  { unfold to_uint32, wrap_unsigned.
    change (2 ^ 32) with 4294967296; change (2 ^ 31) with 2147483648 in Hn.
    symmetry. apply (Z.mod_unique _ _ (-1)); lia. }
  unfold len. rewrite length_app, length_put_le.
  destruct (Z.ltb_spec (Z.of_nat (4 + length rest)) 4); [lia|].
  rewrite take_put_le_app, get_le_put_uint32, Hu.
  rewrite to_int_small
    by (change (2 ^ 31) with 2147483648 in Hn; change (2 ^ 32) with 4294967296;
        change (2 ^ 63) with 9223372036854775808; lia).
  reflexivity.
Qed.

(** The law also stops at the length limit of the string encoding and at
    the schema without columns. *)
Lemma roundtrip_limits :
  let s := {| Columns := [ {| Name := "name"; ColType := TypeString;
                              Length := 70000; Nullable := false |} ] |} in
  match Serialize s [Str (replicate (Z.to_nat 65534) x41)] with
  | Ok data => Deserialize s data = Panic
  | _ => False
  end
  /\ Serialize {| Columns := [] |} [] = Ok []
  /\ Deserialize {| Columns := [] |} [] = Err EmptyData.
Proof. vm_compute. repeat split; reflexivity. Qed.

End codec.

(** ** Slices of the page image *)

Section slices.
Import page.

Lemma to_int16_small z : - 2 ^ 15 <= z < 2 ^ 15 -> to_int16 z = z.
Proof.
  intros Hz. unfold to_int16, wrap_signed.
  change (2 ^ (16 - 1)) with (2 ^ 15). change (2 ^ 16) with (2 * 2 ^ 15).
  rewrite Z.mod_small by lia. lia.
Qed.

Lemma to_int16_range z : - 2 ^ 15 <= to_int16 z < 2 ^ 15.
Proof.
  unfold to_int16, wrap_signed.
  change (2 ^ (16 - 1)) with (2 ^ 15). change (2 ^ 16) with (2 * 2 ^ 15).
  pose proof (Z.mod_pos_bound (z + 2 ^ 15) (2 * 2 ^ 15) ltac:(lia)). lia.
Qed.

Lemma to_int32_range z : - 2 ^ 31 <= to_int32 z < 2 ^ 31.
Proof.
  unfold to_int32, wrap_signed.
  change (2 ^ (32 - 1)) with (2 ^ 31). change (2 ^ 32) with (2 * 2 ^ 31).
  pose proof (Z.mod_pos_bound (z + 2 ^ 31) (2 * 2 ^ 31) ltac:(lia)). lia.
Qed.

(** Storing the unsigned image of a signed word and reading it back. *)
Lemma to_int16_uint16 z : - 2 ^ 15 <= z < 2 ^ 15 -> to_int16 (to_uint16 z) = z.
Proof.
  intros Hz. unfold to_int16, to_uint16, wrap_signed, wrap_unsigned.
  change (2 ^ (16 - 1)) with 32768 in *. change (2 ^ 16) with 65536 in *.
  change (2 ^ 15) with 32768 in *.
  destruct (Z.lt_ge_cases z 0).
  - replace (z mod 65536) with (z + 65536)
      by (apply (Z.mod_unique _ _ (-1)); lia).
    replace ((z + 65536 + 32768) mod 65536) with (z + 32768)
      by (apply (Z.mod_unique _ _ 1); lia).
    lia.
  - rewrite (Z.mod_small z) by lia. rewrite Z.mod_small by lia. lia.
Qed.

Lemma to_int32_uint32 z : - 2 ^ 31 <= z < 2 ^ 31 -> to_int32 (to_uint32 z) = z.
Proof.
  intros Hz. unfold to_int32, to_uint32, wrap_signed, wrap_unsigned.
  change (2 ^ (32 - 1)) with 2147483648 in *. change (2 ^ 32) with 4294967296 in *.
  change (2 ^ 31) with 2147483648 in *.
  destruct (Z.lt_ge_cases z 0).
  - replace (z mod 4294967296) with (z + 4294967296)
      by (apply (Z.mod_unique _ _ (-1)); lia).
    replace ((z + 4294967296 + 2147483648) mod 4294967296) with (z + 2147483648)
      by (apply (Z.mod_unique _ _ 1); lia).
    lia.
  - rewrite (Z.mod_small z) by lia. rewrite Z.mod_small by lia. lia.
Qed.

Lemma len_store d lo bs :
  0 <= lo -> lo + len bs <= len d -> len (store d lo bs) = len d.
Proof.
  unfold len, store. intros Hlo Hhi.
  rewrite !length_app, length_take, length_drop. lia.
Qed.

Lemma lookup_store d lo bs k :
  0 <= lo -> lo + len bs <= len d ->
  store d lo bs !! k =
    if decide (Z.to_nat lo <= k < Z.to_nat lo + length bs)%nat
    then bs !! (k - Z.to_nat lo)%nat else d !! k.
Proof.
  unfold len, store. intros Hlo Hhi.
  assert (length (take (Z.to_nat lo) d) = Z.to_nat lo) as Hl
    by (rewrite length_take; lia).
  destruct (decide (k < Z.to_nat lo)%nat) as [Hk|Hk].
  - rewrite lookup_app_l by lia. rewrite lookup_take_lt by lia.
    destruct (decide _) as [?|?]; [lia|reflexivity].
  - rewrite lookup_app_r by lia. rewrite Hl.
    destruct (decide (k - Z.to_nat lo < length bs)%nat) as [Hk2|Hk2].
    + rewrite lookup_app_l by lia.
      destruct (decide _) as [?|?]; [reflexivity|lia].
    + rewrite lookup_app_r by lia. rewrite lookup_drop.
      destruct (decide _) as [?|?]; [lia|]. f_equal. lia.
Qed.

Lemma lookup_slice d lo hi k :
  slice d lo hi !! k =
    if decide (k < Z.to_nat (hi - lo))%nat then d !! (Z.to_nat lo + k)%nat else None.
Proof.
  unfold slice. destruct (decide _) as [Hk|Hk].
  - rewrite lookup_take_lt by lia. apply lookup_drop.
  - apply lookup_take_ge. lia.
Qed.

Lemma len_slice d lo hi :
  0 <= lo <= hi -> hi <= len d -> len (slice d lo hi) = hi - lo.
Proof.
  unfold len, slice. intros Hlo Hhi. rewrite length_take, length_drop. lia.
Qed.

Lemma slice_store_same d lo bs hi :
  0 <= lo -> lo + len bs <= len d -> hi = lo + len bs ->
  slice (store d lo bs) lo hi = bs.
Proof.
  intros Hlo Hhi ->. apply list_eq. intros k.
  rewrite lookup_slice, lookup_store by assumption. unfold len in *.
  destruct (decide (k < Z.to_nat (lo + Z.of_nat (length bs) - lo))%nat) as [Hk|Hk].
  - destruct (decide _) as [?|?]; [|lia]. f_equal. lia.
  - symmetry. apply lookup_ge_None. lia.
Qed.

Lemma slice_store_other d lo bs lo' hi' :
  0 <= lo -> lo + len bs <= len d -> 0 <= lo' ->
  hi' <= lo \/ lo + len bs <= lo' ->
  slice (store d lo bs) lo' hi' = slice d lo' hi'.
Proof.
  intros Hlo Hhi Hlo' Hdis. apply list_eq. intros k.
  rewrite !lookup_slice, lookup_store by assumption. unfold len in *.
  destruct (decide (k < Z.to_nat (hi' - lo'))%nat) as [Hk|Hk]; [|reflexivity].
  destruct (decide _) as [?|?]; [lia|reflexivity].
Qed.

End slices.

(** ** The slotted page *)

Ltac page_lia :=
  unfold page.image_ok, page.PageSize, page.PageHeaderSize, page.SlotEntrySize in *;
  lia.

Ltac len_simp :=
  repeat first
    [ rewrite len_put_le
    | rewrite len_store by (len_simp; page_lia) ].

Ltac slice_side := len_simp; page_lia.

Ltac slice_simp :=
  repeat first
    [ rewrite slice_store_same by slice_side
    | rewrite slice_store_other by slice_side ].

Section page_writes.
Import page.

Lemma slot_offset_small i :
  - 2 ^ 60 <= i < 2 ^ 60 -> slot_offset i = PageHeaderSize + i * SlotEntrySize.
Proof.
  intros Hi. unfold slot_offset, PageHeaderSize, SlotEntrySize.
  apply to_int_small. lia.
Qed.

(** [writeHeader] *)

Lemma writeHeader_image p h : image_ok p -> image_ok (writeHeader p h).
Proof.
  unfold image_ok, writeHeader. cbn [Data]. intros Hp. len_simp. exact Hp.
Qed.

Lemma readHeader_writeHeader p h :
  image_ok p -> readHeader (writeHeader p h) = stored_header h.
Proof.
  intros Hp. unfold readHeader, writeHeader, stored_header. cbn [Data].
  f_equal; slice_simp; rewrite ?get_le_put_uint16, ?get_le_put_uint32; reflexivity.
Qed.

Lemma slice_writeHeader p h lo hi :
  image_ok p -> PageHeaderSize <= lo ->
  slice (Data (writeHeader p h)) lo hi = slice (Data p) lo hi.
Proof.
  intros Hp Hlo. unfold writeHeader. cbn [Data]. slice_simp. reflexivity.
Qed.

Lemma readHeader_in_range p : header_in_range (readHeader p).
Proof.
  unfold header_in_range, readHeader. cbn.
  repeat split; first [apply to_int32_range | apply to_int16_range].
Qed.

Lemma stored_header_id h : header_in_range h -> stored_header h = h.
Proof.
  intros (H1 & H2 & H3 & H4 & H5 & H6). destruct h. unfold stored_header.
  cbn in *. f_equal; first [apply to_int32_uint32 | apply to_int16_uint16]; assumption.
Qed.

(** Slot entries *)

Lemma in_bounds_true lo hi : in_bounds lo hi = true <-> 0 <= lo <= hi /\ hi <= PageSize.
Proof.
  unfold in_bounds. rewrite !andb_true_iff, !Z.leb_le. lia.
Qed.

Lemma slot_bounds_true off :
  0 <= off -> off + 4 <= PageSize ->
  in_bounds off (to_int (off + 2))
  && in_bounds (to_int (off + 2)) (to_int (off + 4)) = true.
Proof.
  intros H0 H4. unfold PageSize in *.
  rewrite !to_int_small by lia.
  apply andb_true_iff. split; apply in_bounds_true; unfold PageSize; lia.
Qed.

Lemma slot_bounds_inv off :
  in_bounds off (to_int (off + 2))
  && in_bounds (to_int (off + 2)) (to_int (off + 4)) = true ->
  0 <= off /\ off + 4 <= PageSize.
Proof.
  intros H. apply andb_true_iff in H as [H1 H2].
  apply in_bounds_true in H1, H2. unfold PageSize in *.
  assert (to_int (off + 2) = off + 2) as E2 by (apply to_int_small; lia).
  rewrite E2 in *.
  assert (to_int (off + 4) = off + 4) as E4 by (apply to_int_small; lia).
  rewrite E4 in *. lia.
Qed.

Lemma readSlot_at p i :
  0 <= slot_offset i -> slot_offset i + 4 <= PageSize ->
  readSlot p i = Some (slot_at (Data p) (slot_offset i)).
Proof.
  intros H0 H4. unfold readSlot. rewrite slot_bounds_true by assumption. reflexivity.
Qed.

Lemma readSlot_Some p i s :
  readSlot p i = Some s ->
  0 <= slot_offset i /\ slot_offset i + 4 <= PageSize
  /\ s = slot_at (Data p) (slot_offset i).
Proof.
  unfold readSlot. destruct (_ && _) eqn:E; [|discriminate].
  intros [= <-]. apply slot_bounds_inv in E. tauto.
Qed.

Lemma slot_at_store d lo bs off :
  0 <= lo -> lo + len bs <= len d -> 0 <= off ->
  off + 4 <= lo \/ lo + len bs <= off ->
  slot_at (store d lo bs) off = slot_at d off.
Proof.
  intros. unfold slot_at. rewrite !slice_store_other by lia. reflexivity.
Qed.

Lemma writeSlot_at p i s :
  0 <= slot_offset i -> slot_offset i + 4 <= PageSize ->
  writeSlot p i s =
    (true,
     {| PageID := PageID p;
        Data := store (store (Data p) (slot_offset i) (put_le 2 (to_uint16 (Offset s))))
                  (slot_offset i + 2) (put_le 2 (to_uint16 (Size s)));
        dirty := true |}).
Proof.
  intros H0 H4. unfold writeSlot.
  pose proof (slot_bounds_true _ H0 H4) as Hb.
  apply andb_true_iff in Hb as [-> ->]. reflexivity.
Qed.

Lemma slot_at_written d off s :
  len d = PageSize -> 0 <= off -> off + 4 <= PageSize ->
  slot_at (store (store d off (put_le 2 (to_uint16 (Offset s))))
             (off + 2) (put_le 2 (to_uint16 (Size s)))) off
  = {| Offset := to_int16 (to_uint16 (Offset s));
       Size := to_int16 (to_uint16 (Size s)) |}.
Proof.
  intros Hd H0 H4. unfold slot_at.
  replace (off + 4) with (off + 2 + 2) by lia.
  slice_simp. rewrite !get_le_put_uint16. reflexivity.
Qed.

Lemma copy_to_full d lo hi src :
  hi - lo = len src -> copy_to d lo hi src = store d lo src.
Proof.
  intros H. unfold copy_to. rewrite take_ge; [reflexivity|]. unfold len in H. lia.
Qed.

End page_writes.

Section page_ops.
Import page.
Local Arguments readHeader : simpl never.
Local Arguments readSlot : simpl never.

(** Under the header invariant every directory slot can be read. *)
Lemma slot_in_directory p i :
  header_ok (readHeader p) -> 0 <= i < SlotCount (readHeader p) ->
  slot_offset i = PageHeaderSize + i * SlotEntrySize
  /\ slot_offset i + SlotEntrySize <= FreeStart (readHeader p)
  /\ readSlot p i = Some (slot_at (Data p) (slot_offset i)).
Proof.
  intros (Hsc & Hfs & Hle & Hfe) Hi.
  assert (slot_offset i = PageHeaderSize + i * SlotEntrySize) as Hoff.
  { apply slot_offset_small. page_lia. }
  split; [exact Hoff|]. split; [page_lia|].
  apply readSlot_at; page_lia.
Qed.

Lemma find_empty_slot_spec p : forall n i,
  0 <= i ->
  (forall j, i <= j < i + Z.of_nat n -> is_Some (readSlot p j)) ->
  exists found,
    find_empty_slot p i n = Some found
    /\ ((found = -1 /\ forall j, i <= j < i + Z.of_nat n -> slot_used p j)
        \/ (i <= found < i + Z.of_nat n /\ slot_empty p found
            /\ forall j, i <= j < found -> slot_used p j)).
Proof.
  induction n as [|n IH]; intros i Hi Hread.
  - exists (-1). cbn [find_empty_slot]. split; [reflexivity|]. left.
    split; [reflexivity|]. intros j Hj. lia.
  - cbn [find_empty_slot].
    destruct (Hread i ltac:(lia)) as [s Hs]. rewrite Hs.
    destruct (Z.eqb_spec (Size s) 0) as [Hz|Hnz].
    + exists i. split; [reflexivity|]. right.
      split; [lia|]. split; [exists s; auto|]. intros j Hj. lia.
    + destruct (IH (i + 1) ltac:(lia)) as (found & Hf & Hcase).
      { intros j Hj. apply Hread. lia. }
      exists found. split; [exact Hf|].
      assert (forall j, i <= j < i + 1 -> slot_used p j) as Hfirst.
      { intros j Hj. assert (j = i) as -> by lia. exists s. auto. }
      destruct Hcase as [[-> Hall]|(Hrange & Hempty & Hbefore)].
      * left. split; [reflexivity|]. intros j Hj.
        destruct (Z.lt_ge_cases j (i + 1)); [apply Hfirst|apply Hall]; lia.
      * right. split; [lia|]. split; [exact Hempty|]. intros j Hj.
        destruct (Z.lt_ge_cases j (i + 1)); [apply Hfirst|apply Hbefore]; lia.
Qed.

Lemma InsertRecord_full p record :
  FreeEnd (readHeader p) - FreeStart (readHeader p) - SlotEntrySize < len record ->
  InsertRecord p record = (Err PageFull, p).
Proof.
  intros H. unfold InsertRecord.
  destruct (Z.ltb_spec (FreeEnd (readHeader p) - FreeStart (readHeader p) - SlotEntrySize)
              (len record)); [reflexivity|lia].
Qed.

Lemma InsertRecord_fits p record :
  page_inv p ->
  len record <= FreeEnd (readHeader p) - FreeStart (readHeader p) - SlotEntrySize ->
  exists slotID appended p',
    InsertRecord p record = (Ok slotID, p')
    /\ insert_post p record slotID appended p'.
Proof.
  intros (Himg & Hhdr & Hreg & Hdis) Hfit.
  pose proof (readHeader_in_range p) as Hrange.
  set (h := readHeader p) in *.
  pose proof Hhdr as (Hsc & Hfs & Hle & Hfe).
  destruct Hrange as (R1 & R2 & R3 & R4 & R5 & R6).
  assert (0 <= len record) as Hlen0 by (unfold len; lia).
  destruct (find_empty_slot_spec p (Z.to_nat (SlotCount h)) 0 ltac:(lia))
    as (found & Hfound & Hcase).
  { intros j Hj. destruct (slot_in_directory p j Hhdr ltac:(fold h; lia)) as (_ & _ & ->).
    eauto. }
  rewrite Z2Nat.id in Hcase by lia.
  set (appended := found =? -1).
  set (slotID := if appended then SlotCount h else found).
  assert (chosen_slot p slotID appended /\ 0 <= slotID <= SlotCount h
          /\ (appended = false -> slotID < SlotCount h)) as (Hchosen & Hsid & Hsid').
  { unfold chosen_slot, slotID, appended. fold h.
    destruct Hcase as [[-> Hall]|(Hr & He & Hb)].
    - change (-1 =? -1) with true. cbv iota.
      split; [split; [reflexivity|exact Hall]|]. split; [lia|discriminate].
    - destruct (Z.eqb_spec found (-1)); [lia|]. split; [auto|]. split; [lia|]. intros _. lia. }
  assert (slot_offset slotID = PageHeaderSize + slotID * SlotEntrySize) as Hoff.
  { apply slot_offset_small. page_lia. }
  set (recordOffset := FreeEnd h - len record).
  assert (slot_offset slotID + 4 <= recordOffset) as Hbelow.
  { unfold recordOffset. rewrite Hoff. page_lia. }
  set (newCount := if appended then to_int16 (SlotCount h + 1) else SlotCount h).
  set (newStart := if appended then to_int16 (FreeStart h + SlotEntrySize) else FreeStart h).
  assert (newCount = if appended then SlotCount h + 1 else SlotCount h) as HnewCount.
  { unfold newCount. destruct appended; [|reflexivity].
    apply to_int16_small. change (2 ^ 15) with 32768. page_lia. }
  assert (newStart = if appended then FreeStart h + SlotEntrySize else FreeStart h)
    as HnewStart.
  { unfold newStart. destruct appended; [|reflexivity].
    apply to_int16_small. change (2 ^ 15) with 32768. page_lia. }
  set (d1 := store (Data p) recordOffset record).
  set (d2 := store (store d1 (slot_offset slotID) (put_le 2 (to_uint16 (to_int16 recordOffset))))
               (slot_offset slotID + 2) (put_le 2 (to_uint16 (to_int16 (len record))))).
  set (p2 := {| PageID := PageID p; Data := d2; dirty := true |}).
  set (hdr := {| HdrPageID := HdrPageID h; SlotCount := newCount; FreeStart := newStart;
                 FreeEnd := to_int16 recordOffset;
                 NextPageID := NextPageID h; PrevPageID := PrevPageID h |}).
  assert (len d1 = PageSize) as Hd1.
  { unfold d1. rewrite len_store; [exact Himg|page_lia|unfold recordOffset; page_lia]. }
  assert (len d2 = PageSize) as Hd2.
  { unfold d2. len_simp. exact Hd1. }
  assert (to_int16 recordOffset = recordOffset) as Hro16.
  { apply to_int16_small. change (2 ^ 15) with 32768. unfold recordOffset. page_lia. }
  assert (to_int16 (len record) = len record) as Hlen16.
  { apply to_int16_small. change (2 ^ 15) with 32768. page_lia. }
  assert (InsertRecord p record = (Ok slotID, writeHeader p2 hdr)) as Hrun.
  { unfold InsertRecord. fold h.
    destruct (Z.ltb_spec (FreeEnd h - FreeStart h - SlotEntrySize) (len record)); [lia|].
    rewrite Hfound. fold appended. fold slotID.
    assert (FreeEnd (if appended
                     then {| HdrPageID := HdrPageID h;
                             SlotCount := to_int16 (SlotCount h + 1);
                             FreeStart := to_int16 (FreeStart h + SlotEntrySize);
                             FreeEnd := FreeEnd h;
                             NextPageID := NextPageID h;
                             PrevPageID := PrevPageID h |}
                     else h) = FreeEnd h) as HFE by (destruct appended; reflexivity).
    rewrite HFE. fold recordOffset.
    assert (in_bounds recordOffset (recordOffset + len record) = true) as ->.
    { apply in_bounds_true. unfold recordOffset. page_lia. }
    cbn [negb].
    rewrite copy_to_full by lia. fold d1.
    rewrite writeSlot_at by (cbn [Data set_data]; page_lia).
    cbn [Data set_data PageID Offset Size]. fold d2. fold p2.
    f_equal. f_equal. unfold hdr, newCount, newStart.
    destruct appended; reflexivity. }
  exists slotID, appended, (writeHeader p2 hdr).
  assert (image_ok p2) as Himg2 by exact Hd2.
  split; [exact Hrun|]. unfold insert_post. fold h. split; [exact Hchosen|].
  split; [apply writeHeader_image, Himg2|].
  split; [reflexivity|]. split; [reflexivity|].
  split.
  { rewrite readHeader_writeHeader by exact Himg2.
    rewrite stored_header_id.
    - unfold hdr. rewrite HnewCount, HnewStart, Hro16. reflexivity.
    - unfold header_in_range, hdr.
      cbn [HdrPageID SlotCount FreeStart FreeEnd NextPageID PrevPageID].
      rewrite HnewCount, HnewStart, Hro16. change (2 ^ 15) with 32768 in *.
      unfold recordOffset.
      repeat split; try assumption; destruct appended; page_lia. }
  split.
  { rewrite readSlot_at by page_lia. f_equal.
    unfold slot_at. rewrite !slice_writeHeader by (assumption || page_lia).
    cbn [Data p2]. unfold d2.
    pose proof (slot_at_written d1 (slot_offset slotID)
                  {| Offset := to_int16 recordOffset; Size := to_int16 (len record) |}
                  Hd1 ltac:(page_lia) ltac:(page_lia)) as Hw.
    cbn [Offset Size] in Hw. unfold slot_at in Hw. rewrite Hw.
    rewrite !to_int16_uint16 by (rewrite ?Hro16, ?Hlen16; change (2 ^ 15) with 32768;
                                  unfold recordOffset; page_lia).
    rewrite Hro16, Hlen16. reflexivity. }
  split.
  { intros j Hj Hne.
    destruct (slot_in_directory p j Hhdr Hj) as (Hoj & Hjend & Hrj).
    rewrite Hrj. rewrite readSlot_at by page_lia. f_equal.
    unfold slot_at. rewrite !slice_writeHeader by (assumption || page_lia).
    cbn [Data p2]. unfold d2, d1. fold h in Hjend.
    rewrite !slice_store_other; try reflexivity; len_simp;
      rewrite ?len_store by (unfold recordOffset; page_lia);
      unfold recordOffset; page_lia. }
  split.
  { intros lo hi Hlo.
    rewrite slice_writeHeader by (assumption || page_lia).
    cbn [Data p2]. unfold d2, d1.
    rewrite !slice_store_other; try reflexivity; len_simp;
      rewrite ?len_store by (unfold recordOffset; page_lia);
      unfold recordOffset; page_lia. }
  { rewrite slice_writeHeader by (assumption || unfold recordOffset; page_lia).
    cbn [Data p2]. unfold d2.
    rewrite !slice_store_other; len_simp; rewrite ?Hd1; try page_lia.
    unfold d1. apply slice_store_same; unfold recordOffset; page_lia. }
Qed.

(** [InsertRecord] on a page that meets the invariants either reports a
    full page and changes nothing, or succeeds. *)
Lemma InsertRecord_cases p record :
  page_inv p ->
  (FreeEnd (readHeader p) - FreeStart (readHeader p) - SlotEntrySize < len record
   /\ InsertRecord p record = (Err PageFull, p))
  \/ (len record <= FreeEnd (readHeader p) - FreeStart (readHeader p) - SlotEntrySize
      /\ exists slotID appended p',
           InsertRecord p record = (Ok slotID, p')
           /\ insert_post p record slotID appended p').
Proof.
  intros Hinv.
  destruct (Z.lt_ge_cases
              (FreeEnd (readHeader p) - FreeStart (readHeader p) - SlotEntrySize)
              (len record)) as [Hfull|Hfit].
  - left. split; [exact Hfull|]. apply InsertRecord_full, Hfull.
  - right. split; [lia|]. apply InsertRecord_fits; [exact Hinv|lia].
Qed.

Lemma InsertRecord_Ok_inv p record slotID p' :
  page_inv p -> InsertRecord p record = (Ok slotID, p') ->
  len record <= FreeEnd (readHeader p) - FreeStart (readHeader p) - SlotEntrySize
  /\ exists appended, insert_post p record slotID appended p'.
Proof.
  intros Hinv Hrun.
  destruct (InsertRecord_cases p record Hinv)
    as [[_ Hfull]|(Hfit & sid & app & q & Hq & Hpost)].
  - rewrite Hfull in Hrun. discriminate.
  - rewrite Hq in Hrun. injection Hrun as <- <-. split; [exact Hfit|]. eauto.
Qed.

Lemma insert_post_inv p record slotID appended p' :
  page_inv p ->
  len record <= FreeEnd (readHeader p) - FreeStart (readHeader p) - SlotEntrySize ->
  insert_post p record slotID appended p' ->
  page_inv p'.
Proof.
  intros (Himg & Hhdr & Hreg & Hdis) Hfit
    (Hch & Himg' & _ & _ & Hh' & Hnew & Hold & _ & _).
  pose proof Hhdr as (Hsc & Hfs & Hle & Hfe).
  assert (0 <= len record) as Hlen0 by (unfold len; lia).
  assert (0 <= slotID /\ (forall i, 0 <= i < SlotCount (readHeader p') -> i <> slotID ->
                           0 <= i < SlotCount (readHeader p))) as [Hsid Hidx].
  { rewrite Hh'. cbn [SlotCount]. unfold chosen_slot in Hch.
    destruct appended.
    - destruct Hch as [-> _]. split; [lia|]. intros i Hi Hne. lia.
    - destruct Hch as (Hr & _). split; [lia|]. intros i Hi Hne. lia. }
  assert (forall i s, 0 <= i < SlotCount (readHeader p') -> i <> slotID ->
            readSlot p' i = Some s -> Size s <> 0 ->
            FreeEnd (readHeader p) <= Offset s /\ 0 < Size s
            /\ Offset s + Size s <= PageSize) as Holdreg.
  { intros i s Hi Hne Hs Hnz. rewrite Hold in Hs by auto.
    apply (Hreg i s (Hidx i Hi Hne) Hs Hnz). }
  split; [exact Himg'|]. split; [|split].
  - rewrite Hh'. unfold header_ok. cbn [SlotCount FreeStart FreeEnd].
    destruct appended; page_lia.
  - intros i s Hi Hs Hnz.
    destruct (Z.eq_dec i slotID) as [->|Hne].
    + rewrite Hnew in Hs. apply (inj Some) in Hs. subst s. cbn [Offset Size] in *.
      rewrite Hh'. cbn [FreeEnd]. page_lia.
    + destruct (Holdreg i s Hi Hne Hs Hnz) as (H1 & H2 & H3).
      rewrite Hh'. cbn [FreeEnd]. page_lia.
  - intros i j s t Hi Hj Hij Hs Ht Hns Hnt.
    destruct (Z.eq_dec i slotID) as [->|Hni]; destruct (Z.eq_dec j slotID) as [->|Hnj].
    + congruence.
    + rewrite Hnew in Hs. apply (inj Some) in Hs. subst s. cbn [Offset Size] in *.
      destruct (Holdreg j t Hj Hnj Ht Hnt) as (H1 & H2 & H3). lia.
    + rewrite Hnew in Ht. apply (inj Some) in Ht. subst t. cbn [Offset Size] in *.
      destruct (Holdreg i s Hi Hni Hs Hns) as (H1 & H2 & H3). lia.
    + rewrite Hold in Hs, Ht by auto.
      apply (Hdis i j s t (Hidx i Hi Hni) (Hidx j Hj Hnj) Hij Hs Ht Hns Hnt).
Qed.

Lemma InsertRecord_inv p record : page_inv p -> page_inv (snd (InsertRecord p record)).
Proof.
  intros Hinv.
  destruct (InsertRecord_cases p record Hinv)
    as [[_ ->]|(Hfit & sid & app & q & -> & Hpost)]; cbn [snd].
  - exact Hinv.
  - eapply insert_post_inv; eassumption.
Qed.

(** A record that was inserted is read back from its slot. *)
Lemma GetRecord_inserted p record slotID p' :
  page_inv p -> record <> [] ->
  InsertRecord p record = (Ok slotID, p') ->
  GetRecord p' slotID = Ok record.
Proof.
  intros Hinv Hne Hrun.
  destruct (InsertRecord_Ok_inv _ _ _ _ Hinv Hrun) as (Hfit & appended & Hpost).
  destruct Hinv as (Himg & Hhdr & _). pose proof Hhdr as (Hsc & Hfs & Hle & Hfe).
  destruct Hpost as (Hch & Himg' & _ & _ & Hh' & Hnew & _ & _ & Hrec).
  assert (0 < len record) as Hpos.
  { unfold len. destruct record; [congruence|cbn [length]; lia]. }
  unfold GetRecord. rewrite Hh', Hnew. cbn [SlotCount Offset Size].
  assert (((if appended then SlotCount (readHeader p) + 1 else SlotCount (readHeader p))
           <=? slotID) = false) as ->.
  { apply Z.leb_gt. unfold chosen_slot in Hch. destruct appended.
    - destruct Hch as [-> _]. lia.
    - destruct Hch as [Hr _]. lia. }
  destruct (Z.eqb_spec (len record) 0); [lia|].
  assert ((FreeEnd (readHeader p) - len record <? 0) || (len record <? 0) = false) as ->.
  { apply orb_false_iff. split; apply Z.ltb_ge; page_lia. }
  replace (FreeEnd (readHeader p) - len record + len record)
    with (FreeEnd (readHeader p)) by lia.
  destruct (Z.ltb_spec PageSize (FreeEnd (readHeader p))); [lia|].
  rewrite to_int16_small by (change (2 ^ 15) with 32768; page_lia).
  assert (in_bounds (FreeEnd (readHeader p) - len record) (FreeEnd (readHeader p)) = true)
    as ->.
  { apply in_bounds_true. page_lia. }
  cbn [negb]. f_equal. exact Hrec.
Qed.

(** Writes above the slot directory leave the header and the slots alone. *)
Lemma readHeader_store p q lo bs :
  image_ok p -> Data q = store (Data p) lo bs ->
  PageHeaderSize <= lo -> lo + len bs <= PageSize ->
  readHeader q = readHeader p.
Proof.
  intros Himg Hq Hlo Hhi. unfold readHeader. rewrite Hq.
  rewrite !slice_store_other by page_lia. reflexivity.
Qed.

Lemma readSlot_store p q lo bs j :
  image_ok p -> Data q = store (Data p) lo bs ->
  0 <= lo -> lo + len bs <= PageSize ->
  slot_offset j + SlotEntrySize <= lo \/ lo + len bs <= slot_offset j ->
  readSlot q j = readSlot p j.
Proof.
  intros Himg Hq Hlo Hhi Hdis. unfold readSlot.
  destruct (_ && _) eqn:E; [|reflexivity].
  apply slot_bounds_inv in E as [E0 E4].
  f_equal. fold (slot_at (Data q) (slot_offset j)).
  fold (slot_at (Data p) (slot_offset j)). rewrite Hq.
  apply slot_at_store; page_lia.
Qed.

Lemma UpdateRecord_ok p slotID newRecord s :
  page_inv p -> 0 <= slotID < SlotCount (readHeader p) ->
  readSlot p slotID = Some s -> Size s <> 0 -> len newRecord = Size s ->
  UpdateRecord p slotID newRecord =
    (Ok tt, {| PageID := PageID p;
               Data := store (Data p) (Offset s) newRecord;
               dirty := true |}).
Proof.
  intros (Himg & Hhdr & Hreg & _) Hi Hs Hnz Hlen.
  destruct (Hreg slotID s Hi Hs Hnz) as (H1 & H2 & H3).
  destruct Hhdr as (Hsc & Hfs & Hle & Hfe).
  unfold UpdateRecord. rewrite Hs.
  destruct (Z.leb_spec (SlotCount (readHeader p)) slotID); [lia|].
  destruct (Z.eqb_spec (Size s) 0); [lia|].
  destruct (Z.eqb_spec (len newRecord) (Size s)); [|lia]. cbn [negb].
  rewrite to_int16_small by (change (2 ^ 15) with 32768; page_lia).
  assert (in_bounds (Offset s) (Offset s + Size s) = true) as ->.
  { apply in_bounds_true. page_lia. }
  cbn [negb]. rewrite copy_to_full by lia. reflexivity.
Qed.

Lemma UpdateRecord_inv p slotID newRecord :
  page_inv p -> 0 <= slotID -> page_inv (snd (UpdateRecord p slotID newRecord)).
Proof.
  intros Hinv Hsid.
  destruct (Z.le_gt_cases (SlotCount (readHeader p)) slotID) as [Hge|Hlt].
  { unfold UpdateRecord.
    destruct (Z.leb_spec (SlotCount (readHeader p)) slotID); [exact Hinv|lia]. }
  pose proof Hinv as (Himg & Hhdr & Hreg & Hdis).
  destruct (slot_in_directory p slotID Hhdr ltac:(lia)) as (Hoff & Hend & Hs).
  set (s := slot_at (Data p) (slot_offset slotID)) in *.
  destruct (Z.eq_dec (Size s) 0) as [Hz|Hnz].
  { unfold UpdateRecord. rewrite Hs.
    destruct (Z.leb_spec (SlotCount (readHeader p)) slotID); [exact Hinv|].
    destruct (Z.eqb_spec (Size s) 0); [exact Hinv|lia]. }
  destruct (Z.eq_dec (len newRecord) (Size s)) as [Hlen|Hlen].
  2:{ unfold UpdateRecord. rewrite Hs.
      destruct (Z.leb_spec (SlotCount (readHeader p)) slotID); [exact Hinv|].
      destruct (Z.eqb_spec (Size s) 0); [exact Hinv|].
      destruct (Z.eqb_spec (len newRecord) (Size s)); [lia|exact Hinv]. }
  rewrite (UpdateRecord_ok p slotID newRecord s Hinv ltac:(lia) Hs Hnz Hlen). cbn [snd].
  destruct (Hreg slotID s ltac:(lia) Hs Hnz) as (H1 & H2 & H3).
  pose proof Hhdr as (Hsc & Hfs & Hle & Hfe).
  set (q := {| PageID := PageID p; Data := store (Data p) (Offset s) newRecord;
               dirty := true |}).
  assert (readHeader q = readHeader p) as Hh
    by (apply (readHeader_store p q (Offset s) newRecord); [assumption|reflexivity|page_lia..]).
  assert (forall j, 0 <= j < SlotCount (readHeader p) -> readSlot q j = readSlot p j) as Hsl.
  { intros j Hj. destruct (slot_in_directory p j Hhdr Hj) as (Hoj & Hjend & _).
    apply (readSlot_store p q (Offset s) newRecord); [assumption|reflexivity|page_lia..]. }
  split; [|split; [|split]].
  - unfold image_ok, q. cbn [Data]. rewrite len_store by page_lia. exact Himg.
  - rewrite Hh. exact Hhdr.
  - rewrite Hh. intros i t Hi Ht. rewrite Hsl in Ht by exact Hi. eauto.
  - rewrite Hh. intros i j t u Hi Hj Hij Ht Hu.
    rewrite Hsl in Ht, Hu by assumption. eauto.
Qed.

Lemma DeleteRecord_ok p slotID :
  page_inv p -> 0 <= slotID < SlotCount (readHeader p) -> slot_used p slotID ->
  exists p',
    DeleteRecord p slotID = (Ok tt, p')
    /\ image_ok p'
    /\ readHeader p' = readHeader p
    /\ readSlot p' slotID = Some {| Offset := 0; Size := 0 |}
    /\ (forall j, 0 <= j < SlotCount (readHeader p) -> j <> slotID ->
          readSlot p' j = readSlot p j)
    /\ (forall lo hi, FreeStart (readHeader p) <= lo ->
          slice (Data p') lo hi = slice (Data p) lo hi).
Proof.
  intros (Himg & Hhdr & _) Hi (s & Hs & Hnz).
  destruct (slot_in_directory p slotID Hhdr Hi) as (Hoff & Hend & _).
  pose proof Hhdr as (Hsc & Hfs & Hle & Hfe).
  set (off := slot_offset slotID) in *.
  set (d1 := store (Data p) off (put_le 2 (to_uint16 0))).
  set (d2 := store d1 (off + 2) (put_le 2 (to_uint16 0))).
  exists {| PageID := PageID p; Data := d2; dirty := true |}.
  assert (len d1 = PageSize) as Hd1 by (unfold d1; len_simp; exact Himg).
  assert (len d2 = PageSize) as Hd2 by (unfold d2; len_simp; exact Hd1).
  split; [|split; [|split; [|split; [|split]]]].
  - unfold DeleteRecord. rewrite Hs.
    destruct (Z.leb_spec (SlotCount (readHeader p)) slotID); [lia|].
    destruct (Z.eqb_spec (Size s) 0); [lia|].
    rewrite writeSlot_at by (fold off; page_lia). reflexivity.
  - exact Hd2.
  - unfold readHeader. cbn [Data]. unfold d2, d1. slice_simp. reflexivity.
  - rewrite readSlot_at by (fold off; page_lia). fold off. cbn [Data]. f_equal.
    unfold d2, d1.
    pose proof (slot_at_written (Data p) off {| Offset := 0; Size := 0 |}
                  Himg ltac:(page_lia) ltac:(page_lia)) as Hw.
    cbn [Offset Size] in Hw. rewrite Hw. reflexivity.
  - intros j Hj Hne.
    destruct (slot_in_directory p j Hhdr Hj) as (Hoj & Hjend & Hrj).
    rewrite Hrj. rewrite readSlot_at by page_lia. f_equal. cbn [Data].
    unfold slot_at, d2, d1. slice_simp. reflexivity.
  - intros lo hi Hlo. cbn [Data]. unfold d2, d1. slice_simp. reflexivity.
Qed.

Lemma DeleteRecord_inv p slotID :
  page_inv p -> 0 <= slotID -> page_inv (snd (DeleteRecord p slotID)).
Proof.
  intros Hinv Hsid.
  destruct (Z.le_gt_cases (SlotCount (readHeader p)) slotID) as [Hge|Hlt].
  { unfold DeleteRecord.
    destruct (Z.leb_spec (SlotCount (readHeader p)) slotID); [exact Hinv|lia]. }
  pose proof Hinv as (Himg & Hhdr & Hreg & Hdis).
  destruct (slot_in_directory p slotID Hhdr ltac:(lia)) as (Hoff & Hend & Hs).
  set (s := slot_at (Data p) (slot_offset slotID)) in *.
  destruct (Z.eq_dec (Size s) 0) as [Hz|Hnz].
  { unfold DeleteRecord. rewrite Hs.
    destruct (Z.leb_spec (SlotCount (readHeader p)) slotID); [exact Hinv|].
    destruct (Z.eqb_spec (Size s) 0); [exact Hinv|lia]. }
  destruct (DeleteRecord_ok p slotID Hinv ltac:(lia) ltac:(exists s; auto))
    as (p' & -> & Himg' & Hh & Hnew & Hold & _).
  cbn [snd]. split; [exact Himg'|]. rewrite Hh. split; [exact Hhdr|]. split.
  - intros i t Hi Ht.
    destruct (Z.eq_dec i slotID) as [->|Hne].
    + rewrite Hnew in Ht. apply (inj Some) in Ht. subst t.
      intros Hsz. cbn [Size] in Hsz. congruence.
    + rewrite Hold in Ht by assumption. eauto.
  - intros i j t u Hi Hj Hij Ht Hu.
    destruct (Z.eq_dec i slotID) as [->|Hni].
    { rewrite Hnew in Ht. apply (inj Some) in Ht. subst t.
      intros Hsz. cbn [Size] in Hsz. congruence. }
    destruct (Z.eq_dec j slotID) as [->|Hnj].
    { rewrite Hnew in Hu. apply (inj Some) in Hu. subst u.
      intros _ Hsz. cbn [Size] in Hsz. congruence. }
    rewrite Hold in Ht, Hu by assumption. eauto.
Qed.

Lemma NewPage_header pageID :
  readHeader (NewPage pageID) =
    {| HdrPageID := to_int32 (to_uint32 pageID);
       SlotCount := 0;
       FreeStart := PageHeaderSize;
       FreeEnd := PageSize;
       NextPageID := -1;
       PrevPageID := -1 |}.
Proof.
  unfold NewPage. rewrite readHeader_writeHeader.
  - reflexivity.
  - unfold image_ok, len. cbn [Data]. rewrite length_replicate.
    unfold PageSize. lia.
Qed.

Lemma NewPage_inv pageID : page_inv (NewPage pageID).
Proof.
  split; [|split; [|split]].
  - unfold NewPage. apply writeHeader_image.
    unfold image_ok, len. cbn [Data]. rewrite length_replicate. unfold PageSize. lia.
  - rewrite NewPage_header. unfold header_ok. cbn [SlotCount FreeStart FreeEnd].
    page_lia.
  - rewrite NewPage_header. cbn [SlotCount]. intros i s Hi. lia.
  - rewrite NewPage_header. cbn [SlotCount]. intros i j s t Hi. lia.
Qed.

(** The invariants hold after every sequence of operations whose slot
    arguments are not negative. *)
Lemma run_inv ops : forall p,
  page_inv p -> Forall slot_arg_nonneg ops -> page_inv (run p ops).
Proof.
  induction ops as [|o ops IH]; intros p Hinv Hargs.
  - exact Hinv.
  - apply Forall_cons in Hargs as [Ho Hargs]. cbn [run fold_left].
    apply IH; [|exact Hargs].
    destruct o as [record|slotID newRecord|slotID]; cbn [apply_op slot_arg_nonneg] in *.
    + apply InsertRecord_inv, Hinv.
    + apply UpdateRecord_inv; assumption.
    + apply DeleteRecord_inv; assumption.
Qed.

End page_ops.

(** ** Properties of the page operations *)

Section page_properties.
Import page.
Local Arguments readHeader : simpl never.
Local Arguments readSlot : simpl never.

(** From [NewPage], every sequence of insertions, updates and deletions
    whose slot arguments are not negative leaves a page on which
    [FreeStart = PageHeaderSize + SlotCount*4], [FreeStart <= FreeEnd], and
    the regions of the non-empty slots lie in [[FreeEnd, PageSize)] and are
    pairwise disjoint. *)
Lemma reachable_page_inv pageID ops :
  Forall slot_arg_nonneg ops -> page_inv (run (NewPage pageID) ops).
Proof. intros Hargs. apply run_inv; [apply NewPage_inv|exact Hargs]. Qed.

(** C2: the invariant [FreeStart = PageHeaderSize + SlotCount*4] does not
    survive every sequence of operations.  [DeleteRecord] only checks
    [slotID >= SlotCount]; with [slotID = -3] on a new page it reads the
    header bytes 6..9 ([FreeStart], [FreeEnd]) as a slot of size 4096,
    reports success, and zeroes both fields. *)
Theorem delete_negative_slot_breaks_header :
  let p := run (NewPage 0) [OpDelete (-3)] in
  fst (DeleteRecord (NewPage 0) (-3)) = Ok tt
  /\ SlotCount (readHeader p) = 0
  /\ FreeStart (readHeader p) = 0
  /\ FreeEnd (readHeader p) = 0
  /\ FreeStart (readHeader p)
     <> PageHeaderSize + SlotCount (readHeader p) * SlotEntrySize.
Proof. vm_compute. repeat split; congruence. Qed.



Lemma DeleteRecord_Ok_inv p slotID p' :
  page_inv p -> 0 <= slotID -> DeleteRecord p slotID = (Ok tt, p') ->
  slotID < SlotCount (readHeader p) /\ slot_used p slotID.
Proof.
  intros (Himg & Hhdr & _) Hsid. unfold DeleteRecord.
  destruct (Z.leb_spec (SlotCount (readHeader p)) slotID) as [|Hlt]; [discriminate|].
  destruct (slot_in_directory p slotID Hhdr ltac:(lia)) as (_ & _ & Hs). rewrite Hs.
  destruct (Z.eqb_spec (Size (slot_at (Data p) (slot_offset slotID))) 0) as [|Hnz];
    [discriminate|].
  intros _. split; [exact Hlt|]. eexists. eauto.
Qed.

Lemma slot_empty_not_used p i : slot_empty p i -> slot_used p i -> False.
Proof. intros (s & Hs & Hz) (t & Ht & Hnz). congruence. Qed.

(** C7: on a page that meets the invariants, a successful [InsertRecord]
    (a) returns the smallest empty slot index and leaves [SlotCount] and
    [FreeStart] unchanged whenever some slot in [[0, SlotCount)] is empty,
    (b) appends a slot at index [SlotCount], incrementing [SlotCount] and
    adding [SlotEntrySize] to [FreeStart], when no slot is empty, and only
    then; (c) after a successful [DeleteRecord] of slot [s], the next
    successful [InsertRecord] does not append: it returns an index at most
    [s], which is [s] itself when every slot below [s] holds a record. *)
Theorem insert_reuses_first_empty_slot p :
  page_inv p ->
  (forall record slotID p',
     InsertRecord p record = (Ok slotID, p') ->
     ((exists i, 0 <= i < SlotCount (readHeader p) /\ slot_empty p i) ->
        0 <= slotID < SlotCount (readHeader p)
        /\ slot_empty p slotID
        /\ (forall j, 0 <= j < slotID -> slot_used p j)
        /\ SlotCount (readHeader p') = SlotCount (readHeader p)
        /\ FreeStart (readHeader p') = FreeStart (readHeader p))
     /\ ((forall i, 0 <= i < SlotCount (readHeader p) -> slot_used p i) ->
           slotID = SlotCount (readHeader p)
           /\ SlotCount (readHeader p') = SlotCount (readHeader p) + 1
           /\ FreeStart (readHeader p') = FreeStart (readHeader p) + SlotEntrySize)
     /\ (SlotCount (readHeader p') <> SlotCount (readHeader p) ->
           forall i, 0 <= i < SlotCount (readHeader p) -> slot_used p i))
  /\ (forall s p1 record slotID p2,
        0 <= s ->
        DeleteRecord p s = (Ok tt, p1) ->
        InsertRecord p1 record = (Ok slotID, p2) ->
        0 <= slotID <= s
        /\ SlotCount (readHeader p2) = SlotCount (readHeader p)
        /\ FreeStart (readHeader p2) = FreeStart (readHeader p)
        /\ ((forall j, 0 <= j < s -> slot_used p j) -> slotID = s)).
Proof.
  intros Hinv.
  assert (forall q record slotID q',
            page_inv q -> InsertRecord q record = (Ok slotID, q') ->
            exists appended,
              chosen_slot q slotID appended
              /\ SlotCount (readHeader q') =
                   (if appended then SlotCount (readHeader q) + 1
                    else SlotCount (readHeader q))
              /\ FreeStart (readHeader q') =
                   (if appended then FreeStart (readHeader q) + SlotEntrySize
                    else FreeStart (readHeader q))) as Hins.
  { intros q record slotID q' Hq Hrun.
    destruct (InsertRecord_Ok_inv _ _ _ _ Hq Hrun) as (_ & appended & Hpost).
    destruct Hpost as (Hch & _ & _ & _ & Hh' & _).
    exists appended. rewrite Hh'. cbn [SlotCount FreeStart]. auto. }
  split.
  - intros record slotID p' Hrun.
    destruct (Hins _ _ _ _ Hinv Hrun) as (appended & Hch & Hsc & Hfs).
    unfold chosen_slot in Hch. split; [|split].
    + intros (i & Hi & Hempty). destruct appended.
      * destruct Hch as [_ Hall]. destruct (slot_empty_not_used p i Hempty (Hall i Hi)).
      * destruct Hch as (Hr & He & Hb). auto.
    + intros Hall. destruct appended.
      * destruct Hch as [-> _]. auto.
      * destruct Hch as (Hr & He & _).
        destruct (slot_empty_not_used p slotID He (Hall slotID Hr)).
    + intros Hchanged. destruct appended.
      * destruct Hch as [_ Hall]. exact Hall.
      * congruence.
  - intros s p1 record slotID p2 Hs Hdel Hrun.
    destruct (DeleteRecord_Ok_inv _ _ _ Hinv Hs Hdel) as [Hlt Hused].
    destruct (DeleteRecord_ok p s Hinv ltac:(lia) Hused)
      as (q & Hq & _ & Hh1 & Hnew & Hold & _).
    rewrite Hq in Hdel. apply (f_equal snd) in Hdel. cbn [snd] in Hdel. subst q.
    assert (page_inv p1) as Hinv1.
    { pose proof (DeleteRecord_inv p s Hinv Hs) as H. rewrite Hq in H. exact H. }
    assert (slot_empty p1 s) as Hempty by (eexists; split; [exact Hnew|reflexivity]).
    destruct (Hins _ _ _ _ Hinv1 Hrun) as (appended & Hch & Hsc & Hfs).
    unfold chosen_slot in Hch. rewrite Hh1 in *. destruct appended.
    + destruct Hch as [_ Hall].
      destruct (slot_empty_not_used p1 s Hempty (Hall s ltac:(lia))).
    + destruct Hch as (Hr & He & Hb).
      assert (slotID <= s) as Hle.
      { destruct (Z.le_gt_cases slotID s) as [|Hgt]; [assumption|].
        destruct (slot_empty_not_used p1 s Hempty (Hb s ltac:(lia))). }
      split; [lia|]. split; [exact Hsc|]. split; [exact Hfs|].
      intros Hbelow. destruct (Z.eq_dec slotID s) as [|Hne]; [assumption|].
      exfalso. destruct He as (t & Ht & Hz).
      rewrite Hold in Ht by lia.
      apply (slot_empty_not_used p slotID); [exists t; auto|apply Hbelow; lia].
Qed.

Lemma insert_reuses_first_empty_slot_witness :
  let q := run (NewPage 0) [OpInsert [x01]; OpInsert [x02]] in
  let p := run (NewPage 0) [OpInsert [x01]; OpInsert [x02]; OpDelete 0] in
  let p' := run (NewPage 0) [OpInsert [x01]; OpInsert [x02]; OpDelete 0; OpInsert [x03]] in
  page_inv q
  /\ page_inv p
  /\ (exists i, 0 <= i < SlotCount (readHeader p) /\ slot_empty p i)
  /\ InsertRecord p [x03] = (Ok 0, p')
  /\ DeleteRecord q 0 = (Ok tt, p)
  /\ (0 <= 0 < SlotCount (readHeader p)
      /\ slot_empty p 0
      /\ (forall j, 0 <= j < 0 -> slot_used p j)
      /\ SlotCount (readHeader p') = SlotCount (readHeader p)
      /\ FreeStart (readHeader p') = FreeStart (readHeader p))
  /\ (0 <= 0 <= 0
      /\ SlotCount (readHeader p') = SlotCount (readHeader q)
      /\ FreeStart (readHeader p') = FreeStart (readHeader q)
      /\ ((forall j, 0 <= j < 0 -> slot_used q j) -> 0 = 0)).
Proof.
  intros q p p'.
  assert (page_inv q) as Hq.
  { apply reachable_page_inv. repeat constructor. }
  assert (page_inv p) as Hp.
  { apply reachable_page_inv. repeat constructor. cbn. lia. }
  assert (exists i, 0 <= i < SlotCount (readHeader p) /\ slot_empty p i) as Hempty.
  { exists 0. split; [vm_compute; split; congruence|].
    exists {| Offset := 0; Size := 0 |}. split; vm_compute; reflexivity. }
  assert (InsertRecord p [x03] = (Ok 0, p')) as Hins by (vm_compute; reflexivity).
  assert (DeleteRecord q 0 = (Ok tt, p)) as Hdel by (vm_compute; reflexivity).
  split; [exact Hq|]. split; [exact Hp|]. split; [exact Hempty|].
  split; [exact Hins|]. split; [exact Hdel|]. split.
  - exact (proj1 (proj1 (insert_reuses_first_empty_slot p Hp) [x03] 0 p' Hins) Hempty).
  - exact (proj2 (insert_reuses_first_empty_slot q Hq) 0 p [x03] 0 p'
             ltac:(lia) Hdel Hins).
Defined.

(** C8: whatever the page and the arguments, a failure of [UpdateRecord] is
    one of NoSuchSlot, EmptySlot and SizeMismatch and leaves the page as it
    was.  On a page that meets the invariants and for a non-empty slot
    [slotID] in [[0, SlotCount)], [UpdateRecord] fails with SizeMismatch when
    the new record's length differs from the slot's size; otherwise it
    succeeds, overwrites exactly the bytes of the slot's region with the new
    record, and marks the page dirty. *)
Theorem update_record_in_place p :
  (forall slotID newRecord e p',
     UpdateRecord p slotID newRecord = (Err e, p') ->
     p' = p /\ (e = NoSuchSlot \/ e = EmptySlot \/ e = SizeMismatch))
  /\ (forall slotID newRecord s,
        page_inv p ->
        0 <= slotID < SlotCount (readHeader p) ->
        readSlot p slotID = Some s ->
        Size s <> 0 ->
        (len newRecord <> Size s ->
           UpdateRecord p slotID newRecord = (Err SizeMismatch, p))
        /\ (len newRecord = Size s ->
              exists p',
                UpdateRecord p slotID newRecord = (Ok tt, p')
                /\ dirty p' = true
                /\ PageID p' = PageID p
                /\ len (Data p') = len (Data p)
                /\ slice (Data p') (Offset s) (Offset s + Size s) = newRecord
                /\ forall k : nat,
                     Z.of_nat k < Offset s \/ Offset s + Size s <= Z.of_nat k ->
                     Data p' !! k = Data p !! k)).
Proof.
  split.
  - intros slotID newRecord e p'. unfold UpdateRecord.
    destruct (SlotCount (readHeader p) <=? slotID); [intros [= <- <-]; auto|].
    destruct (readSlot p slotID) as [t|]; [|discriminate].
    destruct (Size t =? 0); [intros [= <- <-]; auto|].
    destruct (len newRecord =? Size t); cbn [negb]; [|intros [= <- <-]; auto].
    destruct (in_bounds _ _); cbn [negb]; discriminate.
  - intros slotID newRecord s Hinv Hi Hs Hnz. split.
    + intros Hlen. unfold UpdateRecord. rewrite Hs.
      destruct (Z.leb_spec (SlotCount (readHeader p)) slotID); [lia|].
      destruct (Z.eqb_spec (Size s) 0); [lia|].
      destruct (Z.eqb_spec (len newRecord) (Size s)); [lia|reflexivity].
    + intros Hlen.
      pose proof Hinv as (Himg & Hhdr & Hreg & _).
      destruct (Hreg slotID s Hi Hs Hnz) as (H1 & H2 & H3).
      destruct Hhdr as (Hsc & Hfs & Hle & Hfe).
      eexists. split; [apply (UpdateRecord_ok p slotID newRecord s); assumption|].
      cbn [dirty PageID Data].
      split; [reflexivity|]. split; [reflexivity|].
      split; [apply len_store; page_lia|].
      split; [apply slice_store_same; page_lia|].
      intros k Hk. rewrite lookup_store by page_lia.
      destruct (decide _) as [Hin|]; [|reflexivity]. unfold len in *. page_lia.
Qed.

Lemma update_record_in_place_witness :
  let p := run (NewPage 0) [OpInsert [x01; x02]] in
  let s := {| Offset := 4094; Size := 2 |} in
  page_inv p
  /\ 0 <= 0 < SlotCount (readHeader p)
  /\ readSlot p 0 = Some s
  /\ Size s <> 0
  /\ UpdateRecord p 0 [x07] = (Err SizeMismatch, p)
  /\ (exists p',
        UpdateRecord p 0 [x07; x08] = (Ok tt, p')
        /\ dirty p' = true
        /\ PageID p' = PageID p
        /\ len (Data p') = len (Data p)
        /\ slice (Data p') (Offset s) (Offset s + Size s) = [x07; x08]
        /\ forall k : nat,
             Z.of_nat k < Offset s \/ Offset s + Size s <= Z.of_nat k ->
             Data p' !! k = Data p !! k).
Proof.
  intros p s.
  assert (page_inv p) as Hp by (apply reachable_page_inv; repeat constructor).
  assert (0 <= 0 < SlotCount (readHeader p)) as Hi by (vm_compute; split; congruence).
  assert (readSlot p 0 = Some s) as Hs by (vm_compute; reflexivity).
  assert (Size s <> 0) as Hnz by (cbn; lia).
  split; [exact Hp|]. split; [exact Hi|]. split; [exact Hs|]. split; [exact Hnz|].
  split.
  - apply (proj1 (proj2 (update_record_in_place p) 0 [x07] s Hp Hi Hs Hnz)).
    vm_compute. congruence.
  - apply (proj2 (proj2 (update_record_in_place p) 0 [x07; x08] s Hp Hi Hs Hnz)).
    vm_compute. reflexivity.
Defined.

End page_properties.

(** ** The logical-ID index *)

Section index_properties.
Import bptree.

Lemma count_inserts_cons o ops :
  count_inserts (o :: ops) = (if is_insert o then 1 else 0) + count_inserts ops.
Proof.
  unfold count_inserts, len. rewrite filter_cons.
  destruct (is_insert o); destruct (decide _) as [H|H];
    try congruence; cbn [length]; lia.
Qed.

Lemma count_inserts_nonneg ops : 0 <= count_inserts ops.
Proof. unfold count_inserts, len. lia. Qed.




End index_properties.

(** ** The disk manager *)

Section disk_properties.
Import disk.


(** C5: [GetPageCount] does not go through [getFile], so it does not
    initialize the counter.  On a heap file of two pages, [GetPageCount] as
    the first operation returns 0, not 2; [ReadPage] and [AllocatePage], which
    call [getFile], initialize it to 2. *)
Theorem GetPageCount_first_returns_zero :
  let fs := host.set_heap host.empty_fs
              {[ "db/users.tbl"%string := replicate (Z.to_nat (2 * PageSize)) x00 ]} in
  let dm := NewDiskManager "db" in
  len (contents dm fs "users") = 2 * PageSize
  /\ GetPageCount dm "users" = 0
  /\ GetPageCount (ReadPage dm fs "users" 0).1.2 "users" = 2
  /\ (AllocatePage dm fs "users").1.1 = Ok 2.
Proof. vm_compute. repeat split; reflexivity. Qed.

End disk_properties.

(** ** The storage layer *)

Section layer_properties.
Import layer.

Lemma Get_without_index tableName recordID fsl fs :
  isOpen fsl = true -> indexes fsl !! tableName = None ->
  Get tableName recordID (fsl, fs) = (Panic, (fsl, fs)).
Proof. intros Ho Hi. unfold Get. rewrite Ho, Hi. reflexivity. Qed.

Lemma Update_without_index tableName recordID updatedRecord fsl fs :
  isOpen fsl = true -> indexes fsl !! tableName = None ->
  Update tableName recordID updatedRecord (fsl, fs) = (Panic, (fsl, fs)).
Proof. intros Ho Hi. unfold Update. rewrite Ho, Hi. reflexivity. Qed.

Lemma DeleteRecord_without_index tableName recordID fsl fs :
  isOpen fsl = true -> indexes fsl !! tableName = None ->
  DeleteRecord tableName recordID (fsl, fs) = (Panic, (fsl, fs)).
Proof. intros Ho Hi. unfold DeleteRecord. rewrite Ho, Hi. reflexivity. Qed.

(** C4: on a layer opened on an empty directory, [Get], [Update] and
    [DeleteRecord] on a table that is not in the catalog do not return an
    error: they look up [fsl.indexes[tableName]], get a nil index and panic
    in [Search].  [Insert], which checks [TableExists] first, returns the
    error. *)
Theorem crud_on_unknown_table_panics :
  let st := (Open "db" (NewFileStorageLayer, host.empty_fs)).2 in
  isOpen st.1 = true
  /\ catalog.TableExists (catalog st.1) "ghost" = false
  /\ (Insert "ghost" [x01] st).1 = Err UnknownTable
  /\ (Get "ghost" 1 st).1 = Panic
  /\ (Update "ghost" 1 [x01] st).1 = Panic
  /\ (DeleteRecord "ghost" 1 st).1 = Panic.
Proof. vm_compute. repeat split; reflexivity. Qed.

(** C9: after a successful [DeleteRecord(table, id)] the table's index no
    longer maps [id], and [Get(table, id)] fails with NotFound. *)
Theorem delete_then_get_not_found tableName recordID st st' :
  DeleteRecord tableName recordID st = (Ok tt, st') ->
  (exists idx, indexes st'.1 !! tableName = Some idx
               /\ bptree.Search idx recordID = None)
  /\ (Get tableName recordID st').1 = Err NotFound.
Proof.
  destruct st as [fsl fs]. unfold DeleteRecord.
  destruct (isOpen fsl) eqn:Hopen; cbn [negb]; [|discriminate].
  destruct (indexes fsl !! tableName) as [idx|]; [|discriminate].
  destruct (bptree.Search idx recordID) as [rid|]; [|discriminate].
  destruct (getPage tableName (bptree.PageID rid) (fsl, fs)) as [[pg| |] [fsl1 fs1]] eqn:Hget;
    [|discriminate..].
  assert (isOpen fsl1 = true) as Hopen1.
  { unfold getPage in Hget.
    destruct (cached fsl tableName (bptree.PageID rid)).
    - injection Hget as _ <- _. exact Hopen.
    - destruct (disk.ReadPage _ _ _ _) as [[[data| |] dm'] fs']; [|discriminate..].
      destruct (page.LoadPage _ _); [|discriminate].
      injection Hget as _ <- _. exact Hopen. }
  destruct (page.DeleteRecord pg (bptree.SlotID rid)) as [[[]| |] pg']; [|discriminate..].
  destruct (indexes (put_page fsl1 tableName (bptree.PageID rid) pg') !! tableName)
    as [idx2|]; [|discriminate].
  unfold bptree.Delete.
  destruct (bptree.index idx2 !! recordID) eqn:Hin; [|discriminate].
  intros [= <-]. unfold Get, set_indexes, put_page, set_pageCache.
  cbn [fst snd indexes isOpen]. rewrite Hopen1, lookup_insert_eq.
  unfold bptree.Search. cbn [bptree.index negb]. rewrite lookup_delete_eq.
  split; [|reflexivity]. eexists. split; [reflexivity|]. apply lookup_delete_eq.
Qed.

Lemma delete_then_get_not_found_witness :
  let schema := {| record.Columns :=
                     [ {| record.Name := "id"; record.ColType := record.TypeInt;
                          record.Length := 0; record.Nullable := false |} ] |} in
  let st0 := (Open "db" (NewFileStorageLayer, host.empty_fs)).2 in
  let st1 := (CreateTable "users" schema st0).2 in
  let st := (Insert "users" [x00; x07; x00; x00; x00] st1).2 in
  let st' := (DeleteRecord "users" 1 st).2 in
  DeleteRecord "users" 1 st = (Ok tt, st')
  /\ (Get "users" 1 st').1 = Err NotFound.
Proof.
  intros schema st0 st1 st st'.
  assert (DeleteRecord "users" 1 st = (Ok tt, st')) as Hdel by (vm_compute; reflexivity).
  split; [exact Hdel|].
  exact (proj2 (delete_then_get_not_found "users" 1 st st' Hdel)).
Defined.

(** *** Insert, then Get *)

Lemma cached_put_page fsl tableName pageID pg tableName' pageID' :
  cached (put_page fsl tableName pageID pg) tableName' pageID'
  = if decide (tableName' = tableName /\ pageID' = pageID) then Some pg
    else cached fsl tableName' pageID'.
Proof.
  unfold cached, put_page, set_pageCache. cbn [pageCache].
  destruct (decide (tableName' = tableName)) as [->|Hne].
  - rewrite lookup_insert_eq.
    destruct (decide (pageID' = pageID)) as [->|Hnp].
    + rewrite lookup_insert_eq. destruct (decide _) as [|[]]; auto.
    + rewrite lookup_insert_ne by congruence.
      destruct (decide _) as [[_ ?]|_]; [congruence|].
      destruct (pageCache fsl !! tableName); [reflexivity|apply lookup_empty].
  - rewrite lookup_insert_ne by congruence.
    destruct (decide _) as [[? _]|_]; [congruence|reflexivity].
Qed.

Lemma cache_ok_put_page fsl tableName pageID pg :
  cache_ok fsl -> page.page_inv pg -> cache_ok (put_page fsl tableName pageID pg).
Proof.
  intros Hc Hpg t i q. rewrite cached_put_page.
  destruct (decide _); [intros [= <-]; exact Hpg|apply Hc].
Qed.

Lemma page_inv_ext p q : page.Data p = page.Data q -> page.page_inv p -> page.page_inv q.
Proof.
  intros Hd. unfold page.page_inv, page.image_ok, page.readHeader, page.readSlot.
  rewrite Hd. auto.
Qed.

Lemma getFile_heap dm fs tableName :
  heap_ok fs -> heap_ok (disk.getFile dm fs tableName).2.
Proof.
  intros Hh. unfold disk.getFile.
  destruct (decide _); [exact Hh|]. cbn [snd].
  destruct (host.heap_files fs !! disk.filePath dm tableName) eqn:E; [exact Hh|].
  intros path data k pid. cbn [host.set_heap host.heap_files].
  destruct (decide (path = disk.filePath dm tableName)) as [->|Hne].
  - rewrite lookup_insert_eq. intros [= <-] Hk Hlen.
    unfold len, disk.PageSize in Hlen. cbn [length] in Hlen. lia.
  - rewrite lookup_insert_ne by congruence. apply Hh.
Qed.

Lemma ReadPage_ok dm fs tableName pageID data dm' fs' :
  heap_ok fs ->
  disk.ReadPage dm fs tableName pageID = (Ok data, dm', fs') ->
  heap_ok fs'
  /\ forall pg, page.LoadPage pageID data = Some pg -> page.page_inv pg.
Proof.
  intros Hh. unfold disk.ReadPage.
  pose proof (getFile_heap dm fs tableName Hh) as Hh'.
  destruct (disk.getFile dm fs tableName) as [[[[]| |] dm1] fs1]; [|discriminate..].
  cbn [snd] in Hh'.
  destruct (_ || _) eqn:E; [discriminate|]. intros [= <- <- <-].
  split; [exact Hh'|]. intros pg. unfold page.LoadPage.
  destruct (negb _); [discriminate|]. intros [= <-].
  apply orb_false_iff in E as [E1 E2]. apply Z.ltb_ge in E1, E2.
  unfold disk.contents in *.
  destruct (host.heap_files fs1 !! disk.filePath dm1 tableName) as [content|] eqn:Hc.
  - cbn [default] in *. unfold id in *.
    apply (Hh' _ content pageID pageID Hc); unfold disk.PageSize in *; lia.
  - cbn [default] in E2. unfold id, len, disk.PageSize in *. cbn [length] in E2. lia.
Qed.

Lemma ReadPage_heap dm fs tableName pageID :
  heap_ok fs -> heap_ok (disk.ReadPage dm fs tableName pageID).2.
Proof.
  intros Hh. unfold disk.ReadPage.
  pose proof (getFile_heap dm fs tableName Hh) as Hh'.
  destruct (disk.getFile dm fs tableName) as [[[[]| |] dm1] fs1]; cbn [snd] in *;
    try exact Hh'.
  destruct (_ || _); exact Hh'.
Qed.

(** [getPage] keeps the layer well formed; a page it returns meets the
    invariants and sits in the cache. *)
Lemma getPage_ok tableName pageID st :
  layer_ok st ->
  layer_ok (getPage tableName pageID st).2
  /\ same_tables st.1 (getPage tableName pageID st).2.1
  /\ forall pg, (getPage tableName pageID st).1 = Ok pg ->
       page.page_inv pg
       /\ cached (getPage tableName pageID st).2.1 tableName pageID = Some pg.
Proof.
  destruct st as [fsl fs]. intros [Hc Hh]. cbn [fst snd] in *. unfold getPage.
  destruct (cached fsl tableName pageID) as [pg|] eqn:Hcached.
  - cbn [fst snd]. split; [split; assumption|]. split; [repeat split|].
    intros q [= <-]. split; [eapply Hc; eassumption|exact Hcached].
  - pose proof (ReadPage_heap (diskManager fsl) fs tableName pageID Hh) as Hh'.
    pose proof (ReadPage_ok (diskManager fsl) fs tableName pageID) as Hread.
    destruct (disk.ReadPage (diskManager fsl) fs tableName pageID)
      as [[[data| |] dm'] fs'] eqn:E; cbn [fst snd] in *.
    + destruct (Hread data dm' fs' Hh eq_refl) as [_ Hload].
      destruct (page.LoadPage pageID data) as [pg|]; cbn [fst snd].
      * split; [split; [|exact Hh']|]. 
        { apply cache_ok_put_page; [exact Hc|apply Hload; reflexivity]. }
        split; [repeat split|].
        intros q [= <-]. split; [apply Hload; reflexivity|].
        rewrite cached_put_page. destruct (decide _) as [|[]]; auto.
      * split; [split; [exact Hc|exact Hh']|]. split; [repeat split|]. discriminate.
    + split; [split; [exact Hc|exact Hh']|]. split; [repeat split|]. discriminate.
    + split; [split; [exact Hc|exact Hh']|]. split; [repeat split|]. discriminate.
Qed.

Lemma same_tables_refl fsl : same_tables fsl fsl.
Proof. repeat split. Qed.

Lemma same_tables_trans a b c : same_tables a b -> same_tables b c -> same_tables a c.
Proof. intros (H1 & H2 & H3) (H4 & H5 & H6). repeat split; congruence. Qed.

Lemma same_tables_put_page fsl tableName pageID pg :
  same_tables fsl (put_page fsl tableName pageID pg).
Proof. repeat split. Qed.

Lemma same_tables_set_diskManager fsl dm : same_tables fsl (set_diskManager fsl dm).
Proof. repeat split. Qed.

Lemma scan_pages_ok tableName recordData : forall n pageID st,
  layer_ok st -> recordData <> [] ->
  same_tables st.1 (scan_pages tableName recordData pageID n st).2.1
  /\ match (scan_pages tableName recordData pageID n st).1 with
     | Ok (Some at_) =>
         placed tableName recordData (scan_pages tableName recordData pageID n st).2.1 at_
     | Ok None => layer_ok (scan_pages tableName recordData pageID n st).2
     | _ => True
     end.
Proof.
  induction n as [|n IH]; intros pageID st Hok Hne.
  - cbn [scan_pages fst snd]. split; [apply same_tables_refl|exact Hok].
  - cbn [scan_pages].
    destruct (getPage_ok tableName pageID st Hok) as (Hok1 & Hsame1 & Hpg).
    destruct (getPage tableName pageID st) as [[pg|e|] [fsl1 fs1]]; cbn [fst snd] in *.
    + destruct (Hpg pg eq_refl) as [Hinv Hcached].
      destruct (InsertRecord_cases pg recordData Hinv)
        as [[_ E]|(Hfit & slot & app & pg' & E & Hpost)]; rewrite E.
      * assert (layer_ok (put_page fsl1 tableName pageID pg, fs1)) as Hok2.
        { destruct Hok1 as [Hc Hh]. split; [|exact Hh].
          apply cache_ok_put_page; assumption. }
        destruct (IH (to_int32 (pageID + 1)) _ Hok2 Hne) as [Hsame2 Hres].
        split; [|exact Hres].
        eapply same_tables_trans; [exact Hsame1|].
        eapply same_tables_trans; [apply same_tables_put_page|exact Hsame2].
      * cbn [fst snd]. split.
        -- eapply same_tables_trans; [exact Hsame1|apply same_tables_put_page].
        -- exists pg'. cbn [fst snd]. split.
           ++ rewrite cached_put_page. destruct (decide _) as [|[]]; auto.
           ++ eapply GetRecord_inserted; eassumption.
    + destruct (IH (to_int32 (pageID + 1)) _ Hok1 Hne) as [Hsame2 Hres].
      split; [|exact Hres]. eapply same_tables_trans; eassumption.
    + split; [exact Hsame1|exact I].
Qed.

Lemma insertRecord_ok tableName recordData st at_ st' :
  layer_ok st -> recordData <> [] ->
  insertRecord tableName recordData st = (Ok at_, st') ->
  same_tables st.1 st'.1 /\ placed tableName recordData st'.1 at_.
Proof.
  intros Hok Hne. unfold insertRecord.
  destruct (scan_pages_ok tableName recordData
              (Z.to_nat (disk.GetPageCount (diskManager st.1) tableName)) 0 st Hok Hne)
    as [Hsame Hres].
  destruct (scan_pages tableName recordData 0 _ st) as [[[found|]|e|] [fsl1 fs1]];
    cbn [fst snd] in *; try discriminate.
  - intros [= <- <-]. auto.
  - destruct (disk.AllocatePage (diskManager fsl1) fs1 tableName)
      as [[[newPageID|e|] dm'] fs']; try discriminate.
    destruct (page.InsertRecord (page.NewPage newPageID) recordData)
      as [[slotID|e|] newPage'] eqn:E; try discriminate.
    intros [= <- <-]. cbn [fst snd]. split.
    + eapply same_tables_trans; [exact Hsame|].
      eapply same_tables_trans; [apply same_tables_set_diskManager|].
      apply same_tables_put_page.
    + exists newPage'. cbn [fst snd]. split.
      * rewrite cached_put_page. destruct (decide _) as [|[]]; auto.
      * eapply GetRecord_inserted; [apply NewPage_inv|exact Hne|exact E].
Qed.



Lemma layer_ok_new : layer_ok (NewFileStorageLayer, host.empty_fs).
Proof.
  split.
  - intros t i pg. unfold cached. cbn. rewrite lookup_empty. discriminate.
  - intros path data k pid. cbn. rewrite lookup_empty. discriminate.
Qed.

Lemma cached_reset_tables fsl tables c tableName pageID pg :
  cached (set_pageCache fsl
            (foldr (fun t c => <[t := ∅]> c) c tables)) tableName pageID = Some pg ->
  cached (set_pageCache fsl c) tableName pageID = Some pg.
Proof.
  unfold cached, set_pageCache. cbn [pageCache].
  induction tables as [|t tables IH]; cbn [foldr]; [auto|].
  destruct (decide (tableName = t)) as [->|Hne].
  - rewrite lookup_insert_eq, lookup_empty. discriminate.
  - rewrite lookup_insert_ne by congruence. exact IH.
Qed.

Lemma Open_ok path st : layer_ok st -> layer_ok (Open path st).2.
Proof.
  destruct st as [fsl fs]. intros [Hc Hh]. unfold Open.
  destruct (isOpen fsl); [split; assumption|].
  unfold disk.Open, catalog.Load.
  destruct (host.catalog_files fs !! _); cbn [fst snd]; (split; [|exact Hh]);
    intros t i pg Hpg; apply (Hc t i pg);
    apply (cached_reset_tables fsl _ (pageCache fsl) t i pg) in Hpg; exact Hpg.
Qed.

Lemma CreateTable_ok tableName schema st :
  layer_ok st -> layer_ok (CreateTable tableName schema st).2.
Proof.
  destruct st as [fsl fs]. intros [Hc Hh]. unfold CreateTable.
  destruct (isOpen fsl); cbn [negb]; [|split; assumption].
  unfold catalog.CreateTable.
  destruct (catalog.schemas (catalog fsl) !! tableName); [split; assumption|].
  cbn [catalog.Save fst snd]. split.
  - intros t i pg. unfold cached. cbn [pageCache fst].
    destruct (decide (t = tableName)) as [->|Hne].
    + rewrite lookup_insert_eq, lookup_empty. discriminate.
    + rewrite lookup_insert_ne by congruence. apply (Hc t i pg).
  - exact Hh.
Qed.


(** *** The states reached through the API are well formed *)

Lemma InsertRecord_slot_nonneg p recordData slotID p' :
  page.page_inv p -> page.InsertRecord p recordData = (Ok slotID, p') -> 0 <= slotID.
Proof.
  intros Hinv Hrun.
  destruct (InsertRecord_Ok_inv _ _ _ _ Hinv Hrun) as (_ & appended & Hch & _).
  destruct Hinv as (_ & (Hsc & _) & _).
  unfold page.chosen_slot in Hch. destruct appended.
  - destruct Hch as [-> _]. exact Hsc.
  - destruct Hch as [Hr _]. lia.
Qed.

Lemma getFile_index_files dm fs tableName :
  host.index_files (disk.getFile dm fs tableName).2 = host.index_files fs.
Proof.
  unfold disk.getFile. destruct (decide _); [reflexivity|]. cbn [snd].
  destruct (host.heap_files fs !! _); reflexivity.
Qed.

Lemma ReadPage_index_files dm fs tableName pageID :
  host.index_files (disk.ReadPage dm fs tableName pageID).2 = host.index_files fs.
Proof.
  unfold disk.ReadPage. pose proof (getFile_index_files dm fs tableName) as H.
  destruct (disk.getFile dm fs tableName) as [[[[]| |] dm1] fs1]; cbn [snd] in *;
    try exact H.
  destruct (_ || _); exact H.
Qed.

Lemma AllocatePage_ok dm fs tableName :
  heap_ok fs ->
  heap_ok (disk.AllocatePage dm fs tableName).2
  /\ host.index_files (disk.AllocatePage dm fs tableName).2 = host.index_files fs.
Proof.
  intros Hh. unfold disk.AllocatePage.
  pose proof (getFile_index_files dm fs tableName) as H.
  pose proof (getFile_heap dm fs tableName Hh) as H'.
  destruct (disk.getFile dm fs tableName) as [[[[]| |] dm1] fs1]; cbn [snd] in *; auto.
Qed.

Lemma getPage_index_files tableName pageID st :
  host.index_files (getPage tableName pageID st).2.2 = host.index_files st.2.
Proof.
  destruct st as [fsl fs]. unfold getPage.
  destruct (cached fsl tableName pageID); [reflexivity|].
  pose proof (ReadPage_index_files (diskManager fsl) fs tableName pageID) as H.
  destruct (disk.ReadPage (diskManager fsl) fs tableName pageID)
    as [[[data| |] dm'] fs']; cbn [snd] in *; try exact H.
  destruct (page.LoadPage pageID data); exact H.
Qed.

Lemma scan_pages_inv tableName recordData : forall n pageID st,
  layer_ok st ->
  layer_ok (scan_pages tableName recordData pageID n st).2
  /\ same_tables st.1 (scan_pages tableName recordData pageID n st).2.1
  /\ host.index_files (scan_pages tableName recordData pageID n st).2.2
     = host.index_files st.2
  /\ forall at_, (scan_pages tableName recordData pageID n st).1 = Ok (Some at_) ->
       0 <= at_.2.
Proof.
  induction n as [|n IH]; intros pageID st Hok.
  - cbn [scan_pages fst snd]. split; [exact Hok|]. split; [apply same_tables_refl|].
    split; [reflexivity|]. discriminate.
  - cbn [scan_pages].
    destruct (getPage_ok tableName pageID st Hok) as (Hok1 & Hsame1 & Hpg).
    pose proof (getPage_index_files tableName pageID st) as Hfiles1.
    destruct (getPage tableName pageID st) as [[pg|e|] [fsl1 fs1]]; cbn [fst snd] in *.
    + destruct (Hpg pg eq_refl) as [Hinv Hcached].
      pose proof (InsertRecord_inv pg recordData Hinv) as Hinv'.
      pose proof (InsertRecord_slot_nonneg pg recordData) as Hslot.
      destruct (InsertRecord_cases pg recordData Hinv)
        as [[_ E]|(Hfit & slot & app & pg' & E & Hpost)]; rewrite E in *;
        cbn [snd] in Hinv'.
      * assert (layer_ok (put_page fsl1 tableName pageID pg, fs1)) as Hok2.
        { destruct Hok1 as [Hc Hh]. split; [|exact Hh].
          apply cache_ok_put_page; assumption. }
        destruct (IH (to_int32 (pageID + 1)) _ Hok2) as (H1 & H2 & H3 & H4).
        split; [exact H1|]. split.
        { eapply same_tables_trans; [exact Hsame1|].
          eapply same_tables_trans; [apply same_tables_put_page|exact H2]. }
        split; [rewrite H3; exact Hfiles1|exact H4].
      * cbn [fst snd]. split.
        { destruct Hok1 as [Hc Hh]. split; [|exact Hh].
          apply cache_ok_put_page; assumption. }
        split; [eapply same_tables_trans; [exact Hsame1|apply same_tables_put_page]|].
        split; [exact Hfiles1|].
        intros at_ [= <-]. cbn [snd]. eapply Hslot; [exact Hinv|reflexivity].
    + destruct (IH (to_int32 (pageID + 1)) _ Hok1) as (H1 & H2 & H3 & H4).
      split; [exact H1|]. split; [eapply same_tables_trans; eassumption|].
      split; [rewrite H3; exact Hfiles1|exact H4].
    + split; [exact Hok1|]. split; [exact Hsame1|]. split; [exact Hfiles1|]. discriminate.
Qed.

Lemma layer_ok_set_diskManager fsl dm fs :
  cache_ok fsl -> heap_ok fs -> layer_ok (set_diskManager fsl dm, fs).
Proof. intros Hc Hh. split; [exact Hc|exact Hh]. Qed.

Lemma insertRecord_inv tableName recordData st :
  layer_ok st ->
  layer_ok (insertRecord tableName recordData st).2
  /\ same_tables st.1 (insertRecord tableName recordData st).2.1
  /\ host.index_files (insertRecord tableName recordData st).2.2 = host.index_files st.2
  /\ forall at_, (insertRecord tableName recordData st).1 = Ok at_ -> 0 <= at_.2.
Proof.
  intros Hok. unfold insertRecord.
  destruct (scan_pages_inv tableName recordData
              (Z.to_nat (disk.GetPageCount (diskManager st.1) tableName)) 0 st Hok)
    as (Hok1 & Hsame & Hfiles & Hslot).
  destruct (scan_pages tableName recordData 0 _ st) as [[[found|]|e|] [fsl1 fs1]];
    cbn [fst snd] in *.
  - split; [exact Hok1|]. split; [exact Hsame|]. split; [exact Hfiles|].
    intros at_ [= <-]. apply Hslot. reflexivity.
  - destruct Hok1 as [Hc Hh].
    destruct (AllocatePage_ok (diskManager fsl1) fs1 tableName Hh) as [Hh' Hfiles'].
    destruct (disk.AllocatePage (diskManager fsl1) fs1 tableName)
      as [[[newPageID|e|] dm'] fs']; cbn [fst snd] in *.
    + pose proof (InsertRecord_inv (page.NewPage newPageID) recordData
                    (NewPage_inv newPageID)) as Hinv'.
      pose proof (InsertRecord_slot_nonneg (page.NewPage newPageID) recordData) as Hsl.
      destruct (page.InsertRecord (page.NewPage newPageID) recordData)
        as [[slotID|e|] newPage']; cbn [fst snd] in *.
      * split.
        { split; [|exact Hh']. apply cache_ok_put_page; assumption. }
        split.
        { eapply same_tables_trans; [exact Hsame|].
          eapply same_tables_trans; [apply same_tables_set_diskManager|].
          apply same_tables_put_page. }
        split; [congruence|].
        intros at_ [= <-]. cbn [snd]. eapply Hsl; [apply NewPage_inv|reflexivity].
      * split; [split; assumption|].
        split; [eapply same_tables_trans; [exact Hsame|apply same_tables_set_diskManager]|].
        split; [congruence|discriminate].
      * split; [split; assumption|].
        split; [eapply same_tables_trans; [exact Hsame|apply same_tables_set_diskManager]|].
        split; [congruence|discriminate].
    + split; [split; assumption|].
      split; [eapply same_tables_trans; [exact Hsame|apply same_tables_set_diskManager]|].
      split; [congruence|discriminate].
    + split; [split; assumption|].
      split; [eapply same_tables_trans; [exact Hsame|apply same_tables_set_diskManager]|].
      split; [congruence|discriminate].
  - split; [exact Hok1|]. split; [exact Hsame|]. split; [exact Hfiles|]. discriminate.
  - split; [exact Hok1|]. split; [exact Hsame|]. split; [exact Hfiles|]. discriminate.
Qed.

Lemma index_ok_same fsl fsl' : same_tables fsl fsl' -> index_ok fsl -> index_ok fsl'.
Proof. intros (_ & Hi & _) Hok t idx id rid. rewrite Hi. apply Hok. Qed.

Lemma index_ok_set fsl tableName idx :
  index_ok fsl ->
  (forall id rid, bptree.index idx !! id = Some rid -> 0 <= bptree.SlotID rid) ->
  index_ok (set_indexes fsl (<[tableName := idx]> (indexes fsl))).
Proof.
  intros Hok Hidx t idx' id rid. unfold set_indexes. cbn [indexes].
  destruct (decide (t = tableName)) as [->|Hne].
  - rewrite lookup_insert_eq. intros [= <-]. apply Hidx.
  - rewrite lookup_insert_ne by congruence. apply Hok.
Qed.

Lemma state_ok_Insert tableName recordData st :
  state_ok st -> state_ok (Insert tableName recordData st).2.
Proof.
  intros (Hok & Hidx & Hfiles). destruct st as [fsl fs]. unfold Insert.
  destruct (isOpen fsl); cbn [negb]; [|exact (conj Hok (conj Hidx Hfiles))].
  destruct (catalog.TableExists (catalog fsl) tableName); cbn [negb];
    [|exact (conj Hok (conj Hidx Hfiles))].
  destruct (insertRecord_inv tableName recordData (fsl, fs) Hok)
    as (Hok1 & Hsame & Hfiles1 & Hslot).
  destruct (insertRecord tableName recordData (fsl, fs))
    as [[[pageID slotID]|e|] [fsl1 fs1]]; cbn [fst snd] in *.
  - pose proof (index_ok_same _ _ Hsame Hidx) as Hidx1.
    destruct (indexes fsl1 !! tableName) as [idx|] eqn:Hlook; cbn [snd].
    + unfold bptree.Insert. cbn [snd]. split; [exact Hok1|]. split; [|cbn [fst snd]; congruence].
      apply index_ok_set; [exact Hidx1|]. cbn [bptree.index]. intros id rid.
      destruct (decide (id = bptree.nextID idx)) as [->|Hne].
      * rewrite lookup_insert_eq. intros [= <-]. cbn [bptree.SlotID].
        apply (Hslot (pageID, slotID)). reflexivity.
      * rewrite lookup_insert_ne by congruence. apply (Hidx1 tableName idx id rid Hlook).
    + split; [exact Hok1|]. split; [exact Hidx1|cbn [fst snd]; congruence].
  - split; [exact Hok1|]. split; [exact (index_ok_same _ _ Hsame Hidx)|cbn [fst snd]; congruence].
  - split; [exact Hok1|]. split; [exact (index_ok_same _ _ Hsame Hidx)|cbn [fst snd]; congruence].
Qed.

Lemma state_ok_Get tableName recordID st :
  state_ok st -> state_ok (Get tableName recordID st).2.
Proof.
  intros (Hok & Hidx & Hfiles). destruct st as [fsl fs]. unfold Get.
  destruct (isOpen fsl); cbn [negb]; [|exact (conj Hok (conj Hidx Hfiles))].
  destruct (indexes fsl !! tableName) as [idx|]; [|exact (conj Hok (conj Hidx Hfiles))].
  destruct (bptree.Search idx recordID) as [rid|]; [|exact (conj Hok (conj Hidx Hfiles))].
  destruct (getPage_ok tableName (bptree.PageID rid) (fsl, fs) Hok) as (Hok1 & Hsame & _).
  pose proof (getPage_index_files tableName (bptree.PageID rid) (fsl, fs)) as Hf.
  destruct (getPage tableName (bptree.PageID rid) (fsl, fs)) as [[pg|e|] st1];
    cbn [fst snd] in *;
    (split; [exact Hok1|]; split; [exact (index_ok_same _ _ Hsame Hidx)|cbn [fst snd]; congruence]).
Qed.

Lemma state_ok_Update tableName recordID updatedRecord st :
  state_ok st -> state_ok (Update tableName recordID updatedRecord st).2.
Proof.
  intros (Hok & Hidx & Hfiles). destruct st as [fsl fs]. unfold Update.
  destruct (isOpen fsl); cbn [negb]; [|exact (conj Hok (conj Hidx Hfiles))].
  destruct (indexes fsl !! tableName) as [idx|] eqn:Hlook; [|exact (conj Hok (conj Hidx Hfiles))].
  unfold bptree.Search.
  destruct (bptree.index idx !! recordID) as [rid|] eqn:Hrid; [|exact (conj Hok (conj Hidx Hfiles))].
  pose proof (Hidx tableName idx recordID rid Hlook Hrid) as Hslot.
  destruct (getPage_ok tableName (bptree.PageID rid) (fsl, fs) Hok) as (Hok1 & Hsame & Hpg).
  pose proof (getPage_index_files tableName (bptree.PageID rid) (fsl, fs)) as Hf.
  destruct (getPage tableName (bptree.PageID rid) (fsl, fs)) as [[pg|e|] [fsl1 fs1]];
    cbn [fst snd] in *;
    try (split; [exact Hok1|]; split; [exact (index_ok_same _ _ Hsame Hidx)|cbn [fst snd]; congruence]).
  destruct (Hpg pg eq_refl) as [Hinv _].
  pose proof (UpdateRecord_inv pg (bptree.SlotID rid) updatedRecord Hinv Hslot) as Hinv'.
  destruct (page.UpdateRecord pg (bptree.SlotID rid) updatedRecord) as [r pg'].
  cbn [fst snd] in *. destruct Hok1 as [Hc Hh]. split.
  - split; [|exact Hh]. apply cache_ok_put_page; assumption.
  - split; [|cbn [fst snd]; congruence].
    eapply index_ok_same; [|exact Hidx].
    eapply same_tables_trans; [exact Hsame|apply same_tables_put_page].
Qed.

Lemma state_ok_DeleteRecord tableName recordID st :
  state_ok st -> state_ok (DeleteRecord tableName recordID st).2.
Proof.
  intros (Hok & Hidx & Hfiles). destruct st as [fsl fs]. unfold DeleteRecord.
  destruct (isOpen fsl); cbn [negb]; [|exact (conj Hok (conj Hidx Hfiles))].
  destruct (indexes fsl !! tableName) as [idx|] eqn:Hlook; [|exact (conj Hok (conj Hidx Hfiles))].
  unfold bptree.Search.
  destruct (bptree.index idx !! recordID) as [rid|] eqn:Hrid; [|exact (conj Hok (conj Hidx Hfiles))].
  pose proof (Hidx tableName idx recordID rid Hlook Hrid) as Hslot.
  destruct (getPage_ok tableName (bptree.PageID rid) (fsl, fs) Hok) as (Hok1 & Hsame & Hpg).
  pose proof (getPage_index_files tableName (bptree.PageID rid) (fsl, fs)) as Hf.
  destruct (getPage tableName (bptree.PageID rid) (fsl, fs)) as [[pg|e|] [fsl1 fs1]];
    cbn [fst snd] in *;
    try (split; [exact Hok1|]; split; [exact (index_ok_same _ _ Hsame Hidx)|cbn [fst snd]; congruence]).
  destruct (Hpg pg eq_refl) as [Hinv _].
  pose proof (DeleteRecord_inv pg (bptree.SlotID rid) Hinv Hslot) as Hinv'.
  destruct Hok1 as [Hc Hh].
  assert (index_ok (put_page fsl1 tableName (bptree.PageID rid)
                      (page.DeleteRecord pg (bptree.SlotID rid)).2)) as Hidx2.
  { eapply index_ok_same; [|exact Hidx].
    eapply same_tables_trans; [exact Hsame|apply same_tables_put_page]. }
  assert (layer_ok (put_page fsl1 tableName (bptree.PageID rid)
                      (page.DeleteRecord pg (bptree.SlotID rid)).2, fs1)) as Hok2.
  { split; [|exact Hh]. apply cache_ok_put_page; assumption. }
  destruct (page.DeleteRecord pg (bptree.SlotID rid)) as [[[]|e|] pg'];
    cbn [fst snd] in *;
    try (split; [exact Hok2|]; split; [exact Hidx2|cbn [fst snd]; congruence]).
  destruct (indexes (put_page fsl1 tableName (bptree.PageID rid) pg') !! tableName)
    as [idx2|] eqn:Hlook2; cbn [snd];
    [|split; [exact Hok2|]; split; [exact Hidx2|cbn [fst snd]; congruence]].
  unfold bptree.Delete.
  destruct (bptree.index idx2 !! recordID) eqn:Hin; cbn [snd].
  - split; [exact Hok2|]. split; [|cbn [fst snd]; congruence].
    apply index_ok_set; [exact Hidx2|]. cbn [bptree.index]. intros id rid'.
    intros Hdel. apply lookup_delete_Some in Hdel as [_ Hdel].
    apply (Hidx2 tableName idx2 id rid' Hlook2 Hdel).
  - split; [exact Hok2|]. split; [|cbn [fst snd]; congruence].
    apply index_ok_set; [exact Hidx2|]. intros id rid'.
    apply (Hidx2 tableName idx2 id rid' Hlook2).
Qed.

Lemma state_ok_CreateTable tableName schema st :
  state_ok st -> state_ok (CreateTable tableName schema st).2.
Proof.
  intros (Hok & Hidx & Hfiles).
  pose proof (CreateTable_ok tableName schema st Hok) as Hok'.
  destruct st as [fsl fs]. unfold CreateTable in *.
  destruct (isOpen fsl); cbn [negb] in *; [|exact (conj Hok (conj Hidx Hfiles))].
  unfold catalog.CreateTable in *.
  destruct (catalog.schemas (catalog fsl) !! tableName); [exact (conj Hok (conj Hidx Hfiles))|].
  cbn [catalog.Save fst snd] in *. split; [exact Hok'|]. split; [|exact Hfiles].
  intros t idx id rid. cbn [indexes fst].
  destruct (decide (t = tableName)) as [->|Hne].
  - rewrite lookup_insert_eq. intros [= <-]. cbn. rewrite lookup_empty. discriminate.
  - rewrite lookup_insert_ne by congruence. apply Hidx.
Qed.

Lemma state_ok_Open path st : state_ok st -> state_ok (Open path st).2.
Proof.
  intros (Hok & Hidx & Hfiles).
  pose proof (Open_ok path st Hok) as Hok'.
  destruct st as [fsl fs]. unfold Open in *.
  destruct (isOpen fsl); [exact (conj Hok (conj Hidx Hfiles))|].
  unfold disk.Open, catalog.Load in *. cbn [fst snd] in Hfiles.
  assert (forall tables t idx id rid,
            foldr (fun tableName i =>
                     <[tableName :=
                         (bptree.Load (bptree.NewSimpleIndex tableName path) fs).2]> i)
              (indexes fsl) tables !! t = Some idx ->
            bptree.index idx !! id = Some rid -> 0 <= bptree.SlotID rid) as Hfold.
  { induction tables as [|t' tables IH]; intros t idx id rid; cbn [foldr].
    - apply Hidx.
    - destruct (decide (t = t')) as [->|Hne].
      + rewrite lookup_insert_eq. intros [= <-]. unfold bptree.Load.
        rewrite Hfiles, lookup_empty. cbn. rewrite lookup_empty. discriminate.
      + rewrite lookup_insert_ne by congruence. apply IH. }
  destruct (host.catalog_files fs !! _); cbn [fst snd] in *;
    (split; [exact Hok'|]; split; [|exact Hfiles]);
    intros t idx id rid; cbn [indexes fst]; apply Hfold.
Qed.

(** Whatever the calls and their arguments, a layer that starts new on an
    empty directory keeps its cached pages and heap files within the page
    invariants. *)
Lemma reachable_state_ok calls :
  state_ok (exec_all (NewFileStorageLayer, host.empty_fs) calls).
Proof.
  assert (forall st, state_ok st -> state_ok (exec_all st calls)) as H.
  { induction calls as [|c calls IH]; intros st Hst; [exact Hst|].
    cbn [exec_all fold_left]. apply IH.
    destruct c; cbn [exec];
      [apply state_ok_Open|apply state_ok_CreateTable|apply state_ok_Insert
      |apply state_ok_Get|apply state_ok_Update|apply state_ok_DeleteRecord]; exact Hst. }
  apply H. split; [apply layer_ok_new|]. split; [|reflexivity].
  intros t idx id rid. cbn. rewrite lookup_empty. discriminate.
Qed.

End layer_properties.

(* ===================================================================== *)
(** * Part III: further properties of the code                            *)
(* ===================================================================== *)

(** ** The row codec: what is accepted, how long the record is, what comes
    back *)

Section codec_more.
Import record.

Lemma type_tags_distinct :
  TypeInt <> TypeFloat /\ TypeInt <> TypeString /\ TypeFloat <> TypeString.
Proof. repeat split; discriminate. Qed.

(** [serializeField] on a value that is not [nil]: it succeeds exactly on
    the accepted values, with [field_size] bytes, and never panics. *)
Lemma serializeField_cases col v :
  v <> Nil ->
  (accepted col v
   /\ exists d, serializeField col v = Ok d /\ length d = field_size v)
  \/ (~ accepted col v /\ exists e, serializeField col v = Err e).
Proof.
  intros Hnn. destruct type_tags_distinct as (D1 & D2 & D3).
  unfold serializeField.
  destruct (String.eqb_spec (ColType col) TypeInt) as [Hi|Hi].
  { destruct v; try congruence; cbn [accepted field_size].
    - left. split; [exact Hi|]. eexists. split; [reflexivity|apply length_put_le].
    - right. split; [congruence|eauto].
    - right. split; [intros [? _]; congruence|eauto].
    - right. split; [tauto|eauto]. }
  destruct (String.eqb_spec (ColType col) TypeFloat) as [Hf|Hf].
  { destruct v; try congruence; cbn [accepted field_size].
    - right. split; [congruence|eauto].
    - left. split; [exact Hf|]. eexists. split; [reflexivity|apply length_put_le].
    - right. split; [intros [? _]; congruence|eauto].
    - right. split; [tauto|eauto]. }
  destruct (String.eqb_spec (ColType col) TypeString) as [Hs|Hs].
  { destruct v as [|n|bits|s|]; try congruence; cbn [accepted field_size].
    - right. split; [congruence|eauto].
    - right. split; [congruence|eauto].
    - destruct (Z.ltb_spec (Length col) (len s)).
      + right. split; [intros [_ ?]; lia|eauto].
      + left. split; [split; [exact Hs|lia]|]. eexists. split; [reflexivity|].
        rewrite length_app, length_put_le. reflexivity.
    - right. split; [tauto|eauto]. }
  right. split; [|eauto].
  destruct v; try congruence; cbn [accepted]; tauto.
Qed.

Lemma serialize_loop_cases cols : forall i values result,
  length values = (i + length cols)%nat ->
  (i + length cols <= 8 * length result)%nat ->
  (Forall2 accepted cols (drop i values)
   /\ exists data,
        serialize_loop i cols values result = Ok data
        /\ length data = (length result + fields_size (drop i values))%nat)
  \/ (~ Forall2 accepted cols (drop i values)
      /\ exists e, serialize_loop i cols values result = Err e).
Proof.
  induction cols as [|col cols IH]; intros i values result Hlen Hbm.
  - left. cbn [length] in Hlen.
    rewrite drop_ge by lia. split; [constructor|].
    exists result. split; [reflexivity|]. cbn. lia.
  - cbn [length] in Hlen, Hbm.
    destruct (lookup_lt_is_Some_2 values i ltac:(lia)) as [v Hv].
    rewrite (drop_S _ _ _ Hv). cbn [serialize_loop fields_size foldr]. rewrite Hv.
    fold (fields_size (drop (S i) values)).
    destruct (value_nil_dec v) as [->|Hnn].
    + destruct (Nullable col) eqn:Hnull; cbn [negb].
      * assert (i / 8 < length result)%nat as Hidx.
        { pose proof (Nat.div_mod_eq i 8).
          pose proof (Nat.mod_upper_bound i 8 ltac:(lia)). lia. }
        destruct (lookup_lt_is_Some_2 result _ Hidx) as [b Hb]. rewrite Hb.
        destruct (IH (S i) values
                    (<[(i / 8)%nat :=
                        byte_of_Z (Z.lor (Z_of_byte b)
                                     (Z.shiftl 1 (Z.of_nat (i mod 8))))]> result))
          as [(Hacc & data & Hrun & Hsz)|(Hrej & e & Hrun)];
          [lia|rewrite length_insert; lia| |].
        -- left. split; [constructor; [exact Hnull|exact Hacc]|].
           exists data. split; [exact Hrun|].
           rewrite Hsz, length_insert. cbn [field_size]. lia.
        -- right. split; [|eauto]. intros H. apply Forall2_cons in H as [_ H]. auto.
      * right. split; [|eauto]. intros H. apply Forall2_cons in H as [H _].
        cbn in H. congruence.
    + assert (forall A (x y z : A),
                match v with Nil => x | _ => y end = y) as Hmatch
        by (intros; destruct v; congruence).
      destruct (serializeField_cases col v Hnn)
        as [(Hacc & d & Hd & Hdl)|(Hrej & e & He)].
      * destruct (IH (S i) values (result ++ d))
          as [(Hacc' & data & Hrun & Hsz)|(Hrej & e & Hrun)];
          [lia|rewrite length_app; lia| |].
        -- left. split; [constructor; assumption|].
           exists data. split.
           ++ destruct v; try congruence; rewrite Hd; exact Hrun.
           ++ rewrite Hsz, length_app, Hdl. lia.
        -- right. split; [intros H; apply Forall2_cons in H as [_ H]; auto|].
           exists e. destruct v; try congruence; rewrite Hd; exact Hrun.
      * right. split; [intros H; apply Forall2_cons in H as [H _]; auto|].
        exists (FieldError e). destruct v; try congruence; rewrite He; reflexivity.
Qed.

Lemma get_le_range bs : 0 <= get_le bs < 256 ^ len bs.
Proof.
  unfold len. induction bs as [|b bs IH].
  - cbn. lia.
  - rewrite get_le_cons. cbn [length]. rewrite Nat2Z.inj_succ, Z.pow_succ_r by lia.
    pose proof (Z_of_byte_range b). lia.
Qed.

Lemma get_le_take_range n (bs : list byte) :
  0 <= get_le (take n bs) < 256 ^ Z.of_nat n.
Proof.
  pose proof (get_le_range (take n bs)) as H.
  assert (256 ^ len (take n bs) <= 256 ^ Z.of_nat n).
  { apply Z.pow_le_mono_r; [lia|]. unfold len. rewrite length_take. lia. }
  lia.
Qed.

Lemma deserializeField_decoded col data v k :
  deserializeField col data = Ok (v, k) -> decoded col v.
Proof.
  unfold deserializeField.
  destruct (String.eqb_spec (ColType col) TypeInt) as [Hi|Hi].
  { destruct (len data <? 4); [discriminate|]. intros [= <- _].
    pose proof (get_le_take_range 4 data) as Hr.
    change (256 ^ Z.of_nat 4) with (2 ^ 32) in Hr.
    cbn [decoded]. rewrite to_int_small by lia. auto. }
  destruct (String.eqb_spec (ColType col) TypeFloat) as [Hf|Hf].
  { destruct (len data <? 8); [discriminate|]. intros [= <- _].
    pose proof (get_le_take_range 8 data) as Hr.
    change (256 ^ Z.of_nat 8) with (2 ^ 64) in Hr.
    cbn [decoded]. auto. }
  destruct (String.eqb_spec (ColType col) TypeString) as [Hs|Hs]; [|discriminate].
  destruct (len data <? 2); [discriminate|].
  destruct (len data <? 2 + get_le (take 2 data)); [discriminate|].
  destruct (Z.ltb_spec (to_uint16 (2 + get_le (take 2 data))) 2);
    [discriminate|]. intros [= <- _].
  cbn [decoded]. split; [exact Hs|].
  unfold len. rewrite length_take.
  assert (to_uint16 (2 + get_le (take 2 data)) < 2 ^ 16)
    by (unfold to_uint16, wrap_unsigned; apply Z.mod_pos_bound; lia).
  lia.
Qed.

Lemma deserialize_loop_decoded cols : forall i done data off acc values,
  length done = i ->
  length acc = (i + length cols)%nat ->
  Forall2 decoded done (take i acc) ->
  deserialize_loop i cols data off acc = Ok values ->
  Forall2 decoded (done ++ cols) values.
Proof.
  induction cols as [|col cols IH]; intros i done data off acc values Hi Hlen Hdone Hrun.
  - cbn [deserialize_loop] in Hrun. injection Hrun as <-.
    cbn [length] in Hlen. rewrite app_nil_r.
    rewrite take_ge in Hdone by lia. exact Hdone.
  - cbn [length] in Hlen. cbn [deserialize_loop] in Hrun.
    destruct (data !! (i / 8)%nat) as [b|]; [|discriminate].
    assert (forall v, decoded col v ->
              Forall2 decoded (done ++ [col]) (take (S i) (<[i := v]> acc))) as Hstep.
    { intros v Hv.
      rewrite (take_S_r _ _ v) by (apply list_lookup_insert_eq; lia).
      rewrite take_insert_ge by lia.
      apply Forall2_app; [exact Hdone|]. constructor; [exact Hv|constructor]. }
    replace (done ++ col :: cols) with ((done ++ [col]) ++ cols)
      by (rewrite <- app_assoc; reflexivity).
    destruct (negb _).
    + eapply (IH (S i)); [| |apply (Hstep Nil); exact I|exact Hrun].
      * rewrite length_app. cbn. lia.
      * rewrite length_insert. lia.
    + destruct (length data <? off)%nat; [discriminate|].
      destruct (deserializeField col (drop off data)) as [[v k]| |] eqn:Hf;
        [|discriminate|discriminate].
      eapply (IH (S i)); [| |apply (Hstep v)|exact Hrun].
      * rewrite length_app. cbn. lia.
      * rewrite length_insert. lia.
      * eapply deserializeField_decoded, Hf.
Qed.

(** X1. Round trip: on a schema with at least one column, a row whose values
    fit their columns is serialized, and deserializing the record gives the
    row back. *)
Theorem fitting_row_round_trips (schema : Schema) (values : list Value) :
  Columns schema <> [] ->
  Forall2 value_fits (Columns schema) values ->
  match Serialize schema values with
  | Ok data => Deserialize schema data = Ok values
  | _ => False
  end.
Proof.
  intros Hne Hfit.
  destruct (serialize_deserialize_roundtrip schema values Hne Hfit)
    as (data & -> & Hd). exact Hd.
Qed.

Lemma fitting_row_round_trips_witness :
  let schema :=
    {| Columns := [ {| Name := "id"; ColType := TypeInt; Length := 0; Nullable := false |};
                    {| Name := "name"; ColType := TypeString; Length := 8; Nullable := true |};
                    {| Name := "score"; ColType := TypeFloat; Length := 0; Nullable := true |} ] |} in
  Deserialize schema
    [x04; x2a; x00; x00; x00; x02; x00; x68; x69] = Ok [Int 42; Str [x68; x69]; Nil].
Proof.
  intros schema.
  assert (Columns schema <> []) as Hne by discriminate.
  assert (Forall2 value_fits (Columns schema) [Int 42; Str [x68; x69]; Nil]) as Hfit.
  { constructor; [split; [reflexivity|lia]|].
    constructor; [split; [reflexivity|unfold len; cbn; lia]|].
    constructor; [reflexivity|constructor]. }
  exact (fitting_row_round_trips schema [Int 42; Str [x68; x69]; Nil] Hne Hfit).
Defined.

(** X2. [Serialize] succeeds exactly on the rows it accepts: as many values
    as columns, [nil] only in nullable columns, every other value of its
    column's type, every string within the declared length.  On every other
    row it returns an error: it never panics. *)
Theorem serialize_succeeds_iff_accepted (schema : Schema) (values : list Value) :
  ((exists data, Serialize schema values = Ok data)
   <-> Forall2 accepted (Columns schema) values)
  /\ Serialize schema values <> Panic
  /\ (length values <> length (Columns schema) ->
      Serialize schema values = Err ValueCountMismatch).
Proof.
  assert (length values <> length (Columns schema) ->
          Serialize schema values = Err ValueCountMismatch) as Hcount.
  { intros Hne. unfold Serialize.
    destruct (Nat.eqb_spec (length values) (length (Columns schema))); [lia|reflexivity]. }
  destruct (decide (length values = length (Columns schema))) as [Hlen|Hlen].
  - assert (Serialize schema values
            = serialize_loop 0 (Columns schema) values
                (replicate ((length (Columns schema) + 7) / 8) x00)) as ->.
    { unfold Serialize. rewrite Hlen, Nat.eqb_refl. reflexivity. }
    destruct (serialize_loop_cases (Columns schema) 0 values
                (replicate ((length (Columns schema) + 7) / 8) x00))
      as [(Hacc & data & Hrun & _)|(Hrej & e & Hrun)].
    + cbn. exact Hlen.
    + rewrite length_replicate.
      pose proof (Nat.div_mod_eq (length (Columns schema) + 7) 8).
      pose proof (Nat.mod_upper_bound (length (Columns schema) + 7) 8 ltac:(lia)). lia.
    + rewrite drop_0 in Hacc. rewrite Hrun.
      split; [split; [intros _; exact Hacc|eauto]|]. split; [discriminate|].
      intros; lia.
    + rewrite drop_0 in Hrej. rewrite Hrun.
      split; [split; [intros [? ?]; discriminate|intros; contradiction]|].
      split; [discriminate|]. intros; lia.
  - rewrite (Hcount Hlen).
    split; [split; [intros [? ?]; discriminate|]|].
    + intros H. apply Forall2_length in H. lia.
    + split; [discriminate|auto].
Qed.

(** X3. The length of a record: the null bitmap, one bit per column rounded
    up to bytes, then 4 bytes per [int], 8 per [float64], 2 plus its length
    per string and nothing for [nil]. *)
Theorem serialized_record_length (schema : Schema) (values : list Value) data :
  Serialize schema values = Ok data ->
  length data
  = ((length (Columns schema) + 7) / 8 + fields_size values)%nat.
Proof.
  unfold Serialize.
  destruct (Nat.eqb_spec (length values) (length (Columns schema))) as [Hlen|];
    [|discriminate]. cbn [negb]. intros Hrun.
  destruct (serialize_loop_cases (Columns schema) 0 values
              (replicate ((length (Columns schema) + 7) / 8) x00))
    as [(_ & data' & Hrun' & Hsz)|(_ & e & Hrun')].
  - cbn. exact Hlen.
  - rewrite length_replicate.
    pose proof (Nat.div_mod_eq (length (Columns schema) + 7) 8).
    pose proof (Nat.mod_upper_bound (length (Columns schema) + 7) 8 ltac:(lia)). lia.
  - rewrite Hrun in Hrun'. injection Hrun' as <-.
    rewrite Hsz, length_replicate, drop_0. reflexivity.
  - congruence.
Qed.

Lemma serialized_record_length_witness :
  let schema :=
    {| Columns := [ {| Name := "id"; ColType := TypeInt; Length := 0; Nullable := false |};
                    {| Name := "name"; ColType := TypeString; Length := 8; Nullable := true |} ] |} in
  length [x00; xff; xff; xff; xff; x02; x00; x68; x69] = 9%nat.
Proof.
  intros schema.
  exact (serialized_record_length schema [Int (-1); Str [x68; x69]]
           [x00; xff; xff; xff; xff; x02; x00; x68; x69] eq_refl).
Defined.

(** X4. Whatever bytes it is given, a successful [Deserialize] returns one
    value per column, each [nil] or of the column's type: an [int] in
    [0, 2^32) (never a negative one), a [float64] bit pattern, a string
    shorter than 2^16 bytes. *)
Theorem deserialize_returns_typed_values (schema : Schema) data values :
  Deserialize schema data = Ok values ->
  Forall2 decoded (Columns schema) values.
Proof.
  unfold Deserialize.
  destruct (length data =? 0)%nat; [discriminate|].
  destruct (length data <? _)%nat; [discriminate|]. intros Hrun.
  apply (deserialize_loop_decoded (Columns schema) 0 [] _ _ _ _ eq_refl) in Hrun.
  - exact Hrun.
  - rewrite length_replicate. reflexivity.
  - constructor.
Qed.

Lemma deserialize_returns_typed_values_witness :
  let schema :=
    {| Columns := [ {| Name := "id"; ColType := TypeInt; Length := 0; Nullable := false |};
                    {| Name := "name"; ColType := TypeString; Length := 1; Nullable := false |} ] |} in
  Forall2 decoded (Columns schema) [Int 4294967295; Str [x68; x69]].
Proof.
  intros schema.
  exact (deserialize_returns_typed_values schema
           [x00; xff; xff; xff; xff; x02; x00; x68; x69]
           [Int 4294967295; Str [x68; x69]] eq_refl).
Defined.

End codec_more.

(** ** Slotted pages: what the records of a page are after each operation *)

Section page_more.
Import page.
Local Arguments readHeader : simpl never.
Local Arguments readSlot : simpl never.

Lemma GetRecord_beyond p i :
  SlotCount (readHeader p) <= i -> GetRecord p i = Err NoSuchSlot.
Proof.
  intros Hi. unfold GetRecord. cbv zeta.
  destruct (Z.leb_spec (SlotCount (readHeader p)) i); [reflexivity|lia].
Qed.

Lemma GetRecord_empty p i s :
  i < SlotCount (readHeader p) -> readSlot p i = Some s -> Size s = 0 ->
  GetRecord p i = Err EmptySlot.
Proof.
  intros Hi Hs Hz. unfold GetRecord. cbv zeta. rewrite Hs.
  destruct (Z.leb_spec (SlotCount (readHeader p)) i); [lia|].
  rewrite Hz. reflexivity.
Qed.

Lemma GetRecord_used p i s :
  page_inv p -> 0 <= i < SlotCount (readHeader p) ->
  readSlot p i = Some s -> Size s <> 0 ->
  GetRecord p i = Ok (slice (Data p) (Offset s) (Offset s + Size s)).
Proof.
  intros (Himg & Hhdr & Hreg & _) Hi Hs Hnz.
  destruct (Hreg i s Hi Hs Hnz) as (H1 & H2 & H3).
  destruct Hhdr as (Hsc & Hfs & Hle & Hfe).
  unfold GetRecord. cbv zeta. rewrite Hs.
  destruct (Z.leb_spec (SlotCount (readHeader p)) i); [lia|].
  destruct (Z.eqb_spec (Size s) 0); [lia|].
  assert ((Offset s <? 0) || (Size s <? 0) = false) as ->.
  { apply orb_false_iff. split; apply Z.ltb_ge; page_lia. }
  destruct (Z.ltb_spec PageSize (Offset s + Size s)); [lia|].
  rewrite to_int16_small by (change (2 ^ 15) with 32768; page_lia).
  assert (in_bounds (Offset s) (Offset s + Size s) = true) as ->.
  { apply in_bounds_true. page_lia. }
  reflexivity.
Qed.

(** Reading slot [i] gives the same on two pages that agree on whether [i]
    is a slot, on the slot entry and on the bytes of its record. *)
Lemma GetRecord_frame p q i :
  page_inv p -> page_inv q -> 0 <= i ->
  (SlotCount (readHeader q) <=? i) = (SlotCount (readHeader p) <=? i) ->
  (i < SlotCount (readHeader p) -> readSlot q i = readSlot p i) ->
  (forall s, i < SlotCount (readHeader p) -> readSlot p i = Some s -> Size s <> 0 ->
     slice (Data q) (Offset s) (Offset s + Size s)
     = slice (Data p) (Offset s) (Offset s + Size s)) ->
  GetRecord q i = GetRecord p i.
Proof.
  intros Hp Hq Hi Hsc Hslot Hsl.
  destruct (Z.leb_spec (SlotCount (readHeader p)) i) as [Hge|Hlt].
  - rewrite (GetRecord_beyond p i Hge). apply GetRecord_beyond.
    apply Z.leb_le. exact Hsc.
  - apply Z.leb_gt in Hsc.
    pose proof Hp as (_ & Hhdr & _).
    destruct (slot_in_directory p i Hhdr ltac:(lia)) as (_ & _ & Hs).
    specialize (Hslot Hlt). rewrite Hs in Hslot.
    destruct (Z.eq_dec (Size (slot_at (Data p) (slot_offset i))) 0) as [Hz|Hnz].
    + rewrite (GetRecord_empty p i _ Hlt Hs Hz).
      apply (GetRecord_empty q i _ Hsc Hslot Hz).
    + rewrite (GetRecord_used p i _ Hp ltac:(lia) Hs Hnz).
      rewrite (GetRecord_used q i _ Hq ltac:(lia) Hslot Hnz).
      f_equal. apply Hsl; assumption.
Qed.

Lemma GetRecord_total p i :
  page_inv p -> 0 <= i -> GetRecord p i <> Panic.
Proof.
  intros Hinv Hi. pose proof Hinv as (_ & Hhdr & _).
  destruct (Z.le_gt_cases (SlotCount (readHeader p)) i) as [Hge|Hlt].
  { rewrite (GetRecord_beyond p i Hge). discriminate. }
  destruct (slot_in_directory p i Hhdr ltac:(lia)) as (_ & _ & Hs).
  destruct (Z.eq_dec (Size (slot_at (Data p) (slot_offset i))) 0) as [Hz|Hnz].
  - rewrite (GetRecord_empty p i _ Hlt Hs Hz). discriminate.
  - rewrite (GetRecord_used p i _ Hinv ltac:(lia) Hs Hnz). discriminate.
Qed.


Lemma UpdateRecord_Ok_inv p slotID newRecord p' :
  page_inv p -> 0 <= slotID ->
  UpdateRecord p slotID newRecord = (Ok tt, p') ->
  slotID < SlotCount (readHeader p)
  /\ exists s, readSlot p slotID = Some s /\ Size s <> 0 /\ len newRecord = Size s
       /\ p' = {| PageID := PageID p;
                  Data := store (Data p) (Offset s) newRecord;
                  dirty := true |}.
Proof.
  intros Hinv Hsid Hrun. pose proof Hinv as (Himg & Hhdr & _).
  assert (slotID < SlotCount (readHeader p)) as Hlt.
  { revert Hrun. unfold UpdateRecord. cbv zeta.
    destruct (Z.leb_spec (SlotCount (readHeader p)) slotID); [discriminate|auto]. }
  destruct (slot_in_directory p slotID Hhdr ltac:(lia)) as (_ & _ & Hs).
  set (s := slot_at (Data p) (slot_offset slotID)) in *.
  assert (Size s <> 0 /\ len newRecord = Size s) as [Hnz Hlen].
  { revert Hrun. unfold UpdateRecord. cbv zeta. rewrite Hs.
    destruct (Z.leb_spec (SlotCount (readHeader p)) slotID); [discriminate|].
    destruct (Z.eqb_spec (Size s) 0); [discriminate|].
    destruct (Z.eqb_spec (len newRecord) (Size s)); [auto|discriminate]. }
  split; [exact Hlt|]. exists s. repeat split; try assumption.
  rewrite (UpdateRecord_ok p slotID newRecord s Hinv ltac:(lia) Hs Hnz Hlen) in Hrun.
  congruence.
Qed.

(** The header of a page after one operation: the free space does not grow
    and the slot directory does not shrink. *)
Lemma apply_op_header p o :
  page_inv p -> slot_arg_nonneg o ->
  FreeEnd (readHeader (apply_op p o)) - FreeStart (readHeader (apply_op p o))
    <= FreeEnd (readHeader p) - FreeStart (readHeader p)
  /\ FreeEnd (readHeader (apply_op p o)) <= FreeEnd (readHeader p)
  /\ SlotCount (readHeader p) <= SlotCount (readHeader (apply_op p o)).
Proof.
  intros Hinv Harg. pose proof Hinv as (Himg & Hhdr & Hreg & _).
  destruct o as [record|slotID newRecord|slotID]; cbn [apply_op slot_arg_nonneg] in *.
  - destruct (InsertRecord_cases p record Hinv)
      as [(_ & ->)|(_ & slotID & appended & p' & -> & Hpost)]; cbn [snd]; [lia|].
    destruct Hpost as (_ & _ & _ & _ & -> & _). cbn [FreeEnd FreeStart SlotCount].
    unfold len. destruct appended; page_lia.
  - destruct (UpdateRecord p slotID newRecord) as [[[]|e|] q] eqn:Hrun; cbn [snd].
    + destruct (UpdateRecord_Ok_inv _ _ _ _ Hinv Harg Hrun)
        as (Hlt & s & Hs & Hnz & Hlen & ->).
      destruct (Hreg slotID s ltac:(lia) Hs Hnz) as (H1 & H2 & H3).
      destruct Hhdr as (Hsc & Hfs & Hle & Hfe).
      rewrite (readHeader_store p {| PageID := PageID p;
                                     Data := store (Data p) (Offset s) newRecord;
                                     dirty := true |}
                 (Offset s) newRecord Himg eq_refl) by page_lia.
      lia.
    + assert (q = p) as ->; [|lia].
      revert Hrun. unfold UpdateRecord. cbv zeta.
      repeat (match goal with
              | |- context [if ?c then _ else _] => destruct c
              | |- context [match ?c with Some _ => _ | None => _ end] => destruct c
              end; try congruence).
    + assert (q = p) as ->; [|lia].
      revert Hrun. unfold UpdateRecord. cbv zeta.
      repeat (match goal with
              | |- context [if ?c then _ else _] => destruct c
              | |- context [match ?c with Some _ => _ | None => _ end] => destruct c
              end; try congruence).
  - destruct (Z.leb_spec (SlotCount (readHeader p)) slotID) as [Hge|Hlt].
    { unfold DeleteRecord. cbv zeta.
      destruct (Z.leb_spec (SlotCount (readHeader p)) slotID); [cbn [snd]; lia|lia]. }
    destruct (slot_in_directory p slotID Hhdr ltac:(lia)) as (_ & _ & Hs).
    destruct (Z.eq_dec (Size (slot_at (Data p) (slot_offset slotID))) 0) as [Hz|Hnz].
    { unfold DeleteRecord. cbv zeta. rewrite Hs, Hz.
      change (0 =? 0) with true. cbv iota.
      destruct (Z.leb_spec (SlotCount (readHeader p)) slotID); [lia|cbn [snd]; lia]. }
    destruct (DeleteRecord_ok p slotID Hinv ltac:(lia))
      as (p' & -> & _ & Hh & _); [eexists; eauto|]. cbn [snd]. rewrite Hh. lia.
Qed.

Lemma InsertRecord_effect p record slotID p' :
  page_inv p ->
  InsertRecord p record = (Ok slotID, p') ->
  0 <= slotID
  /\ (record <> [] -> GetRecord p' slotID = Ok record)
  /\ (forall j, 0 <= j -> j <> slotID -> GetRecord p' j = GetRecord p j).
Proof.
  intros Hinv Hrun.
  destruct (InsertRecord_Ok_inv _ _ _ _ Hinv Hrun) as (Hfit & appended & Hpost).
  pose proof (insert_post_inv _ _ _ _ _ Hinv Hfit Hpost) as Hinv'.
  pose proof Hinv as (Himg & Hhdr & Hreg & _).
  pose proof Hhdr as (Hsc & _).
  destruct Hpost as (Hch & _ & _ & _ & Hh' & _ & Hothers & Hslice & _).
  assert (0 <= slotID) as Hsid.
  { unfold chosen_slot in Hch. destruct appended; [destruct Hch as [-> _]|]; lia. }
  split; [exact Hsid|]. split.
  - intros Hne. exact (GetRecord_inserted _ _ _ _ Hinv Hne Hrun).
  - intros j Hj Hjs. apply GetRecord_frame; try assumption.
    + rewrite Hh'. cbn [SlotCount]. unfold chosen_slot in Hch.
      destruct appended; [destruct Hch as [-> _]|reflexivity].
      destruct (Z.leb_spec (SlotCount (readHeader p) + 1) j),
               (Z.leb_spec (SlotCount (readHeader p)) j); try reflexivity; lia.
    + intros Hlt. apply Hothers; [lia|exact Hjs].
    + intros s Hlt Hs Hnz. apply Hslice.
      apply (Hreg j s); [lia|exact Hs|exact Hnz].
Qed.

(** X5. On a page that meets the page invariants a successful
    [InsertRecord] changes what [GetRecord] returns at the returned slot
    only: there it returns the inserted record (of at least one byte), and
    every other slot index reads as before. *)
Theorem insert_record_keeps_other_records p record slotID p' :
  page_inv p ->
  InsertRecord p record = (Ok slotID, p') ->
  0 <= slotID
  /\ (record <> [] -> GetRecord p' slotID = Ok record)
  /\ (forall j, 0 <= j -> j <> slotID -> GetRecord p' j = GetRecord p j).
Proof. apply InsertRecord_effect. Qed.

Lemma insert_record_keeps_other_records_witness :
  let p := run (NewPage 0) [OpInsert [x01; x02]] in
  let p' := snd (InsertRecord p [x03]) in
  GetRecord p' 1 = Ok [x03] /\ GetRecord p' 0 = GetRecord p 0.
Proof.
  intros p p'.
  assert (page_inv p) as Hp by (apply run_inv; [apply NewPage_inv|repeat constructor]).
  assert (InsertRecord p [x03] = (Ok 1, p')) as Hrun by (vm_compute; reflexivity).
  destruct (insert_record_keeps_other_records p [x03] 1 p' Hp Hrun) as (_ & Hget & Hfr).
  split; [apply Hget; discriminate|apply Hfr; lia].
Defined.

Lemma DeleteRecord_effect p slotID p' :
  page_inv p -> 0 <= slotID ->
  DeleteRecord p slotID = (Ok tt, p') ->
  GetRecord p' slotID = Err EmptySlot
  /\ DeleteRecord p' slotID = (Err AlreadyEmpty, p')
  /\ readHeader p' = readHeader p
  /\ (forall j, 0 <= j -> j <> slotID -> GetRecord p' j = GetRecord p j).
Proof.
  intros Hinv Hsid Hrun.
  destruct (DeleteRecord_Ok_inv _ _ _ Hinv Hsid Hrun) as (Hlt & Hused).
  pose proof (DeleteRecord_inv p slotID Hinv Hsid) as Hinv'.
  rewrite Hrun in Hinv'. cbn [snd] in Hinv'.
  destruct (DeleteRecord_ok p slotID Hinv ltac:(lia) Hused)
    as (p'' & Hrun' & _ & Hh & Hnew & Hothers & Hslice).
  assert (p'' = p') as -> by congruence.
  pose proof Hinv as (Himg & Hhdr & Hreg & _).
  destruct Hhdr as (Hsc & Hfs & Hle & Hfe).
  split; [|split; [|split; [exact Hh|]]].
  - apply (GetRecord_empty p' slotID _ ltac:(rewrite Hh; lia) Hnew). reflexivity.
  - unfold DeleteRecord. cbv zeta. rewrite Hh, Hnew.
    destruct (Z.leb_spec (SlotCount (readHeader p)) slotID); [lia|]. reflexivity.
  - intros j Hj Hjs. apply GetRecord_frame; try assumption.
    + rewrite Hh. reflexivity.
    + intros Hjlt. apply Hothers; [lia|exact Hjs].
    + intros s Hjlt Hs Hnz. apply Hslice.
      destruct (Hreg j s ltac:(lia) Hs Hnz) as (H1 & _). lia.
Qed.

(** X6. On a page that meets the page invariants a successful
    [DeleteRecord] empties its slot and nothing else: [GetRecord] of the
    slot reports an empty slot, a second [DeleteRecord] is refused without
    changing the page, every other slot index reads as before, and the
    header is unchanged, so the bytes of the deleted record are not given
    back to the free space. *)
Theorem delete_record_empties_one_slot p slotID p' :
  page_inv p -> 0 <= slotID ->
  DeleteRecord p slotID = (Ok tt, p') ->
  GetRecord p' slotID = Err EmptySlot
  /\ DeleteRecord p' slotID = (Err AlreadyEmpty, p')
  /\ readHeader p' = readHeader p
  /\ (forall j, 0 <= j -> j <> slotID -> GetRecord p' j = GetRecord p j).
Proof. apply DeleteRecord_effect. Qed.

Lemma delete_record_empties_one_slot_witness :
  let p := run (NewPage 0) [OpInsert [x01; x02]; OpInsert [x03]] in
  let p' := snd (DeleteRecord p 0) in
  GetRecord p' 0 = Err EmptySlot
  /\ GetRecord p' 1 = Ok [x03]
  /\ FreeEnd (readHeader p') = 4093.
Proof.
  intros p p'.
  assert (page_inv p) as Hp by (apply run_inv; [apply NewPage_inv|repeat constructor]).
  assert (DeleteRecord p 0 = (Ok tt, p')) as Hrun by (vm_compute; reflexivity).
  destruct (delete_record_empties_one_slot p 0 p' Hp ltac:(lia) Hrun)
    as (Hget & _ & Hh & Hfr).
  split; [exact Hget|]. split.
  - rewrite (Hfr 1) by lia. vm_compute. reflexivity.
  - rewrite Hh. vm_compute. reflexivity.
Defined.

Lemma UpdateRecord_effect p slotID newRecord p' :
  page_inv p -> 0 <= slotID ->
  UpdateRecord p slotID newRecord = (Ok tt, p') ->
  GetRecord p' slotID = Ok newRecord
  /\ readHeader p' = readHeader p
  /\ (forall j, 0 <= j -> j <> slotID -> GetRecord p' j = GetRecord p j).
Proof.
  intros Hinv Hsid Hrun.
  pose proof (UpdateRecord_inv p slotID newRecord Hinv Hsid) as Hinv'.
  rewrite Hrun in Hinv'. cbn [snd] in Hinv'.
  destruct (UpdateRecord_Ok_inv _ _ _ _ Hinv Hsid Hrun)
    as (Hlt & s & Hs & Hnz & Hlen & Hp').
  pose proof Hinv as (Himg & Hhdr & Hreg & Hdis).
  destruct (Hreg slotID s ltac:(lia) Hs Hnz) as (H1 & H2 & H3).
  pose proof Hhdr as (Hsc & Hfs & Hle & Hfe).
  assert (Data p' = store (Data p) (Offset s) newRecord) as Hd by (rewrite Hp'; reflexivity).
  assert (readHeader p' = readHeader p) as Hh.
  { apply (readHeader_store p p' (Offset s) newRecord Himg Hd); page_lia. }
  assert (forall j, 0 <= j < SlotCount (readHeader p) ->
            readSlot p' j = readSlot p j) as Hslots.
  { intros j Hj.
    destruct (slot_in_directory p j Hhdr Hj) as (_ & Hdir & _).
    apply (readSlot_store p p' (Offset s) newRecord j Himg Hd); page_lia. }
  split; [|split; [exact Hh|]].
  - rewrite (GetRecord_used p' slotID s Hinv'); try assumption.
    + rewrite Hd. f_equal. apply slice_store_same; page_lia.
    + rewrite Hh. lia.
    + rewrite Hslots by lia. exact Hs.
  - intros j Hj Hjs. apply GetRecord_frame; try assumption.
    + rewrite Hh. reflexivity.
    + intros Hjlt. apply Hslots. lia.
    + intros t Hjlt Ht Htnz. rewrite Hd.
      destruct (Hreg j t ltac:(lia) Ht Htnz) as (T1 & T2 & T3).
      apply slice_store_other; try page_lia.
      rewrite Hlen.
      destruct (Hdis slotID j s t ltac:(lia) ltac:(lia) ltac:(congruence) Hs Ht Hnz Htnz);
        [right|left]; lia.
Qed.

(** X7. On a page that meets the page invariants a successful
    [UpdateRecord] replaces the record of its slot and nothing else:
    [GetRecord] of the slot returns the new bytes, every other slot index
    reads as before, and the header is unchanged. *)
Theorem update_record_then_get p slotID newRecord p' :
  page_inv p -> 0 <= slotID ->
  UpdateRecord p slotID newRecord = (Ok tt, p') ->
  GetRecord p' slotID = Ok newRecord
  /\ readHeader p' = readHeader p
  /\ (forall j, 0 <= j -> j <> slotID -> GetRecord p' j = GetRecord p j).
Proof. apply UpdateRecord_effect. Qed.

Lemma update_record_then_get_witness :
  let p := run (NewPage 0) [OpInsert [x01; x02]; OpInsert [x03]] in
  let p' := snd (UpdateRecord p 0 [x07; x08]) in
  GetRecord p' 0 = Ok [x07; x08] /\ GetRecord p' 1 = Ok [x03].
Proof.
  intros p p'.
  assert (page_inv p) as Hp by (apply run_inv; [apply NewPage_inv|repeat constructor]).
  assert (UpdateRecord p 0 [x07; x08] = (Ok tt, p')) as Hrun by (vm_compute; reflexivity).
  destruct (update_record_then_get p 0 [x07; x08] p' Hp ltac:(lia) Hrun)
    as (Hget & _ & Hfr).
  split; [exact Hget|]. rewrite (Hfr 1) by lia. vm_compute. reflexivity.
Defined.

(** X8. On a page that meets the page invariants [GetRecord] of a slot index
    that is not negative has one of three outcomes: no such slot, exactly
    for the indexes from [SlotCount] on; empty slot, exactly for the slots
    of size 0; or the record, which has the size of its slot and at least
    one byte.  It reports no corrupt slot and does not panic. *)
Theorem get_record_outcomes p slotID :
  page_inv p -> 0 <= slotID ->
  match GetRecord p slotID with
  | Ok record =>
      slotID < SlotCount (readHeader p)
      /\ exists s, readSlot p slotID = Some s
                   /\ 0 < Size s /\ len record = Size s
  | Err e =>
      (e = NoSuchSlot /\ SlotCount (readHeader p) <= slotID)
      \/ (e = EmptySlot /\ slotID < SlotCount (readHeader p) /\ slot_empty p slotID)
  | Panic => False
  end.
Proof.
  intros Hinv Hsid. pose proof Hinv as (Himg & Hhdr & Hreg & _).
  destruct (Z.le_gt_cases (SlotCount (readHeader p)) slotID) as [Hge|Hlt].
  { rewrite (GetRecord_beyond p slotID Hge). left. auto. }
  destruct (slot_in_directory p slotID Hhdr ltac:(lia)) as (_ & _ & Hs).
  set (s := slot_at (Data p) (slot_offset slotID)) in *.
  destruct (Z.eq_dec (Size s) 0) as [Hz|Hnz].
  { rewrite (GetRecord_empty p slotID s ltac:(lia) Hs Hz). right.
    split; [reflexivity|]. split; [lia|]. exists s. auto. }
  rewrite (GetRecord_used p slotID s Hinv ltac:(lia) Hs Hnz).
  destruct (Hreg slotID s ltac:(lia) Hs Hnz) as (H1 & H2 & H3).
  destruct Hhdr as (Hsc & Hfs & Hle & Hfe).
  split; [lia|]. exists s. split; [exact Hs|]. split; [exact H2|].
  rewrite len_slice by page_lia. lia.
Qed.

Lemma get_record_outcomes_witness :
  let p := run (NewPage 0) [OpInsert [x01; x02]; OpInsert [x03]; OpDelete 0] in
  GetRecord p 0 = Err EmptySlot \/ GetRecord p 0 = Err NoSuchSlot.
Proof.
  intros p.
  assert (page_inv p) as Hp by (apply run_inv; [apply NewPage_inv|repeat constructor; cbn; lia]).
  pose proof (get_record_outcomes p 0 Hp ltac:(lia)) as H.
  destruct (GetRecord p 0) as [r|e|]; [|destruct H as [[-> _]|[-> _]]; auto|destruct H].
  exfalso. destruct H as (_ & s & Hs & Hpos & _).
  assert (readSlot p 0 = Some {| Offset := 0; Size := 0 |}) as Hs'
    by (vm_compute; reflexivity).
  rewrite Hs' in Hs. apply (inj Some) in Hs. subst s. cbn in Hpos. lia.
Defined.

(** X9. A new page: the header holds the page ID (a signed 32-bit value),
    no slots, free space from byte 18 to byte 4096 and no neighbours; no
    slot index holds a record; a first record of up to 4074 bytes goes to
    slot 0 and a longer one is refused; and the image loads back as the
    same page, marked clean. *)
Theorem new_page_is_empty pageID :
  - 2 ^ 31 <= pageID < 2 ^ 31 ->
  readHeader (NewPage pageID)
  = {| HdrPageID := pageID; SlotCount := 0; FreeStart := 18; FreeEnd := 4096;
       NextPageID := -1; PrevPageID := -1 |}
  /\ IsDirty (NewPage pageID) = true
  /\ (forall slotID, 0 <= slotID -> GetRecord (NewPage pageID) slotID = Err NoSuchSlot)
  /\ (forall record,
        (len record <= 4074 ->
           exists p', InsertRecord (NewPage pageID) record = (Ok 0, p'))
        /\ (4074 < len record ->
              InsertRecord (NewPage pageID) record = (Err PageFull, NewPage pageID)))
  /\ LoadPage pageID (GetData (NewPage pageID)) = Some (SetClean (NewPage pageID)).
Proof.
  intros Hid.
  assert (readHeader (NewPage pageID)
          = {| HdrPageID := pageID; SlotCount := 0; FreeStart := 18; FreeEnd := 4096;
               NextPageID := -1; PrevPageID := -1 |}) as Hh.
  { rewrite NewPage_header, to_int32_uint32 by exact Hid. reflexivity. }
  pose proof (NewPage_inv pageID) as Hinv.
  split; [exact Hh|]. split; [reflexivity|]. split; [|split].
  - intros slotID Hs. apply GetRecord_beyond. rewrite Hh. cbn [SlotCount]. exact Hs.
  - intros record. split.
    + intros Hlen.
      destruct (InsertRecord_fits (NewPage pageID) record Hinv)
        as (slotID & appended & p' & Hrun & Hpost).
      { rewrite Hh. cbn [FreeEnd FreeStart]. page_lia. }
      destruct Hpost as (Hch & _). unfold chosen_slot in Hch.
      rewrite Hh in Hch. cbn [SlotCount] in Hch.
      destruct appended; [destruct Hch as [-> _]; eauto|lia].
    + intros Hlen. apply InsertRecord_full.
      rewrite Hh. cbn [FreeEnd FreeStart]. page_lia.
  - destruct Hinv as (Himg & _). unfold LoadPage, GetData.
    unfold image_ok in Himg. rewrite Himg, Z.eqb_refl. reflexivity.
Qed.

Lemma new_page_is_empty_witness :
  GetRecord (NewPage 7) 0 = Err NoSuchSlot
  /\ HdrPageID (readHeader (NewPage 7)) = 7.
Proof.
  destruct (new_page_is_empty 7 ltac:(lia)) as (Hh & _ & Hget & _).
  split; [apply Hget; lia|rewrite Hh; reflexivity].
Defined.

(** X10. Along any sequence of [InsertRecord], [UpdateRecord] and
    [DeleteRecord] with slot arguments that are not negative, on a page that
    meets the page invariants, the free space never grows ([FreeEnd] never
    moves up: the bytes of deleted records are never reused) and the slot
    directory never shrinks. *)
Theorem free_space_never_grows p ops :
  page_inv p -> Forall slot_arg_nonneg ops ->
  FreeEnd (readHeader (run p ops)) - FreeStart (readHeader (run p ops))
    <= FreeEnd (readHeader p) - FreeStart (readHeader p)
  /\ FreeEnd (readHeader (run p ops)) <= FreeEnd (readHeader p)
  /\ SlotCount (readHeader p) <= SlotCount (readHeader (run p ops)).
Proof.
  revert p. induction ops as [|o ops IH]; intros p Hinv Hargs.
  - cbn. lia.
  - apply Forall_cons in Hargs as [Harg Hargs].
    change (run p (o :: ops)) with (run (apply_op p o) ops).
    pose proof (apply_op_header p o Hinv Harg).
    assert (page_inv (apply_op p o)) as Hinv'.
    { exact (run_inv [o] p Hinv (Forall_cons_2 _ _ _ Harg (Forall_nil_2 _))). }
    pose proof (IH _ Hinv' Hargs). lia.
Qed.

Lemma free_space_never_grows_witness :
  let ops := [OpInsert [x01; x02]; OpDelete 0; OpInsert [x03]] in
  FreeEnd (readHeader (run (NewPage 0) ops)) <= 4096.
Proof.
  intros ops.
  assert (Forall slot_arg_nonneg ops) as Hargs by (repeat constructor; cbn; lia).
  destruct (free_space_never_grows (NewPage 0) ops (NewPage_inv 0) Hargs) as (_ & H & _).
  rewrite NewPage_header in H. exact H.
Defined.

End page_more.

(** ** The index: the IDs in use *)

Section index_more.
Import bptree.

Lemma run_keys lo ops : forall si,
  - 2 ^ 63 <= nextID si -> lo <= nextID si ->
  nextID si + count_inserts ops < 2 ^ 63 ->
  (forall id, is_Some (index si !! id) -> lo <= id < nextID si) ->
  nextID (run si ops).2 = nextID si + count_inserts ops
  /\ forall id, is_Some (index (run si ops).2 !! id) ->
       lo <= id < nextID (run si ops).2.
Proof.
  induction ops as [|o ops IH]; intros si Hlo Hge Hhi Hkeys.
  - cbn [run snd]. unfold count_inserts, len. cbn. split; [lia|exact Hkeys].
  - rewrite count_inserts_cons in *. pose proof (count_inserts_nonneg ops) as Hc.
    destruct o as [rid|id|id rid|id]; cbn [is_insert] in *.
    + cbn [run]. unfold Insert.
      set (si' := {| tableName := tableName si; basePath := basePath si;
                     index := <[nextID si := rid]> (index si);
                     nextID := to_int (nextID si + 1) |}).
      assert (nextID si' = nextID si + 1) as Hn
        by (cbn [si' nextID]; apply to_int_small; lia).
      destruct (IH si') as [Hnext Hk]; [lia|lia|lia| |].
      { intros id. cbn [si' index]. rewrite Hn.
        destruct (decide (id = nextID si)) as [->|Hne]; [lia|].
        rewrite lookup_insert_ne by congruence.
        intros Hin. apply Hkeys in Hin. lia. }
      destruct (run si' ops) as [ids si''] eqn:Hrun. cbn [snd] in *.
      split; [lia|exact Hk].
    + cbn [run]. unfold Delete.
      destruct (index si !! id) eqn:Hid; cbn [snd].
      * set (si' := {| tableName := tableName si; basePath := basePath si;
                       index := delete id (index si); nextID := nextID si |}).
        destruct (IH si') as [Hnext Hk]; cbn [si' nextID index]; [lia|lia|lia| |].
        { intros id' [r' Hr]. apply lookup_delete_Some in Hr as [_ Hr].
          apply Hkeys. eauto. }
        split; [rewrite Hnext; cbn [si' nextID]; lia|exact Hk].
      * destruct (IH si) as [Hnext Hk]; [lia|lia|lia|exact Hkeys|].
        split; [lia|exact Hk].
    + cbn [run]. unfold Update.
      destruct (index si !! id) eqn:Hid; cbn [snd].
      * set (si' := {| tableName := tableName si; basePath := basePath si;
                       index := <[id := rid]> (index si); nextID := nextID si |}).
        destruct (IH si') as [Hnext Hk]; cbn [si' nextID index]; [lia|lia|lia| |].
        { intros id' [r' Hr]. apply lookup_insert_Some in Hr as [[<- _]|[_ Hr]];
            apply Hkeys; eauto. }
        split; [rewrite Hnext; cbn [si' nextID]; lia|exact Hk].
      * destruct (IH si) as [Hnext Hk]; [lia|lia|lia|exact Hkeys|].
        split; [lia|exact Hk].
    + cbn [run]. destruct (IH si) as [Hnext Hk]; [lia|lia|lia|exact Hkeys|].
      split; [lia|exact Hk].
Qed.

(** X11. On an index reached from [NewSimpleIndex] by any sequence of
    [Insert], [Delete], [Update] and [Search], the next ID is one more than
    the number of insertions and every ID in the map lies in [1, nextID):
    the ID that the next [Insert] issues is not in use, so an [Insert] never
    overwrites an entry, and the ID of a deleted record is not issued
    again. *)
Theorem index_ids_below_next tableName basePath ops :
  count_inserts ops < 2 ^ 63 - 1 ->
  let si := (run (NewSimpleIndex tableName basePath) ops).2 in
  nextID si = 1 + count_inserts ops
  /\ (forall id rid, Search si id = Some rid -> 1 <= id < nextID si)
  /\ Search si (nextID si) = None
  /\ forall rid id, id <> nextID si ->
       Search (Insert si rid).2 id = Search si id.
Proof.
  intros Hbound si.
  destruct (run_keys 1 ops (NewSimpleIndex tableName basePath)) as [Hnext Hk];
    cbn [NewSimpleIndex nextID index]; [lia|lia|lia| |].
  { intros id [r Hr]. rewrite lookup_empty in Hr. discriminate. }
  fold si in Hnext, Hk. cbn [NewSimpleIndex nextID] in Hnext.
  split; [exact Hnext|]. split; [|split].
  - intros id rid Hs. apply Hk. unfold Search in Hs. eauto.
  - unfold Search. destruct (index si !! nextID si) eqn:Hin; [|reflexivity].
    specialize (Hk (nextID si) ltac:(eauto)). lia.
  - intros rid id Hne. unfold Search, Insert. cbn [snd index].
    apply lookup_insert_ne. congruence.
Qed.

Lemma index_ids_below_next_witness :
  let r := {| PageID := 0; SlotID := 0 |} in
  let ops := [OpInsert r; OpInsert r; OpDelete 2; OpInsert r] in
  Search (run (NewSimpleIndex "users" "db") ops).2 4 = None.
Proof.
  intros r ops.
  assert (count_inserts ops < 2 ^ 63 - 1) as Hb by (vm_compute; reflexivity).
  destruct (index_ids_below_next "users" "db" ops Hb) as (Hn & _ & Hfree & _).
  rewrite Hn in Hfree. exact Hfree.
Defined.

End index_more.

(** ** The disk manager: pages of a heap file *)

Section disk_more.
Import disk.

Lemma getFile_open dm fs tableName :
  tableName ∈ files dm -> getFile dm fs tableName = (Ok tt, dm, fs).
Proof. intros Hin. unfold getFile. destruct (decide _); [reflexivity|contradiction]. Qed.

(** [getFile] opens the table's file, creating it empty when it is missing;
    the contents of every heap file stay what they were. *)
Lemma getFile_result dm fs tableName :
  exists dm' fs',
    getFile dm fs tableName = (Ok tt, dm', fs')
    /\ basePath dm' = basePath dm
    /\ tableName ∈ files dm'
    /\ (forall t, t ∈ files dm -> t ∈ files dm')
    /\ (forall t, contents dm' fs' t = contents dm fs t)
    /\ (forall t, t <> tableName -> pageCounter dm' !! t = pageCounter dm !! t)
    /\ host.catalog_files fs' = host.catalog_files fs
    /\ host.index_files fs' = host.index_files fs.
Proof.
  unfold getFile. destruct (decide (tableName ∈ files dm)) as [Hin|Hout].
  { exists dm, fs. repeat split; auto. }
  eexists _, _. split; [reflexivity|]. cbn [basePath files pageCounter].
  split; [reflexivity|]. split; [set_solver|]. split; [set_solver|].
  split; [|split; [|split]].
  - intros t. unfold contents, filePath. cbn [basePath].
    destruct (host.heap_files fs !! host.Join (basePath dm) (tableName +:+ ".tbl"))
      as [old|] eqn:Hold; [reflexivity|].
    cbn [host.set_heap host.heap_files].
    destruct (decide (host.Join (basePath dm) (t +:+ ".tbl")
                      = host.Join (basePath dm) (tableName +:+ ".tbl"))) as [->|Hne].
    + rewrite lookup_insert_eq, Hold. reflexivity.
    + rewrite lookup_insert_ne by congruence. reflexivity.
  - intros t Hne. destruct (pageCounter dm !! tableName); [reflexivity|].
    apply lookup_insert_ne. congruence.
  - destruct (host.heap_files fs !! filePath dm tableName); reflexivity.
  - destruct (host.heap_files fs !! filePath dm tableName); reflexivity.
Qed.

Lemma ReadPage_page_at dm fs tableName pageID :
  (ReadPage dm fs tableName pageID).1.1 = page_at (contents dm fs tableName) pageID.
Proof.
  unfold ReadPage.
  destruct (getFile_result dm fs tableName) as (dm' & fs' & -> & _ & _ & _ & Hc & _).
  rewrite Hc. unfold page_at. cbv zeta.
  destruct (_ || _); reflexivity.
Qed.









Lemma AllocatePage_result dm fs tableName :
  exists dm0 fs', 
    getFile dm fs tableName = (Ok tt, dm0, fs')
    /\ AllocatePage dm fs tableName
       = (Ok (GetPageCount dm0 tableName),
          {| basePath := basePath dm0; files := files dm0;
             pageCounter := <[tableName := to_int32 (GetPageCount dm0 tableName + 1)]>
                              (pageCounter dm0) |},
          fs').
Proof.
  unfold AllocatePage.
  destruct (getFile_result dm fs tableName) as (dm0 & fs' & -> & _).
  exists dm0, fs'. split; reflexivity.
Qed.



End disk_more.

(** ** The catalog *)

Section catalog_more.
Import catalog.


(** X15. [ListTables] lists every table of the catalog once, and nothing
    else. *)
Theorem list_tables_lists_each_table_once cm :
  NoDup (ListTables cm)
  /\ forall t, t ∈ ListTables cm <-> TableExists cm t = true.
Proof.
  unfold ListTables, TableExists. split.
  - apply NoDup_fst_map_to_list.
  - intros t. rewrite bool_decide_eq_true. split.
    + intros Hin. apply list_elem_of_fmap in Hin as ([t' sch] & -> & Hin).
      apply elem_of_map_to_list in Hin. cbn. eauto.
    + intros [sch Hsch]. apply list_elem_of_fmap. exists (t, sch).
      split; [reflexivity|]. apply elem_of_map_to_list. exact Hsch.
Qed.

End catalog_more.

(** ** The storage layer: reads, scans and failed writes *)

Section layer_more.
Import layer.

Lemma omap_fmap_compose {A B C} (f : B -> option C) (g : A -> B) (l : list A) :
  omap f (g <$> l) = omap (fun x => f (g x)) l.
Proof.
  induction l as [|x l IH]; [reflexivity|]. cbn. rewrite IH. reflexivity.
Qed.

Lemma omap_ext_in {A B} (f g : A -> option B) (l : list A) :
  (forall x, x ∈ l -> f x = g x) -> omap f l = omap g l.
Proof.
  induction l as [|x l IH]; intros H; [reflexivity|]. cbn.
  rewrite (H x) by (left). rewrite IH; [reflexivity|].
  intros y Hy. apply H. right. exact Hy.
Qed.

Lemma ReadPage_state dm fs tableName pageID :
  exists dm' fs',
    disk.ReadPage dm fs tableName pageID
    = (disk.page_at (disk.contents dm fs tableName) pageID, dm', fs')
    /\ disk.getFile dm fs tableName = (Ok tt, dm', fs').
Proof.
  pose proof (ReadPage_page_at dm fs tableName pageID) as Hr.
  unfold disk.ReadPage in *.
  destruct (getFile_result dm fs tableName) as (dm' & fs' & Hget & _).
  rewrite Hget in *. exists dm', fs'. split; [|reflexivity].
  rewrite <- Hr. destruct (_ || _); reflexivity.
Qed.

Lemma getPage_fetch tableName pageID st :
  (getPage tableName pageID st).1 = fetch st tableName pageID.
Proof.
  destruct st as [fsl fs]. unfold getPage, fetch. cbn [fst snd].
  destruct (cached fsl tableName pageID); [reflexivity|].
  destruct (ReadPage_state (diskManager fsl) fs tableName pageID)
    as (dm' & fs' & -> & _).
  destruct (disk.page_at _ pageID) as [data|e|]; [|reflexivity|reflexivity].
  destruct (page.LoadPage pageID data); reflexivity.
Qed.

Lemma getPage_same_tables tableName pageID st :
  same_tables st.1 (getPage tableName pageID st).2.1.
Proof.
  destruct st as [fsl fs]. unfold getPage.
  destruct (cached fsl tableName pageID); [repeat split|].
  destruct (disk.ReadPage (diskManager fsl) fs tableName pageID) as [[[data|e|] dm'] fs'];
    [destruct (page.LoadPage pageID data)|..]; repeat split.
Qed.

(** Loading a page into the cache changes no page that [getPage] returns. *)
Lemma getPage_fetch_stable tableName pageID st t p :
  fetch (getPage tableName pageID st).2 t p = fetch st t p.
Proof.
  destruct st as [fsl fs]. unfold getPage.
  destruct (cached fsl tableName pageID) as [pg0|] eqn:Hc0; [reflexivity|].
  destruct (ReadPage_state (diskManager fsl) fs tableName pageID)
    as (dm' & fs' & -> & Hget).
  destruct (getFile_result (diskManager fsl) fs tableName)
    as (dm0 & fs0 & Hget' & _ & _ & _ & Hcont & _).
  rewrite Hget in Hget'. injection Hget' as <- <-.
  assert (forall fsl', diskManager fsl' = dm' -> pageCache fsl' = pageCache fsl ->
            fetch (fsl', fs') t p = fetch (fsl, fs) t p) as Hsame.
  { intros fsl' Hdm Hpc. unfold fetch, cached. cbn [fst snd].
    rewrite Hdm, Hpc, Hcont. reflexivity. }
  destruct (disk.page_at (disk.contents (diskManager fsl) fs tableName) pageID)
    as [data|e|] eqn:Hpage; cbn [snd]; try (apply Hsame; reflexivity).
  destruct (page.LoadPage pageID data) as [pg|] eqn:Hload; cbn [snd];
    [|apply Hsame; reflexivity].
  unfold fetch. cbn [fst snd]. rewrite cached_put_page.
  destruct (decide (t = tableName /\ p = pageID)) as [[-> ->]|Hne].
  - rewrite Hc0, Hpage, Hload. reflexivity.
  - change (cached (set_diskManager fsl dm') t p) with (cached fsl t p).
    cbn [set_diskManager put_page diskManager]. rewrite Hcont. reflexivity.
Qed.

(** The result of [Get], read off the layer's maps. *)
Lemma Get_fst tableName recordID st :
  (Get tableName recordID st).1 =
    if negb (isOpen st.1) then Err NotOpen
    else match indexes st.1 !! tableName with
         | None => Panic
         | Some idx =>
             match bptree.Search idx recordID with
             | None => Err NotFound
             | Some rid => read st tableName rid
             end
         end.
Proof.
  destruct st as [fsl fs]. unfold Get. cbn [fst snd].
  destruct (negb (isOpen fsl)); [reflexivity|].
  destruct (indexes fsl !! tableName) as [idx|]; [|reflexivity].
  destruct (bptree.Search idx recordID) as [rid|]; [|reflexivity].
  unfold read. rewrite <- getPage_fetch.
  destruct (getPage tableName (bptree.PageID rid) (fsl, fs)) as [[pg|e|] st1];
    reflexivity.
Qed.

Lemma Get_depends tableName recordID st st' :
  isOpen st'.1 = isOpen st.1 -> indexes st'.1 = indexes st.1 ->
  (forall t p, fetch st' t p = fetch st t p) ->
  (Get tableName recordID st').1 = (Get tableName recordID st).1.
Proof.
  intros Ho Hi Hf. rewrite !Get_fst, Ho, Hi. unfold read.
  destruct (negb (isOpen st.1)); [reflexivity|].
  destruct (indexes st.1 !! tableName) as [idx|]; [|reflexivity].
  destruct (bptree.Search idx recordID) as [rid|]; [|reflexivity].
  rewrite Hf. reflexivity.
Qed.

Lemma Get_state tableName recordID st :
  same_tables st.1 (Get tableName recordID st).2.1
  /\ forall t p, fetch (Get tableName recordID st).2 t p = fetch st t p.
Proof.
  destruct st as [fsl fs]. unfold Get.
  destruct (negb (isOpen fsl)); [split; [repeat split|reflexivity]|].
  destruct (indexes fsl !! tableName) as [idx|]; [|split; [repeat split|reflexivity]].
  destruct (bptree.Search idx recordID) as [rid|]; [|split; [repeat split|reflexivity]].
  pose proof (getPage_same_tables tableName (bptree.PageID rid) (fsl, fs)) as Hs.
  pose proof (getPage_fetch_stable tableName (bptree.PageID rid) (fsl, fs)) as Hf.
  destruct (getPage tableName (bptree.PageID rid) (fsl, fs)) as [[pg|e|] st1];
    cbn [fst snd] in *; split; assumption.
Qed.

Lemma getPage_Ok_cached tableName pageID st pg st1 :
  getPage tableName pageID st = (Ok pg, st1) ->
  cached st1.1 tableName pageID = Some pg.
Proof.
  destruct st as [fsl fs]. unfold getPage.
  destruct (cached fsl tableName pageID) as [pg0|] eqn:Hc.
  { intros [= <- <-]. exact Hc. }
  destruct (disk.ReadPage (diskManager fsl) fs tableName pageID)
    as [[[data|e|] dm'] fs']; try discriminate.
  destruct (page.LoadPage pageID data) as [pg1|]; [|discriminate].
  intros [= <- <-]. cbn [fst]. rewrite cached_put_page.
  destruct (decide _) as [_|[]]; auto.
Qed.

(** Putting a page where it already is changes no page that [getPage]
    returns. *)
Lemma fetch_put_same fsl fs tableName pageID pg t p :
  cached fsl tableName pageID = Some pg ->
  fetch (put_page fsl tableName pageID pg, fs) t p = fetch (fsl, fs) t p.
Proof.
  intros Hc. unfold fetch. cbn [fst snd]. rewrite cached_put_page.
  destruct (decide (t = tableName /\ p = pageID)) as [[-> ->]|Hne].
  - rewrite Hc. reflexivity.
  - reflexivity.
Qed.

Lemma kept_Some filter r d :
  kept filter r = Some d <-> r = Ok d /\ passes filter d = true.
Proof.
  unfold kept. destruct r as [d'|e|].
  - destruct (passes filter d') eqn:Hp; split.
    + intros [= ->]. auto.
    + intros [[= ->] _]. reflexivity.
    + discriminate.
    + intros [[= ->] Hp']. congruence.
  - split; [discriminate|intros [? _]; discriminate].
  - split; [discriminate|intros [? _]; discriminate].
Qed.

Lemma scan_records_spec tableName filter st0 : forall rids results st out st',
  (forall t p, fetch st t p = fetch st0 t p) ->
  scan_records tableName filter rids results st = (Ok out, st') ->
  out = results ++ omap (fun rid => kept filter (read st0 tableName rid)) rids
  /\ (forall t p, fetch st' t p = fetch st0 t p)
  /\ same_tables st.1 st'.1.
Proof.
  induction rids as [|rid rids IH]; intros results st out st' Hst Hrun.
  - cbn in Hrun. injection Hrun as <- <-. cbn. rewrite app_nil_r.
    split; [reflexivity|]. split; [exact Hst|repeat split].
  - cbn [scan_records] in Hrun. cbn [omap list_omap].
    change (list_omap ?f ?l) with (omap f l).
    pose proof (getPage_fetch tableName (bptree.PageID rid) st) as Hf.
    pose proof (getPage_fetch_stable tableName (bptree.PageID rid) st) as Hstable.
    pose proof (getPage_same_tables tableName (bptree.PageID rid) st) as Hsame.
    assert (forall results1 st1,
              st1 = (getPage tableName (bptree.PageID rid) st).2 ->
              scan_records tableName filter rids results1 st1 = (Ok out, st') ->
              out = results1
                    ++ omap (fun rid => kept filter (read st0 tableName rid)) rids
              /\ (forall t p, fetch st' t p = fetch st0 t p)
              /\ same_tables st.1 st'.1) as Hrest.
    { intros results1 st1 -> Hr.
      destruct (IH results1 _ out st' ltac:(intros; rewrite Hstable; apply Hst) Hr)
        as (Hout & Hfetch & Hs).
      split; [exact Hout|]. split; [exact Hfetch|].
      eapply same_tables_trans; eassumption. }
    unfold read at 1. rewrite <- Hst, <- Hf.
    destruct (getPage tableName (bptree.PageID rid) st) as [[pg|e|] st1];
      cbn [fst snd] in *; [| |discriminate].
    + destruct (page.GetRecord pg (bptree.SlotID rid)) as [d|e|]; cbn [kept];
        [| |discriminate].
      * destruct (passes filter d).
        -- destruct (Hrest _ _ eq_refl Hrun) as (-> & H2 & H3).
           rewrite <- app_assoc. auto.
        -- apply (Hrest _ _ eq_refl Hrun).
      * apply (Hrest _ _ eq_refl Hrun).
    + apply (Hrest _ _ eq_refl Hrun).
Qed.

Lemma fetch_total st t p : fetch st t p <> Panic.
Proof.
  unfold fetch. destruct (cached st.1 t p); [discriminate|].
  unfold disk.page_at. cbv zeta. destruct (_ || _); [discriminate|].
  destruct (page.LoadPage p _); discriminate.
Qed.

Lemma scan_records_total tableName filter : forall rids results st,
  layer_ok st -> Forall (fun rid => 0 <= bptree.SlotID rid) rids ->
  exists out st', scan_records tableName filter rids results st = (Ok out, st').
Proof.
  induction rids as [|rid rids IH]; intros results st Hok Hrids.
  - eexists _, _. reflexivity.
  - apply Forall_cons in Hrids as [Hslot Hrids]. cbn [scan_records].
    pose proof (getPage_fetch tableName (bptree.PageID rid) st) as Hf.
    pose proof (fetch_total st tableName (bptree.PageID rid)) as Hnp.
    destruct (getPage_ok tableName (bptree.PageID rid) st Hok) as (Hok1 & _ & Hpg).
    destruct (getPage tableName (bptree.PageID rid) st) as [[pg|e|] st1];
      cbn [fst snd] in *; [| |congruence].
    + destruct (Hpg pg eq_refl) as [Hinv _].
      pose proof (GetRecord_total pg (bptree.SlotID rid) Hinv Hslot) as Hnp'.
      destruct (page.GetRecord pg (bptree.SlotID rid)) as [d|e|]; [| |congruence].
      * destruct (passes filter d); apply IH; assumption.
      * apply IH; assumption.
    + apply IH; assumption.
Qed.

(** X16. [Scan] of an existing table returns the records that [Get]
    returns for the IDs of the table's index and that pass the filter, each
    as often as it is read, in the order in which the loop visits the index
    (whatever that order is: the result is stated up to a permutation, for
    the loop over the locations in any order).  A scan changes no record
    that a later [Get] returns, and on a layer whose pages meet the page
    invariants it returns a result: a location that cannot be read is
    skipped. *)
Theorem scan_returns_what_get_returns tableName filter st idx :
  isOpen st.1 = true ->
  catalog.TableExists (catalog st.1) tableName = true ->
  indexes st.1 !! tableName = Some idx ->
  let expected :=
    omap (fun e => kept filter (Get tableName e.1 st).1)
      (map_to_list (bptree.index idx)) in
  (forall rids out st',
     rids ≡ₚ (map_to_list (bptree.index idx)).*2 ->
     scan_records tableName filter rids [] st = (Ok out, st') ->
     out ≡ₚ expected)
  /\ (forall out st',
        Scan tableName filter st = (Ok out, st') ->
        out ≡ₚ expected
        /\ (forall d, d ∈ out <->
              exists id, (Get tableName id st).1 = Ok d /\ passes filter d = true)
        /\ forall t id, (Get t id st').1 = (Get t id st).1)
  /\ (layer_ok st -> index_ok st.1 ->
      exists out st', Scan tableName filter st = (Ok out, st')).
Proof.
  intros Hopen Hexists Hidx expected.
  assert (forall id rid, bptree.index idx !! id = Some rid ->
            (Get tableName id st).1 = read st tableName rid) as Hget.
  { intros id rid Hrid. rewrite Get_fst, Hopen, Hidx. cbn [negb].
    unfold bptree.Search. rewrite Hrid. reflexivity. }
  assert (expected
          = omap (fun rid => kept filter (read st tableName rid))
              (map_to_list (bptree.index idx)).*2) as Hexp.
  { unfold expected. rewrite omap_fmap_compose. apply omap_ext_in.
    intros [id rid] Hin. apply elem_of_map_to_list in Hin. cbn [fst snd].
    rewrite (Hget id rid Hin). reflexivity. }
  assert (forall rids out st',
            rids ≡ₚ (map_to_list (bptree.index idx)).*2 ->
            scan_records tableName filter rids [] st = (Ok out, st') ->
            out ≡ₚ expected) as Hloop.
  { intros rids out st' Hperm Hrun.
    destruct (scan_records_spec tableName filter st rids [] st out st'
                ltac:(reflexivity) Hrun) as (-> & _).
    cbn [app]. rewrite Hexp, Hperm. reflexivity. }
  split; [exact Hloop|]. split.
  - intros out st' Hrun.
    assert (scan_records tableName filter
              (map_to_list (bptree.index idx)).*2 [] st = (Ok out, st')) as Hrun'.
    { destruct st as [fsl fs]. unfold Scan in Hrun. cbn [fst] in *.
      rewrite Hopen, Hexists, Hidx in Hrun. exact Hrun. }
    pose proof (Hloop _ out st' ltac:(reflexivity) Hrun') as Hperm.
    split; [exact Hperm|]. split.
    + intros d. rewrite Hperm. unfold expected. rewrite list_elem_of_omap. split.
      * intros ([id rid] & _ & Hk). apply kept_Some in Hk. exists id. exact Hk.
      * intros (id & Hd & Hp).
        pose proof Hd as Hd'. rewrite Get_fst, Hopen, Hidx in Hd'. cbn [negb] in Hd'.
        unfold bptree.Search in Hd'.
        destruct (bptree.index idx !! id) as [rid|] eqn:Hrid; [|discriminate].
        exists (id, rid). split; [apply elem_of_map_to_list; exact Hrid|].
        apply kept_Some. auto.
    + intros t id.
      destruct (scan_records_spec tableName filter st _ [] st out st'
                  ltac:(reflexivity) Hrun') as (_ & Hf & (Ho & Hi & _)).
      apply Get_depends; assumption.
  - intros Hok Hiok.
    destruct (scan_records_total tableName filter
                (map_to_list (bptree.index idx)).*2 [] st Hok) as (out & st' & Hrun).
    { apply Forall_forall. intros rid Hin.
      apply list_elem_of_fmap in Hin as ([id rid'] & -> & Hin).
      apply elem_of_map_to_list in Hin. exact (Hiok tableName idx id rid' Hidx Hin). }
    exists out, st'. destruct st as [fsl fs]. unfold Scan. cbn [fst] in *.
    rewrite Hopen, Hexists, Hidx. exact Hrun.
Qed.

Lemma scan_returns_what_get_returns_witness :
  let schema := {| record.Columns :=
                     [ {| record.Name := "id"; record.ColType := record.TypeInt;
                          record.Length := 0; record.Nullable := false |} ] |} in
  let st0 := (Open "db" (NewFileStorageLayer, host.empty_fs)).2 in
  let st1 := (CreateTable "users" schema st0).2 in
  let st2 := (Insert "users" [x00; x07; x00; x00; x00] st1).2 in
  let st := (Insert "users" [x00; x08; x00; x00; x00] st2).2 in
  exists out, (Scan "users" None st).1 = Ok out
              /\ [x00; x08; x00; x00; x00] ∈ out.
Proof.
  intros schema st0 st1 st2 st.
  destruct (indexes st.1 !! "users") as [idx|] eqn:Hidx;
    [|vm_compute in Hidx; discriminate].
  destruct (scan_returns_what_get_returns "users" None st idx) as (_ & Hscan & _);
    [vm_compute; reflexivity|vm_compute; reflexivity|exact Hidx|].
  destruct (Scan "users" None st) as [[out|e|] st'] eqn:Hrun;
    [|vm_compute in Hrun; discriminate|vm_compute in Hrun; discriminate].
  exists out. split; [reflexivity|].
  apply (Hscan out st' eq_refl). exists 2. split; vm_compute; reflexivity.
Defined.

(** X17. [Get] reads only: it leaves the indexes and the catalog as they
    are, and whatever it loads into the page cache, every [Get] after it
    returns what it would have returned before it. *)
Theorem get_changes_no_record tableName recordID st :
  indexes (Get tableName recordID st).2.1 = indexes st.1
  /\ catalog (Get tableName recordID st).2.1 = catalog st.1
  /\ isOpen (Get tableName recordID st).2.1 = isOpen st.1
  /\ forall t id,
       (Get t id (Get tableName recordID st).2).1 = (Get t id st).1.
Proof.
  destruct (Get_state tableName recordID st) as ((Ho & Hi & Hc) & Hf).
  split; [exact Hi|]. split; [exact Hc|]. split; [exact Ho|].
  intros t id. apply Get_depends; assumption.
Qed.

(** X18. On a layer whose pages meet the page invariants, after a successful
    [Update] of a record [Get] of its ID returns the new bytes; the index is
    not touched. *)
Theorem update_then_get tableName recordID updatedRecord st st' :
  layer_ok st -> index_ok st.1 ->
  Update tableName recordID updatedRecord st = (Ok tt, st') ->
  (Get tableName recordID st').1 = Ok updatedRecord
  /\ indexes st'.1 = indexes st.1.
Proof.
  intros Hok Hiok. destruct st as [fsl fs]. unfold Update. cbn [fst] in *.
  destruct (isOpen fsl) eqn:Hopen; cbn [negb]; [|discriminate].
  destruct (indexes fsl !! tableName) as [idx|] eqn:Hidx; [|discriminate].
  destruct (bptree.Search idx recordID) as [rid|] eqn:Hrid; [|discriminate].
  pose proof (Hiok tableName idx recordID rid Hidx Hrid) as Hslot.
  destruct (getPage_ok tableName (bptree.PageID rid) (fsl, fs) Hok)
    as (_ & (Ho & Hi & _) & Hpg).
  destruct (getPage tableName (bptree.PageID rid) (fsl, fs)) as [[pg|e|] [fsl1 fs1]];
    cbn [fst snd] in *; try discriminate.
  destruct (Hpg pg eq_refl) as [Hinv _].
  destruct (page.UpdateRecord pg (bptree.SlotID rid) updatedRecord) as [r pg'] eqn:Hup.
  intros [= -> <-]. cbn [fst]. split; [|exact Hi].
  destruct (UpdateRecord_effect pg _ _ pg' Hinv Hslot Hup) as (Hget & _).
  rewrite Get_fst. cbn [fst put_page set_pageCache isOpen indexes].
  rewrite Ho, Hopen, Hi, Hidx, Hrid. cbn [negb].
  unfold read, fetch. cbn [fst]. rewrite cached_put_page.
  destruct (decide _) as [_|[]]; auto.
Qed.

Lemma update_then_get_witness :
  let schema := {| record.Columns :=
                     [ {| record.Name := "id"; record.ColType := record.TypeInt;
                          record.Length := 0; record.Nullable := false |} ] |} in
  let st0 := (Open "db" (NewFileStorageLayer, host.empty_fs)).2 in
  let st1 := (CreateTable "users" schema st0).2 in
  let st := (Insert "users" [x00; x07; x00; x00; x00] st1).2 in
  let st' := (Update "users" 1 [x00; x09; x00; x00; x00] st).2 in
  (Get "users" 1 st').1 = Ok [x00; x09; x00; x00; x00].
Proof.
  intros schema st0 st1 st st'.
  pose proof (reachable_state_ok
                [CallOpen "db"; CallCreateTable "users" schema;
                 CallInsert "users" [x00; x07; x00; x00; x00]]) as (Hok & Hiok & _).
  change (exec_all _ _) with st in Hok, Hiok.
  assert (Update "users" 1 [x00; x09; x00; x00; x00] st = (Ok tt, st')) as Hrun
    by (vm_compute; reflexivity).
  exact (proj1 (update_then_get "users" 1 _ st st' Hok Hiok Hrun)).
Defined.

Lemma UpdateRecord_Err p slotID newRecord e q :
  page.UpdateRecord p slotID newRecord = (Err e, q) -> q = p.
Proof.
  unfold page.UpdateRecord. cbv zeta.
  repeat (match goal with
          | |- context [if ?c then _ else _] => destruct c
          | |- context [match ?c with Some _ => _ | None => _ end] => destruct c
          end; try congruence).
Qed.

Lemma DeleteRecord_Err p slotID e q :
  page.DeleteRecord p slotID = (Err e, q) -> q = p.
Proof.
  unfold page.DeleteRecord. cbv zeta.
  repeat (match goal with
          | |- context [if ?c then _ else _] => destruct c
          | |- context [match ?c with Some _ => _ | None => _ end] => destruct c
          | |- context [let (_, _) := ?c in _] => destruct c
          end; try congruence).
Qed.

(** X19. An [Update] or a [DeleteRecord] that returns an error has changed
    no record: the indexes are as before and every [Get] returns what it
    would have returned before the call. *)
Theorem failed_write_changes_no_record tableName recordID st e :
  (forall updatedRecord,
     (Update tableName recordID updatedRecord st).1 = Err e ->
     indexes (Update tableName recordID updatedRecord st).2.1 = indexes st.1
     /\ forall t id,
          (Get t id (Update tableName recordID updatedRecord st).2).1 = (Get t id st).1)
  /\ ((DeleteRecord tableName recordID st).1 = Err e ->
      indexes (DeleteRecord tableName recordID st).2.1 = indexes st.1
      /\ forall t id,
           (Get t id (DeleteRecord tableName recordID st).2).1 = (Get t id st).1).
Proof.
  destruct st as [fsl fs]. split.
  - intros updatedRecord. unfold Update. cbn [fst].
    destruct (negb (isOpen fsl)); [intros _; split; reflexivity|].
    destruct (indexes fsl !! tableName) as [idx|]; [|intros _; split; reflexivity].
    destruct (bptree.Search idx recordID) as [rid|]; [|intros _; split; reflexivity].
    pose proof (getPage_same_tables tableName (bptree.PageID rid) (fsl, fs))
      as (Ho & Hi & _).
    pose proof (getPage_fetch_stable tableName (bptree.PageID rid) (fsl, fs)) as Hf.
    pose proof (getPage_Ok_cached tableName (bptree.PageID rid) (fsl, fs)) as Hc.
    destruct (getPage tableName (bptree.PageID rid) (fsl, fs)) as [[pg|e'|] [fsl1 fs1]];
      cbn [fst snd] in *.
    + specialize (Hc pg _ eq_refl). cbn [fst] in Hc.
      destruct (page.UpdateRecord pg (bptree.SlotID rid) updatedRecord)
        as [r pg'] eqn:Hup. cbn [fst snd]. intros ->.
      apply UpdateRecord_Err in Hup. subst pg'.
      split; [exact Hi|]. intros t id. apply Get_depends; cbn [fst]; try assumption.
      intros t' p. rewrite (fetch_put_same _ _ _ _ _ _ _ Hc). apply Hf.
    + intros _. split; [exact Hi|]. intros t id. apply Get_depends; assumption.
    + discriminate.
  - unfold DeleteRecord. cbn [fst].
    destruct (negb (isOpen fsl)); [intros _; split; reflexivity|].
    destruct (indexes fsl !! tableName) as [idx|] eqn:Hidx; [|intros _; split; reflexivity].
    destruct (bptree.Search idx recordID) as [rid|] eqn:Hrid;
      [|intros _; split; reflexivity].
    pose proof (getPage_same_tables tableName (bptree.PageID rid) (fsl, fs))
      as (Ho & Hi & _).
    pose proof (getPage_fetch_stable tableName (bptree.PageID rid) (fsl, fs)) as Hf.
    pose proof (getPage_Ok_cached tableName (bptree.PageID rid) (fsl, fs)) as Hc.
    destruct (getPage tableName (bptree.PageID rid) (fsl, fs)) as [[pg|e'|] [fsl1 fs1]];
      cbn [fst snd] in *.
    + specialize (Hc pg _ eq_refl). cbn [fst] in Hc.
      destruct (page.DeleteRecord pg (bptree.SlotID rid)) as [[[]|e'|] pg'] eqn:Hdel.
      * cbn [put_page set_pageCache indexes]. rewrite Hi, Hidx.
        unfold bptree.Delete. unfold bptree.Search in Hrid. rewrite Hrid.
        cbn [fst]. discriminate.
      * cbn [fst snd]. intros _. apply DeleteRecord_Err in Hdel. subst pg'.
        split; [exact Hi|]. intros t id. apply Get_depends; cbn [fst]; try assumption.
        intros t' p. rewrite (fetch_put_same _ _ _ _ _ _ _ Hc). apply Hf.
      * cbn [fst]. discriminate.
    + intros _. split; [exact Hi|]. intros t id. apply Get_depends; assumption.
    + discriminate.
Qed.

Lemma failed_write_changes_no_record_witness :
  let schema := {| record.Columns :=
                     [ {| record.Name := "id"; record.ColType := record.TypeInt;
                          record.Length := 0; record.Nullable := false |} ] |} in
  let st0 := (Open "db" (NewFileStorageLayer, host.empty_fs)).2 in
  let st1 := (CreateTable "users" schema st0).2 in
  let st := (Insert "users" [x00; x07; x00; x00; x00] st1).2 in
  (Get "users" 1 (Update "users" 1 [x09] st).2).1 = Ok [x00; x07; x00; x00; x00].
Proof.
  intros schema st0 st1 st.
  destruct (failed_write_changes_no_record "users" 1 st SizeMismatch) as [Hup _].
  destruct (Hup [x09]) as [_ Hget]; [vm_compute; reflexivity|].
  rewrite Hget. vm_compute. reflexivity.
Defined.

End layer_more.

(** ** The storage layer: flushing, closing and reopening *)

Section layer_flush.
Import layer.














Lemma foldr_insert_lookup {A} (f : string -> A) (m0 : gmap string A)
    (l : list string) t :
  foldr (fun k m => <[k := f k]> m) m0 l !! t
  = if decide (t ∈ l) then Some (f t) else m0 !! t.
Proof.
  induction l as [|k l IH]; cbn [foldr].
  - destruct (decide (t ∈ [])) as [H|_]; [|reflexivity].
    apply elem_of_nil in H. contradiction.
  - destruct (decide (t = k)) as [->|Hne].
    + rewrite lookup_insert_eq.
      destruct (decide (k ∈ k :: l)) as [_|H]; [reflexivity|].
      exfalso. apply H. left.
    + rewrite lookup_insert_ne by congruence. rewrite IH.
      destruct (decide (t ∈ l)) as [Hin|Hout], (decide (t ∈ k :: l)) as [Hin'|Hout'];
        try reflexivity.
      * exfalso. apply Hout'. right. exact Hin.
      * apply elem_of_cons in Hin' as [?|?]; contradiction.
Qed.


Lemma Open_closed path fsl fs :
  isOpen fsl = false ->
  Open path (fsl, fs)
  = (Ok tt,
     ({| basePath := path;
         diskManager := disk.NewDiskManager path;
         catalog := (catalog.Load (catalog.NewCatalogManager path) fs).2;
         pageCache :=
           foldr (fun tableName c => <[tableName := ∅]> c) (pageCache fsl)
             (catalog.ListTables (catalog.Load (catalog.NewCatalogManager path) fs).2);
         indexes :=
           foldr (fun tableName i =>
                    <[tableName :=
                        (bptree.Load (bptree.NewSimpleIndex tableName path) fs).2]> i)
             (indexes fsl)
             (catalog.ListTables (catalog.Load (catalog.NewCatalogManager path) fs).2);
         isOpen := true |}, fs)).
Proof.
  intros Hclosed. unfold Open. rewrite Hclosed. unfold disk.Open, catalog.Load.
  destruct (host.catalog_files fs !! _); reflexivity.
Qed.

Lemma contents_basePath dm dm' fs t :
  disk.basePath dm' = disk.basePath dm -> disk.contents dm' fs t = disk.contents dm fs t.
Proof. intros Hb. unfold disk.contents, disk.filePath. rewrite Hb. reflexivity. Qed.





End layer_flush.

(** ** The storage layer: inserts that fail, rows that are stored *)

Section layer_insert.
Import layer.

Lemma getPage_open_files tableName pageID st :
  tableName ∈ disk.files (diskManager st.1) ->
  diskManager (getPage tableName pageID st).2.1 = diskManager st.1
  /\ (getPage tableName pageID st).2.2 = st.2.
Proof.
  destruct st as [fsl fs]. cbn [fst snd]. intros Hin. unfold getPage.
  destruct (cached fsl tableName pageID); [split; reflexivity|].
  destruct (ReadPage_state (diskManager fsl) fs tableName pageID)
    as (dm' & fs' & -> & Hget).
  rewrite (getFile_open _ _ _ Hin) in Hget. injection Hget as <- <-.
  destruct (disk.page_at _ _) as [data|e|]; [destruct (page.LoadPage _ _)|..];
    split; reflexivity.
Qed.

(** A record of more than 4074 bytes fits no page that meets the page
    invariants. *)
Lemma oversized_never_fits pg recordData :
  page.page_inv pg -> 4074 < len recordData ->
  page.InsertRecord pg recordData = (Err PageFull, pg).
Proof.
  intros (_ & (Hsc & Hfs & Hle & Hfe) & _) Hlen. apply InsertRecord_full. page_lia.
Qed.

Lemma scan_pages_oversized tableName recordData : forall n pageID st,
  layer_ok st -> tableName ∈ disk.files (diskManager st.1) ->
  4074 < len recordData ->
  exists st',
    scan_pages tableName recordData pageID n st = (Ok None, st')
    /\ layer_ok st'
    /\ same_tables st.1 st'.1
    /\ diskManager st'.1 = diskManager st.1
    /\ st'.2 = st.2
    /\ forall t p, fetch st' t p = fetch st t p.
Proof.
  induction n as [|n IH]; intros pageID st Hok Hin Hlen.
  - exists st. split; [reflexivity|]. split; [exact Hok|].
    split; [repeat split|]. auto.
  - cbn [scan_pages].
    destruct (getPage_ok tableName pageID st Hok) as (Hok1 & Hsame & Hpg).
    destruct (getPage_open_files tableName pageID st Hin) as [Hdm Hfs].
    pose proof (getPage_fetch_stable tableName pageID st) as Hf.
    pose proof (getPage_Ok_cached tableName pageID st) as Hc.
    pose proof (getPage_fetch tableName pageID st) as Hres.
    pose proof (fetch_total st tableName pageID) as Hnp.
    destruct (getPage tableName pageID st) as [[pg|e|] [fsl1 fs1]];
      cbn [fst snd] in *; [| |congruence].
    + destruct (Hpg pg eq_refl) as [Hinv _].
      specialize (Hc pg _ eq_refl). cbn [fst] in Hc.
      rewrite (oversized_never_fits pg recordData Hinv Hlen).
      destruct (IH (to_int32 (pageID + 1)) (put_page fsl1 tableName pageID pg, fs1))
        as (st' & Hrun & Hok' & Hsame' & Hdm' & Hfs' & Hf'); [| |exact Hlen|].
      { destruct Hok1 as [Hc1 Hh1]. split; [|exact Hh1].
        apply cache_ok_put_page; assumption. }
      { cbn [fst put_page set_pageCache diskManager]. rewrite Hdm. exact Hin. }
      exists st'. split; [exact Hrun|]. split; [exact Hok'|]. cbn [fst snd] in *.
      split; [|split; [|split]].
      * eapply same_tables_trans; [exact Hsame|].
        eapply same_tables_trans; [apply same_tables_put_page|exact Hsame'].
      * rewrite Hdm'. exact Hdm.
      * rewrite Hfs'. exact Hfs.
      * intros t p. rewrite Hf', (fetch_put_same _ _ _ _ _ _ _ Hc). apply Hf.
    + destruct (IH (to_int32 (pageID + 1)) (fsl1, fs1))
        as (st' & Hrun & Hok' & Hsame' & Hdm' & Hfs' & Hf');
        [exact Hok1|cbn [fst]; rewrite Hdm; exact Hin|exact Hlen|].
      exists st'. split; [exact Hrun|]. split; [exact Hok'|]. cbn [fst snd] in *.
      split; [|split; [|split]].
      * eapply same_tables_trans; eassumption.
      * rewrite Hdm'. exact Hdm.
      * rewrite Hfs'. exact Hfs.
      * intros t p. rewrite Hf'. apply Hf.
Qed.

(** X22. [Insert] of a record of more than 4074 bytes, into an existing
    table of a layer whose pages meet the page invariants and whose heap
    file is open, fails with PageFull: no page can hold the record.  No
    record and no index changes and nothing is written to the heap file,
    but the page counter of the table has advanced: the page number that
    was allocated for the record is used up. *)
Theorem oversized_insert_uses_up_a_page_number tableName recordData st :
  layer_ok st -> isOpen st.1 = true ->
  catalog.TableExists (catalog st.1) tableName = true ->
  tableName ∈ disk.files (diskManager st.1) ->
  0 <= disk.GetPageCount (diskManager st.1) tableName < 2 ^ 31 - 1 ->
  4074 < len recordData ->
  (Insert tableName recordData st).1 = Err PageFull
  /\ indexes (Insert tableName recordData st).2.1 = indexes st.1
  /\ (forall t id,
        (Get t id (Insert tableName recordData st).2).1 = (Get t id st).1)
  /\ host.heap_files (Insert tableName recordData st).2.2 = host.heap_files st.2
  /\ disk.GetPageCount (diskManager (Insert tableName recordData st).2.1) tableName
     = disk.GetPageCount (diskManager st.1) tableName + 1.
Proof.
  intros Hok Hopen Hex Hin Hcount Hlen.
  destruct (scan_pages_oversized tableName recordData
              (Z.to_nat (disk.GetPageCount (diskManager st.1) tableName)) 0 st
              Hok Hin Hlen)
    as ([fsl1 fs1] & Hscan & _ & (Ho & Hi & _) & Hdm & Hfs & Hf).
  destruct st as [fsl fs]. cbn [fst snd] in *. subst fs1.
  set (c := disk.GetPageCount (diskManager fsl) tableName) in *.
  set (dm' := {| disk.basePath := disk.basePath (diskManager fsl);
                 disk.files := disk.files (diskManager fsl);
                 disk.pageCounter :=
                   <[tableName := to_int32 (c + 1)]>
                     (disk.pageCounter (diskManager fsl)) |}).
  assert (insertRecord tableName recordData (fsl, fs)
          = (Err PageFull, (set_diskManager fsl1 dm', fs))) as Hins.
  { unfold insertRecord. cbn [fst]. fold c. rewrite Hscan.
    destruct (AllocatePage_result (diskManager fsl1) fs tableName)
      as (dm0 & fs0 & Hget & ->).
    rewrite Hdm in Hget. rewrite (getFile_open _ _ _ Hin) in Hget.
    injection Hget as <- <-. fold c.
    rewrite (oversized_never_fits (page.NewPage c) recordData (NewPage_inv c) Hlen).
    reflexivity. }
  assert (Insert tableName recordData (fsl, fs)
          = (Err PageFull, (set_diskManager fsl1 dm', fs))) as ->.
  { unfold Insert. rewrite Hopen, Hex, Hins. reflexivity. }
  cbn [fst snd set_diskManager indexes diskManager].
  split; [reflexivity|]. split; [exact Hi|]. split; [|split; [reflexivity|]].
  - intros t id. apply Get_depends; cbn [fst set_diskManager isOpen indexes];
      [exact Ho|exact Hi|].
    intros t' p. rewrite <- Hf. unfold fetch, cached. cbn [fst snd pageCache diskManager].
    rewrite (contents_basePath (diskManager fsl1) dm')
      by (cbn [dm' disk.basePath]; rewrite Hdm; reflexivity).
    reflexivity.
  - unfold disk.GetPageCount at 1. cbn [dm' disk.pageCounter].
    rewrite lookup_insert_eq. cbn [default]. unfold id.
    unfold to_int32, wrap_signed. change (2 ^ (32 - 1)) with (2 ^ 31).
    change (2 ^ 32) with (2 * 2 ^ 31). rewrite Z.mod_small by lia. lia.
Qed.

Lemma oversized_insert_uses_up_a_page_number_witness :
  let schema := {| record.Columns :=
                     [ {| record.Name := "id"; record.ColType := record.TypeInt;
                          record.Length := 0; record.Nullable := false |} ] |} in
  let calls := [CallOpen "db"; CallCreateTable "users" schema;
                CallInsert "users" [x00; x07; x00; x00; x00]] in
  let st := exec_all (NewFileStorageLayer, host.empty_fs) calls in
  let big := replicate (Z.to_nat 4075) x00 in
  (Insert "users" big st).1 = Err PageFull
  /\ disk.GetPageCount (diskManager (Insert "users" big st).2.1) "users" = 2.
Proof.
  intros schema calls st big.
  destruct (reachable_state_ok calls) as (Hok & _). fold st in Hok.
  destruct (oversized_insert_uses_up_a_page_number "users" big st Hok)
    as (Hres & _ & _ & _ & Hcount).
  - vm_compute. reflexivity.
  - vm_compute. reflexivity.
  - assert (disk.files (diskManager st.1) = {["users"]} ∪ ∅) as ->
      by (vm_compute; reflexivity).
    set_solver.
  - assert (disk.GetPageCount (diskManager st.1) "users" = 1) as ->
      by (vm_compute; reflexivity).
    lia.
  - unfold big, len. rewrite length_replicate. lia.
  - split; [exact Hres|]. rewrite Hcount. vm_compute. reflexivity.
Defined.

Lemma Insert_Get tableName recordData recordID st st' :
  layer_ok st -> recordData <> [] ->
  Insert tableName recordData st = (Ok recordID, st') ->
  (Get tableName recordID st').1 = Ok recordData.
Proof.
  intros Hok Hne. destruct st as [fsl fs]. unfold Insert.
  destruct (isOpen fsl) eqn:Hopen; cbn [negb]; [|discriminate].
  destruct (catalog.TableExists (catalog fsl) tableName); cbn [negb]; [|discriminate].
  pose proof (insertRecord_ok tableName recordData (fsl, fs)) as Hins.
  destruct (insertRecord tableName recordData (fsl, fs))
    as [[[pageID slotID]|e|] [fsl1 fs1]]; try discriminate.
  destruct (Hins (pageID, slotID) (fsl1, fs1) Hok Hne eq_refl)
    as [(Ho1 & _ & _) (pg & Hcached & Hget)].
  cbn [fst snd] in *.
  destruct (indexes fsl1 !! tableName) as [idx|] eqn:Hidx; [|discriminate].
  unfold bptree.Insert. intros [= <- <-].
  rewrite Get_fst. cbn [fst set_indexes isOpen indexes].
  rewrite Ho1, Hopen. cbn [negb].
  rewrite lookup_insert_eq. unfold bptree.Search. cbn [bptree.index].
  rewrite lookup_insert_eq.
  unfold read, fetch. cbn [fst].
  match goal with
  | |- context [cached ?f tableName ?p] =>
      change (cached f tableName p) with (cached fsl1 tableName pageID)
  end.
  rewrite Hcached. exact Hget.
Qed.

(** X23. A row that is serialized, inserted, read and deserialized comes
    back: on a layer whose pages meet the page invariants, for a schema
    with at least one column and values that fit their columns, when
    [Insert] of the record that [Serialize] returns succeeds, [Get] of the
    new ID returns the record and [Deserialize] of it returns the
    values. *)
Theorem stored_row_comes_back tableName schema values st :
  layer_ok st -> record.Columns schema <> [] ->
  Forall2 record.value_fits (record.Columns schema) values ->
  exists data,
    record.Serialize schema values = Ok data
    /\ forall recordID st',
         Insert tableName data st = (Ok recordID, st') ->
         (Get tableName recordID st').1 = Ok data
         /\ record.Deserialize schema data = Ok values.
Proof.
  intros Hok Hcols Hfit.
  destruct (serialize_deserialize_roundtrip schema values Hcols Hfit)
    as (data & Hser & Hde).
  exists data. split; [exact Hser|]. intros recordID st' Hins.
  split; [|exact Hde].
  apply (Insert_Get tableName data recordID st st' Hok); [|exact Hins].
  intros ->. unfold record.Deserialize in Hde. cbn in Hde. discriminate.
Qed.

Lemma stored_row_comes_back_witness :
  let schema := {| record.Columns :=
                     [ {| record.Name := "id"; record.ColType := record.TypeInt;
                          record.Length := 0; record.Nullable := false |};
                       {| record.Name := "name"; record.ColType := record.TypeString;
                          record.Length := 50; record.Nullable := false |} ] |} in
  let values := [record.Int 1; record.Str [x41; x6c]] in
  let st := exec_all (NewFileStorageLayer, host.empty_fs)
              [CallOpen "db"; CallCreateTable "users" schema] in
  exists data, record.Serialize schema values = Ok data
               /\ (Get "users" 1 (Insert "users" data st).2).1 = Ok data
               /\ record.Deserialize schema data = Ok values.
Proof.
  intros schema values st.
  destruct (reachable_state_ok [CallOpen "db"; CallCreateTable "users" schema])
    as (Hok & _). fold st in Hok.
  destruct (stored_row_comes_back "users" schema values st Hok) as (data & Hser & Hrow).
  - discriminate.
  - constructor; [split; [reflexivity|lia]|].
    constructor; [split; [reflexivity|unfold len; cbn; lia]|constructor].
  - exists data. split; [exact Hser|].
    assert (data = [x00; x01; x00; x00; x00; x02; x00; x41; x6c]) as Hd.
    { vm_compute in Hser. congruence. }
    apply (Hrow 1 (Insert "users" data st).2).
    rewrite Hd. vm_compute. reflexivity.
Defined.

End layer_insert.

(** ** The storage layer: tables do not interfere *)

Section layer_tables.
Import layer.

Lemma Get_table_view tableName recordID st st' :
  same_table_view tableName st st' ->
  (Get tableName recordID st').1 = (Get tableName recordID st).1.
Proof.
  intros (Ho & Hi & Hf). rewrite !Get_fst, Ho, Hi. unfold read.
  destruct (negb (isOpen st.1)); [reflexivity|].
  destruct (indexes st.1 !! tableName) as [idx|]; [|reflexivity].
  destruct (bptree.Search idx recordID) as [rid|]; [|reflexivity].
  rewrite Hf. reflexivity.
Qed.

Lemma view_refl t st : same_table_view t st st.
Proof. repeat split. Qed.

Lemma view_trans t st1 st2 st3 :
  same_table_view t st1 st2 -> same_table_view t st2 st3 -> same_table_view t st1 st3.
Proof.
  intros (Ho & Hi & Hf) (Ho' & Hi' & Hf'). split; [congruence|].
  split; [congruence|]. intros p. rewrite Hf'. apply Hf.
Qed.

Lemma view_getPage t tableName pageID st :
  same_table_view t st (getPage tableName pageID st).2.
Proof.
  destruct (getPage_same_tables tableName pageID st) as (Ho & Hi & _).
  split; [exact Ho|]. split; [rewrite Hi; reflexivity|].
  intros p. apply getPage_fetch_stable.
Qed.

Lemma view_put_page t tableName pageID pg fsl fs :
  t <> tableName ->
  same_table_view t (fsl, fs) (put_page fsl tableName pageID pg, fs).
Proof.
  intros Hne. split; [reflexivity|]. split; [reflexivity|].
  intros p. unfold fetch. cbn [fst snd]. rewrite cached_put_page.
  destruct (decide _) as [[? _]|_]; [contradiction|reflexivity].
Qed.

Lemma view_scan_pages t tableName recordData : forall n pageID st,
  t <> tableName ->
  same_table_view t st (scan_pages tableName recordData pageID n st).2.
Proof.
  induction n as [|n IH]; intros pageID st Hne; [apply view_refl|].
  cbn [scan_pages].
  pose proof (view_getPage t tableName pageID st) as Hv.
  destruct (getPage tableName pageID st) as [[pg|e|] [fsl1 fs1]]; cbn [snd] in *.
  - pose proof (view_put_page t tableName pageID
                  (page.InsertRecord pg recordData).2 fsl1 fs1 Hne) as Hv'.
    destruct (page.InsertRecord pg recordData) as [[slotID|e|] pg']; cbn [snd] in *.
    + eapply view_trans; eassumption.
    + eapply view_trans; [|apply IH, Hne]. eapply view_trans; eassumption.
    + eapply view_trans; eassumption.
  - eapply view_trans; [exact Hv|apply IH, Hne].
  - exact Hv.
Qed.

Lemma view_AllocatePage t tableName fsl fs :
  same_table_view t (fsl, fs)
    (set_diskManager fsl (disk.AllocatePage (diskManager fsl) fs tableName).1.2,
     (disk.AllocatePage (diskManager fsl) fs tableName).2).
Proof.
  destruct (AllocatePage_result (diskManager fsl) fs tableName)
    as (dm0 & fs' & Hget & ->).
  destruct (getFile_result (diskManager fsl) fs tableName)
    as (dm0' & fs0' & Hget' & Hb & _ & _ & Hc & _).
  rewrite Hget in Hget'. injection Hget' as <- <-.
  split; [reflexivity|]. split; [reflexivity|].
  intros p. unfold fetch. cbn [fst snd].
  change (cached (set_diskManager fsl _) t p) with (cached fsl t p).
  cbn [set_diskManager diskManager].
  rewrite <- Hc. unfold disk.contents, disk.filePath. cbn [disk.basePath]. reflexivity.
Qed.

Lemma view_insertRecord t tableName recordData st :
  t <> tableName ->
  same_table_view t st (insertRecord tableName recordData st).2.
Proof.
  intros Hne. unfold insertRecord.
  pose proof (view_scan_pages t tableName recordData
                (Z.to_nat (disk.GetPageCount (diskManager st.1) tableName)) 0 st Hne)
    as Hv.
  destruct (scan_pages tableName recordData 0 _ st) as [[[at_|]|e|] [fsl1 fs1]];
    cbn [snd] in *; try exact Hv.
  pose proof (view_AllocatePage t tableName fsl1 fs1) as Hv'.
  destruct (disk.AllocatePage (diskManager fsl1) fs1 tableName)
    as [[[newPageID|e|] dm'] fs']; cbn [fst snd] in *;
    try (eapply view_trans; eassumption).
  pose proof (view_put_page t tableName newPageID
                (page.InsertRecord (page.NewPage newPageID) recordData).2
                (set_diskManager fsl1 dm') fs' Hne) as Hv''.
  destruct (page.InsertRecord (page.NewPage newPageID) recordData)
    as [[slotID|e|] newPage']; cbn [snd] in *;
    try (eapply view_trans; eassumption).
  eapply view_trans; [|exact Hv'']. eapply view_trans; eassumption.
Qed.

Lemma view_set_indexes t tableName idx fsl fs :
  t <> tableName ->
  same_table_view t (fsl, fs)
    (set_indexes fsl (<[tableName := idx]> (indexes fsl)), fs).
Proof.
  intros Hne. split; [reflexivity|]. split; [|reflexivity].
  cbn [fst set_indexes indexes]. apply lookup_insert_ne. congruence.
Qed.

Lemma view_Insert t tableName recordData st :
  t <> tableName -> same_table_view t st (Insert tableName recordData st).2.
Proof.
  intros Hne. destruct st as [fsl fs]. unfold Insert.
  destruct (negb (isOpen fsl)); [apply view_refl|].
  destruct (negb (catalog.TableExists (catalog fsl) tableName)); [apply view_refl|].
  pose proof (view_insertRecord t tableName recordData (fsl, fs) Hne) as Hv.
  destruct (insertRecord tableName recordData (fsl, fs))
    as [[[pageID slotID]|e|] [fsl1 fs1]]; cbn [snd] in *; try exact Hv.
  destruct (indexes fsl1 !! tableName) as [idx|]; [|exact Hv].
  destruct (bptree.Insert idx _) as [[recordID|e|] idx']; cbn [snd];
    (eapply view_trans; [exact Hv|apply view_set_indexes, Hne]).
Qed.

Lemma view_Update t tableName recordID updatedRecord st :
  t <> tableName ->
  same_table_view t st (Update tableName recordID updatedRecord st).2.
Proof.
  intros Hne. destruct st as [fsl fs]. unfold Update.
  destruct (negb (isOpen fsl)); [apply view_refl|].
  destruct (indexes fsl !! tableName) as [idx|]; [|apply view_refl].
  destruct (bptree.Search idx recordID) as [rid|]; [|apply view_refl].
  pose proof (view_getPage t tableName (bptree.PageID rid) (fsl, fs)) as Hv.
  destruct (getPage tableName (bptree.PageID rid) (fsl, fs)) as [[pg|e|] [fsl1 fs1]];
    cbn [snd] in *; try exact Hv.
  destruct (page.UpdateRecord pg (bptree.SlotID rid) updatedRecord) as [r pg'].
  cbn [snd]. eapply view_trans; [exact Hv|apply view_put_page, Hne].
Qed.

Lemma view_DeleteRecord t tableName recordID st :
  t <> tableName -> same_table_view t st (DeleteRecord tableName recordID st).2.
Proof.
  intros Hne. destruct st as [fsl fs]. unfold DeleteRecord.
  destruct (negb (isOpen fsl)); [apply view_refl|].
  destruct (indexes fsl !! tableName) as [idx|]; [|apply view_refl].
  destruct (bptree.Search idx recordID) as [rid|]; [|apply view_refl].
  pose proof (view_getPage t tableName (bptree.PageID rid) (fsl, fs)) as Hv.
  destruct (getPage tableName (bptree.PageID rid) (fsl, fs)) as [[pg|e|] [fsl1 fs1]];
    cbn [snd] in *; try exact Hv.
  pose proof (view_put_page t tableName (bptree.PageID rid)
                (page.DeleteRecord pg (bptree.SlotID rid)).2 fsl1 fs1 Hne) as Hv'.
  destruct (page.DeleteRecord pg (bptree.SlotID rid)) as [[[]|e|] pg']; cbn [snd] in *;
    try (eapply view_trans; eassumption).
  destruct (indexes (put_page fsl1 tableName (bptree.PageID rid) pg') !! tableName)
    as [idx2|]; [|eapply view_trans; eassumption].
  destruct (bptree.Delete idx2 recordID) as [r idx']. cbn [snd].
  eapply view_trans; [exact Hv|]. eapply view_trans; [exact Hv'|].
  apply view_set_indexes, Hne.
Qed.

Lemma view_CreateTable t tableName schema st :
  t <> tableName -> same_table_view t st (CreateTable tableName schema st).2.
Proof.
  intros Hne. destruct st as [fsl fs]. unfold CreateTable.
  destruct (negb (isOpen fsl)); [apply view_refl|].
  destruct (catalog.CreateTable (catalog fsl) fs tableName schema)
    as [[[[]|e|] cm'] fs'] eqn:Hct; try apply view_refl.
  assert (host.heap_files fs' = host.heap_files fs) as Hheap.
  { revert Hct. unfold catalog.CreateTable.
    destruct (catalog.schemas (catalog fsl) !! tableName); [discriminate|].
    cbn [catalog.Save]. intros [= _ <-]. reflexivity. }
  split; [reflexivity|]. split.
  - cbn [fst snd indexes]. apply lookup_insert_ne. congruence.
  - intros p. unfold fetch, cached. cbn [fst snd pageCache diskManager].
    rewrite lookup_insert_ne by congruence.
    unfold disk.contents. rewrite Hheap. reflexivity.
Qed.

(** X24. Tables do not interfere: an [Insert], [Update], [DeleteRecord] or
    [CreateTable] on one table, whatever its outcome, leaves what [Get]
    returns for every ID of every other table as it was. *)
Theorem writes_leave_other_tables_alone tableName other recordID st :
  other <> tableName ->
  (forall recordData,
     (Get other recordID (Insert tableName recordData st).2).1
     = (Get other recordID st).1)
  /\ (forall id updatedRecord,
        (Get other recordID (Update tableName id updatedRecord st).2).1
        = (Get other recordID st).1)
  /\ (forall id,
        (Get other recordID (DeleteRecord tableName id st).2).1
        = (Get other recordID st).1)
  /\ (forall schema,
        (Get other recordID (CreateTable tableName schema st).2).1
        = (Get other recordID st).1).
Proof.
  intros Hne. split; [|split; [|split]]; intros; apply Get_table_view.
  - apply view_Insert, Hne.
  - apply view_Update, Hne.
  - apply view_DeleteRecord, Hne.
  - apply view_CreateTable, Hne.
Qed.

Lemma writes_leave_other_tables_alone_witness :
  let schema := {| record.Columns :=
                     [ {| record.Name := "id"; record.ColType := record.TypeInt;
                          record.Length := 0; record.Nullable := false |} ] |} in
  let st := exec_all (NewFileStorageLayer, host.empty_fs)
              [CallOpen "db"; CallCreateTable "users" schema;
               CallCreateTable "orders" schema;
               CallInsert "users" [x00; x07; x00; x00; x00]] in
  (Get "users" 1 (Insert "orders" [x00; x09; x00; x00; x00] st).2).1
  = Ok [x00; x07; x00; x00; x00].
Proof.
  intros schema st.
  destruct (writes_leave_other_tables_alone "orders" "users" 1 st) as (Hins & _);
    [discriminate|].
  rewrite Hins. vm_compute. reflexivity.
Defined.

(** X25. A table that has just been created is empty: after a successful
    [CreateTable] the table exists, [Get] finds no ID in it, [Scan] returns
    no record, and a second [CreateTable] of the name is refused and
    changes nothing. *)
Theorem new_table_is_empty tableName schema st st' :
  CreateTable tableName schema st = (Ok tt, st') ->
  catalog.TableExists (catalog st'.1) tableName = true
  /\ catalog.GetSchema (catalog st'.1) tableName = Ok schema
  /\ (forall recordID, Get tableName recordID st' = (Err NotFound, st'))
  /\ (forall filter, Scan tableName filter st' = (Ok [], st'))
  /\ (forall schema', CreateTable tableName schema' st' = (Err DuplicateTable, st')).
Proof.
  destruct st as [fsl fs]. unfold CreateTable.
  destruct (isOpen fsl) eqn:Hopen; cbn [negb]; [|discriminate].
  unfold catalog.CreateTable.
  destruct (catalog.schemas (catalog fsl) !! tableName) eqn:Hnew; [discriminate|].
  cbn [catalog.Save]. intros [= <-]. cbn [fst catalog].
  assert (catalog.TableExists
            {| catalog.basePath := catalog.basePath (catalog fsl);
               catalog.schemas := <[tableName := schema]> (catalog.schemas (catalog fsl)) |}
            tableName = true) as Hex.
  { apply bool_decide_eq_true. cbn [catalog.schemas]. rewrite lookup_insert_eq. eauto. }
  split; [exact Hex|]. split; [|split; [|split]].
  - unfold catalog.GetSchema. cbn [catalog.schemas]. rewrite lookup_insert_eq. reflexivity.
  - intros recordID. unfold Get. cbn [isOpen indexes negb].
    rewrite lookup_insert_eq. unfold bptree.Search, bptree.NewSimpleIndex.
    cbn [bptree.index]. rewrite lookup_empty. reflexivity.
  - intros filter. unfold Scan. cbn [isOpen indexes catalog]. rewrite Hex.
    cbn [negb]. rewrite lookup_insert_eq.
    unfold bptree.GetAllRecords, bptree.NewSimpleIndex. cbn [bptree.index].
    rewrite map_to_list_empty. reflexivity.
  - intros schema'. unfold CreateTable, catalog.CreateTable.
    cbn [isOpen catalog negb catalog.schemas]. rewrite lookup_insert_eq. reflexivity.
Qed.

Lemma new_table_is_empty_witness :
  let schema := {| record.Columns :=
                     [ {| record.Name := "id"; record.ColType := record.TypeInt;
                          record.Length := 0; record.Nullable := false |} ] |} in
  let st := (Open "db" (NewFileStorageLayer, host.empty_fs)).2 in
  (Scan "users" None (CreateTable "users" schema st).2).1 = Ok [].
Proof.
  intros schema st.
  destruct (new_table_is_empty "users" schema st (CreateTable "users" schema st).2)
    as (_ & _ & _ & Hscan & _); [vm_compute; reflexivity|].
  rewrite Hscan. reflexivity.
Defined.

End layer_tables.

(** ** The storage layer: records do not interfere *)

Section layer_records.
Import layer.

Lemma fetch_put_page fsl fs tableName pageID pg t p :
  fetch (put_page fsl tableName pageID pg, fs) t p
  = if decide (t = tableName /\ p = pageID) then Ok pg else fetch (fsl, fs) t p.
Proof.
  unfold fetch. cbn [fst snd]. rewrite cached_put_page.
  destruct (decide _); reflexivity.
Qed.

Lemma UpdateRecord_frame pg slotID newRecord j :
  page.page_inv pg -> 0 <= slotID -> 0 <= j -> j <> slotID ->
  page.GetRecord (page.UpdateRecord pg slotID newRecord).2 j = page.GetRecord pg j.
Proof.
  intros Hinv Hs Hj Hne.
  destruct (page.UpdateRecord pg slotID newRecord) as [[[]|e|] q] eqn:Hup; cbn [snd].
  - destruct (UpdateRecord_effect _ _ _ _ Hinv Hs Hup) as (_ & _ & Hfr).
    apply Hfr; assumption.
  - apply UpdateRecord_Err in Hup. subst q. reflexivity.
  - assert (q = pg) as ->; [|reflexivity].
    revert Hup. unfold page.UpdateRecord. cbv zeta.
    repeat (match goal with
            | |- context [if ?c then _ else _] => destruct c
            | |- context [match ?c with Some _ => _ | None => _ end] => destruct c
            end; try congruence).
Qed.

Lemma DeleteRecord_frame pg slotID j :
  page.page_inv pg -> 0 <= slotID -> 0 <= j -> j <> slotID ->
  page.GetRecord (page.DeleteRecord pg slotID).2 j = page.GetRecord pg j.
Proof.
  intros Hinv Hs Hj Hne.
  destruct (page.DeleteRecord pg slotID) as [[[]|e|] q] eqn:Hdel; cbn [snd].
  - destruct (DeleteRecord_effect _ _ _ Hinv Hs Hdel) as (_ & _ & _ & Hfr).
    apply Hfr; assumption.
  - apply DeleteRecord_Err in Hdel. subst q. reflexivity.
  - exfalso. pose proof Hinv as (_ & Hhdr & _). revert Hdel.
    unfold page.DeleteRecord. cbv zeta.
    destruct (Z.leb_spec (page.SlotCount (page.readHeader pg)) slotID) as [|Hlt];
      [discriminate|].
    destruct (slot_in_directory pg slotID Hhdr ltac:(lia)) as (_ & _ & Hslot).
    rewrite Hslot.
    destruct (Z.eqb_spec (page.Size (page.slot_at (page.Data pg)
                                       (page.slot_offset slotID))) 0) as [|Hnz];
      [discriminate|].
    destruct (DeleteRecord_ok pg slotID Hinv ltac:(lia)) as (p' & Hok & _);
      [eexists; eauto|].
    unfold page.DeleteRecord in Hok. cbv zeta in Hok.
    destruct (Z.leb_spec (page.SlotCount (page.readHeader pg)) slotID); [lia|].
    rewrite Hslot in Hok.
    destruct (Z.eqb_spec (page.Size (page.slot_at (page.Data pg)
                                       (page.slot_offset slotID))) 0); [lia|].
    rewrite Hok. discriminate.
Qed.

(** Reading another location after the page at [rid] has been replaced by a
    page that differs at the slot of [rid] only. *)
Lemma modified_page_reads tableName st rid pg pg' fsl1 fs1 rid' :
  getPage tableName (bptree.PageID rid) st = (Ok pg, (fsl1, fs1)) ->
  (forall j, 0 <= j -> j <> bptree.SlotID rid ->
     page.GetRecord pg' j = page.GetRecord pg j) ->
  0 <= bptree.SlotID rid' ->
  (bptree.PageID rid', bptree.SlotID rid') <> (bptree.PageID rid, bptree.SlotID rid) ->
  read (put_page fsl1 tableName (bptree.PageID rid) pg', fs1) tableName rid'
  = read st tableName rid'.
Proof.
  intros Hget Hfr Hslot Hne.
  pose proof (getPage_fetch tableName (bptree.PageID rid) st) as Hf.
  pose proof (getPage_fetch_stable tableName (bptree.PageID rid) st) as Hst.
  rewrite Hget in Hf, Hst. cbn [fst snd] in Hf, Hst.
  unfold read. rewrite fetch_put_page.
  destruct (decide _) as [[_ Hp]|_].
  - rewrite Hp, <- Hf. apply Hfr; [exact Hslot|]. intros Hs. apply Hne. congruence.
  - rewrite Hst. reflexivity.
Qed.

(** X26. Records do not interfere.  On a layer whose pages meet the page
    invariants, whose index slots are not negative and in which the IDs of
    the table are recorded at different locations, an [Update] or a
    [DeleteRecord] of one ID, whatever its outcome, leaves what [Get]
    returns for every other ID of the table as it was. *)
Theorem writes_leave_other_records_alone tableName recordID other st :
  layer_ok st -> index_ok st.1 -> locations_distinct st.1 tableName ->
  other <> recordID ->
  (forall updatedRecord,
     (Get tableName other (Update tableName recordID updatedRecord st).2).1
     = (Get tableName other st).1)
  /\ (Get tableName other (DeleteRecord tableName recordID st).2).1
     = (Get tableName other st).1.
Proof.
  intros Hok Hiok Hdist Hne. destruct st as [fsl fs]. cbn [fst] in *. split.
  - intros updatedRecord. unfold Update.
    destruct (isOpen fsl) eqn:Hopen; cbn [negb]; [|reflexivity].
    destruct (indexes fsl !! tableName) as [idx|] eqn:Hidx; [|reflexivity].
    destruct (bptree.Search idx recordID) as [rid|] eqn:Hrid; [|reflexivity].
    pose proof (Hiok tableName idx recordID rid Hidx Hrid) as Hslot.
    destruct (getPage_ok tableName (bptree.PageID rid) (fsl, fs) Hok)
      as (_ & (Ho & Hi & _) & Hpg).
    pose proof (view_getPage tableName tableName (bptree.PageID rid) (fsl, fs)) as Hv.
    destruct (getPage tableName (bptree.PageID rid) (fsl, fs)) as [[pg|e|] [fsl1 fs1]]
      eqn:Hget; cbn [fst snd] in *;
      [|apply Get_table_view, Hv|apply Get_table_view, Hv].
    destruct (Hpg pg eq_refl) as [Hinv _].
    pose proof (UpdateRecord_frame pg (bptree.SlotID rid) updatedRecord) as Hfr.
    destruct (page.UpdateRecord pg (bptree.SlotID rid) updatedRecord) as [r pg'].
    cbn [snd] in *. rewrite !Get_fst.
    cbn [fst put_page set_pageCache isOpen indexes]. rewrite Ho, Hi, Hidx.
    destruct (negb (isOpen fsl)); [reflexivity|].
    destruct (bptree.Search idx other) as [rid'|] eqn:Hrid'; [|reflexivity].
    apply (modified_page_reads tableName (fsl, fs) rid pg pg' fsl1 fs1 rid' Hget).
    + intros j Hj Hjs. apply Hfr; assumption.
    + exact (Hiok tableName idx other rid' Hidx Hrid').
    + exact (Hdist idx other recordID rid' rid Hidx Hrid' Hrid Hne).
  - unfold DeleteRecord.
    destruct (isOpen fsl) eqn:Hopen; cbn [negb]; [|reflexivity].
    destruct (indexes fsl !! tableName) as [idx|] eqn:Hidx; [|reflexivity].
    destruct (bptree.Search idx recordID) as [rid|] eqn:Hrid; [|reflexivity].
    pose proof (Hiok tableName idx recordID rid Hidx Hrid) as Hslot.
    destruct (getPage_ok tableName (bptree.PageID rid) (fsl, fs) Hok)
      as (_ & (Ho & Hi & _) & Hpg).
    pose proof (view_getPage tableName tableName (bptree.PageID rid) (fsl, fs)) as Hv.
    destruct (getPage tableName (bptree.PageID rid) (fsl, fs)) as [[pg|e|] [fsl1 fs1]]
      eqn:Hget; cbn [fst snd] in *;
      [|apply Get_table_view, Hv|apply Get_table_view, Hv].
    destruct (Hpg pg eq_refl) as [Hinv _].
    pose proof (DeleteRecord_frame pg (bptree.SlotID rid)) as Hfr.
    assert (forall rid', bptree.Search idx other = Some rid' ->
              read (put_page fsl1 tableName (bptree.PageID rid)
                      (page.DeleteRecord pg (bptree.SlotID rid)).2, fs1) tableName rid'
              = read (fsl, fs) tableName rid') as Hread.
    { intros rid' Hrid'.
      apply (modified_page_reads tableName (fsl, fs) rid pg _ fsl1 fs1 rid' Hget).
      - intros j Hj Hjs. apply Hfr; assumption.
      - exact (Hiok tableName idx other rid' Hidx Hrid').
      - exact (Hdist idx other recordID rid' rid Hidx Hrid' Hrid Hne). }
    destruct (page.DeleteRecord pg (bptree.SlotID rid)) as [[[]|e|] pg'];
      cbn [snd] in *.
    + cbn [put_page set_pageCache indexes]. rewrite Hi, Hidx.
      unfold bptree.Delete. unfold bptree.Search in Hrid. rewrite Hrid. cbn [snd].
      rewrite !Get_fst. cbn [fst set_indexes put_page set_pageCache isOpen indexes].
      rewrite Ho, Hidx.
      destruct (negb (isOpen fsl)); [reflexivity|].
      rewrite lookup_insert_eq. unfold bptree.Search. cbn [bptree.index].
      rewrite lookup_delete_ne by congruence.
      destruct (bptree.index idx !! other) as [rid'|] eqn:Hrid'; [|reflexivity].
      rewrite <- (Hread rid' Hrid'). reflexivity.
    + rewrite !Get_fst. cbn [fst put_page set_pageCache isOpen indexes].
      rewrite Ho, Hi, Hidx.
      destruct (negb (isOpen fsl)); [reflexivity|].
      destruct (bptree.Search idx other) as [rid'|] eqn:Hrid'; [|reflexivity].
      apply Hread. reflexivity.
    + rewrite !Get_fst. cbn [fst put_page set_pageCache isOpen indexes].
      rewrite Ho, Hi, Hidx.
      destruct (negb (isOpen fsl)); [reflexivity|].
      destruct (bptree.Search idx other) as [rid'|] eqn:Hrid'; [|reflexivity].
      apply Hread. reflexivity.
Qed.

Lemma writes_leave_other_records_alone_witness :
  let schema := {| record.Columns :=
                     [ {| record.Name := "id"; record.ColType := record.TypeInt;
                          record.Length := 0; record.Nullable := false |} ] |} in
  let calls := [CallOpen "db"; CallCreateTable "users" schema;
                CallInsert "users" [x00; x07; x00; x00; x00];
                CallInsert "users" [x00; x08; x00; x00; x00]] in
  let st := exec_all (NewFileStorageLayer, host.empty_fs) calls in
  (Get "users" 2 (Update "users" 1 [x00; x09; x00; x00; x00] st).2).1
  = Ok [x00; x08; x00; x00; x00]
  /\ (Get "users" 2 (DeleteRecord "users" 1 st).2).1 = Ok [x00; x08; x00; x00; x00].
Proof.
  intros schema calls st.
  destruct (reachable_state_ok calls) as (Hok & Hiok & _). fold st in Hok, Hiok.
  assert (locations_distinct st.1 "users") as Hdist.
  { intros idx id1 id2 rid1 rid2 Hidx H1 H2 Hne.
    assert (indexes st.1 !! "users"
            = Some {| bptree.tableName := "users"; bptree.basePath := "db";
                      bptree.index :=
                        <[2 := {| bptree.PageID := 0; bptree.SlotID := 1 |}]>
                          (<[1 := {| bptree.PageID := 0; bptree.SlotID := 0 |}]> ∅);
                      bptree.nextID := 3 |}) as Hval
      by (vm_compute; reflexivity).
    rewrite Hval in Hidx. injection Hidx as <-. cbn [bptree.index] in H1, H2.
    clear Hok Hiok Hval.
    apply lookup_insert_Some in H1 as [[<- <-]|[_ H1]];
      [|apply lookup_insert_Some in H1 as [[<- <-]|[_ H1]];
        [|rewrite lookup_empty in H1; discriminate]];
      (apply lookup_insert_Some in H2 as [[<- <-]|[_ H2]];
       [|apply lookup_insert_Some in H2 as [[<- <-]|[_ H2]];
         [|rewrite lookup_empty in H2; discriminate]]);
      cbn [bptree.PageID bptree.SlotID];
      try (intros [= ]); exfalso; apply Hne; reflexivity. }
  destruct (writes_leave_other_records_alone "users" 1 2 st Hok Hiok Hdist)
    as [Hup Hdel]; [intros [=]|].
  split.
  - rewrite Hup. vm_compute. reflexivity.
  - rewrite Hdel. vm_compute. reflexivity.
Defined.

End layer_records.

(** ** Slotted pages: the slots that hold a record *)

Section page_live.
Import page.
Local Arguments readHeader : simpl never.
Local Arguments readSlot : simpl never.

Lemma live_insert p record slotID p' :
  page_inv p ->
  InsertRecord p record = (Ok slotID, p') ->
  (record <> [] -> live p' slotID)
  /\ ~ live p slotID /\ forall j, live p j -> live p' j.
Proof.
  intros Hinv Hrun.
  destruct (InsertRecord_Ok_inv _ _ _ _ Hinv Hrun) as (_ & appended & Hpost).
  pose proof Hinv as (_ & (Hsc & _) & _).
  destruct Hpost as (Hch & _ & _ & _ & Hh' & Hnew & Hothers & _).
  assert (~ live p slotID) as Hnot.
  { intros [Hr Hu]. unfold chosen_slot in Hch. destruct appended.
    - destruct Hch as [-> _]. lia.
    - destruct Hch as (_ & He & _). exact (slot_empty_not_used _ _ He Hu). }
  split; [|split; [exact Hnot|]].
  - intros Hne.
    assert (len record <> 0) as Hlen.
    { unfold len. destruct record; [congruence|cbn [length]; lia]. }
    split.
    + rewrite Hh'. cbn [SlotCount]. unfold chosen_slot in Hch.
      destruct appended; [destruct Hch as [-> _]|destruct Hch as (? & _)]; lia.
    + eexists. split; [exact Hnew|]. cbn [Size]. exact Hlen.
  - intros j [Hr (s & Hs & Hnz)].
    assert (j <> slotID) as Hj.
    { intros ->. apply Hnot. split; [exact Hr|]. exists s. auto. }
    split.
    + rewrite Hh'. cbn [SlotCount]. destruct appended; lia.
    + exists s. split; [|exact Hnz]. rewrite Hothers by assumption. exact Hs.
Qed.

Lemma UpdateRecord_outcome p slotID newRecord :
  page_inv p -> 0 <= slotID ->
  (UpdateRecord p slotID newRecord).2 = p
  \/ (readHeader (UpdateRecord p slotID newRecord).2 = readHeader p
      /\ forall j, 0 <= j < SlotCount (readHeader p) ->
           readSlot (UpdateRecord p slotID newRecord).2 j = readSlot p j).
Proof.
  intros Hinv Hsid.
  destruct (UpdateRecord p slotID newRecord) as [[[]|e|] q] eqn:Hup; cbn [snd].
  - right.
    destruct (UpdateRecord_Ok_inv _ _ _ _ Hinv Hsid Hup)
      as (Hlt & s & Hs & Hnz & Hlen & Hq).
    pose proof Hinv as (Himg & Hhdr & Hreg & _).
    destruct (Hreg slotID s ltac:(lia) Hs Hnz) as (H1 & H2 & H3).
    pose proof Hhdr as (Hsc & Hfs & Hle & Hfe).
    assert (Data q = store (Data p) (Offset s) newRecord) as Hd
      by (rewrite Hq; reflexivity).
    split.
    + apply (readHeader_store p q (Offset s) newRecord Himg Hd); page_lia.
    + intros j Hj. destruct (slot_in_directory p j Hhdr Hj) as (_ & Hdir & _).
      apply (readSlot_store p q (Offset s) newRecord j Himg Hd); page_lia.
  - left.
    revert Hup. unfold UpdateRecord. cbv zeta.
    repeat (match goal with
            | |- context [if ?c then _ else _] => destruct c
            | |- context [match ?c with Some _ => _ | None => _ end] => destruct c
            end; try congruence).
  - left.
    revert Hup. unfold UpdateRecord. cbv zeta.
    repeat (match goal with
            | |- context [if ?c then _ else _] => destruct c
            | |- context [match ?c with Some _ => _ | None => _ end] => destruct c
            end; try congruence).
Qed.

Lemma live_update p slotID newRecord j :
  page_inv p -> 0 <= slotID -> live p j ->
  live (UpdateRecord p slotID newRecord).2 j.
Proof.
  intros Hinv Hsid [Hr (s & Hs & Hnz)].
  destruct (UpdateRecord_outcome p slotID newRecord Hinv Hsid) as [->|[Hh Hslots]].
  - split; [exact Hr|]. exists s. auto.
  - split; [rewrite Hh; exact Hr|]. exists s. split; [|exact Hnz].
    rewrite Hslots by exact Hr. exact Hs.
Qed.

Lemma DeleteRecord_outcome p slotID :
  page_inv p -> 0 <= slotID ->
  (exists e, DeleteRecord p slotID = (Err e, p))
  \/ (exists p', DeleteRecord p slotID = (Ok tt, p')
        /\ readHeader p' = readHeader p
        /\ forall j, 0 <= j < SlotCount (readHeader p) -> j <> slotID ->
             readSlot p' j = readSlot p j).
Proof.
  intros Hinv Hsid. pose proof Hinv as (_ & Hhdr & _).
  destruct (Z.le_gt_cases (SlotCount (readHeader p)) slotID) as [Hge|Hlt].
  { left. exists NoSuchSlot. unfold DeleteRecord. cbv zeta.
    destruct (Z.leb_spec (SlotCount (readHeader p)) slotID); [reflexivity|lia]. }
  destruct (slot_in_directory p slotID Hhdr ltac:(lia)) as (_ & _ & Hs).
  destruct (Z.eq_dec (Size (slot_at (Data p) (slot_offset slotID))) 0) as [Hz|Hnz].
  { left. exists AlreadyEmpty. unfold DeleteRecord. cbv zeta. rewrite Hs, Hz.
    change (0 =? 0) with true. cbv iota.
    destruct (Z.leb_spec (SlotCount (readHeader p)) slotID); [lia|reflexivity]. }
  right.
  destruct (DeleteRecord_ok p slotID Hinv ltac:(lia))
    as (p' & Hrun & _ & Hh & _ & Hothers & _); [eexists; eauto|].
  exists p'. auto.
Qed.

Lemma live_delete p slotID j :
  page_inv p -> 0 <= slotID -> live p j -> j <> slotID ->
  live (DeleteRecord p slotID).2 j.
Proof.
  intros Hinv Hsid [Hr (s & Hs & Hnz)] Hne.
  destruct (DeleteRecord_outcome p slotID Hinv Hsid)
    as [[e ->]|(p' & -> & Hh & Hothers)]; cbn [snd].
  - split; [exact Hr|]. exists s. auto.
  - split; [rewrite Hh; exact Hr|]. exists s. split; [|exact Hnz].
    rewrite Hothers by assumption. exact Hs.
Qed.

Lemma live_GetRecord p j :
  page_inv p -> live p j -> exists record, GetRecord p j = Ok record /\ record <> [].
Proof.
  intros Hinv [Hr (s & Hs & Hnz)].
  pose proof Hinv as (Himg & (Hsc & Hfs & Hle & Hfe) & Hreg & _).
  destruct (Hreg j s Hr Hs Hnz) as (H1 & H2 & H3).
  eexists. split; [apply (GetRecord_used p j s Hinv Hr Hs Hnz)|].
  intros Hnil. apply (f_equal len) in Hnil.
  rewrite len_slice in Hnil by page_lia. unfold len in Hnil. cbn in Hnil. lia.
Qed.

Lemma live_NewPage pageID j : ~ live (NewPage pageID) j.
Proof.
  intros [Hr _]. rewrite NewPage_header in Hr. cbn [SlotCount] in Hr. lia.
Qed.

End page_live.

(** ** The storage layer: where the records of a run are *)

Section layer_reachable.
Import layer.

Lemma contents_empty dm fs t : heap_empty fs -> disk.contents dm fs t = [].
Proof.
  intros Hempty. unfold disk.contents.
  destruct (host.heap_files fs !! disk.filePath dm t) as [data|] eqn:Hd;
    [|reflexivity].
  cbn. unfold id. exact (Hempty _ _ Hd).
Qed.

Lemma page_at_empty pageID : disk.page_at [] pageID = Err IOError.
Proof.
  unfold disk.page_at, disk.PageSize, len. cbv zeta. cbn [length].
  destruct (Z.ltb_spec (pageID * 4096) 0); [reflexivity|].
  destruct (Z.ltb_spec (Z.of_nat 0) (pageID * 4096 + 4096)); [reflexivity|lia].
Qed.

(** While no heap file has been written, opening a file changes no page
    count. *)
Lemma getFile_quiet dm fs tableName :
  heap_empty fs ->
  exists dm' fs',
    disk.getFile dm fs tableName = (Ok tt, dm', fs')
    /\ heap_empty fs'
    /\ (forall t, disk.GetPageCount dm' t = disk.GetPageCount dm t)
    /\ host.index_files fs' = host.index_files fs.
Proof.
  intros Hempty. unfold disk.getFile.
  destruct (decide (tableName ∈ disk.files dm)).
  { exists dm, fs. auto. }
  set (fs' := match host.heap_files fs !! disk.filePath dm tableName with
              | Some _ => fs
              | None => host.set_heap fs (<[disk.filePath dm tableName := []]>
                                            (host.heap_files fs))
              end).
  assert (heap_empty fs') as Hempty'.
  { unfold fs'. destruct (host.heap_files fs !! disk.filePath dm tableName);
      [exact Hempty|].
    intros path data. cbn [host.set_heap host.heap_files].
    destruct (decide (path = disk.filePath dm tableName)) as [->|Hne].
    - rewrite lookup_insert_eq. congruence.
    - rewrite lookup_insert_ne by congruence. apply Hempty. }
  eexists _, fs'. split; [reflexivity|]. split; [exact Hempty'|]. split.
  - intros t. unfold disk.GetPageCount. cbn [disk.pageCounter].
    destruct (disk.pageCounter dm !! tableName) eqn:Hc; [reflexivity|].
    rewrite (contents_empty dm fs' tableName Hempty').
    destruct (decide (t = tableName)) as [->|Hne].
    + rewrite lookup_insert_eq, Hc. reflexivity.
    + rewrite lookup_insert_ne by congruence. reflexivity.
  - unfold fs'. destruct (host.heap_files fs !! disk.filePath dm tableName);
      reflexivity.
Qed.

Lemma getPage_quiet tableName pageID st :
  heap_empty st.2 ->
  heap_empty (getPage tableName pageID st).2.2
  /\ (forall t p, cached (getPage tableName pageID st).2.1 t p = cached st.1 t p)
  /\ (forall t, disk.GetPageCount (diskManager (getPage tableName pageID st).2.1) t
                = disk.GetPageCount (diskManager st.1) t)
  /\ host.index_files (getPage tableName pageID st).2.2 = host.index_files st.2
  /\ (getPage tableName pageID st).1
     = match cached st.1 tableName pageID with
       | Some pg => Ok pg
       | None => Err IOError
       end.
Proof.
  destruct st as [fsl fs]. cbn [fst snd]. intros Hempty. unfold getPage.
  destruct (cached fsl tableName pageID) as [pg|] eqn:Hc; [auto|].
  destruct (ReadPage_state (diskManager fsl) fs tableName pageID)
    as (dm' & fs' & -> & Hget).
  destruct (getFile_quiet (diskManager fsl) fs tableName Hempty)
    as (dm0 & fs0 & Hget' & Hempty' & Hcount & Hidx).
  rewrite Hget in Hget'. injection Hget' as <- <-.
  rewrite (contents_empty _ _ _ Hempty), page_at_empty. cbn [fst snd].
  split; [exact Hempty'|]. split; [reflexivity|]. split; [exact Hcount|].
  split; [exact Hidx|reflexivity].
Qed.

Lemma cached_put_same fsl tableName pageID pg t p :
  cached fsl tableName pageID = Some pg ->
  cached (put_page fsl tableName pageID pg) t p = cached fsl t p.
Proof.
  intros Hc. rewrite cached_put_page.
  destruct (decide _) as [[-> ->]|_]; [symmetry; exact Hc|reflexivity].
Qed.

(** The page loop of [insertRecord] while no heap file has been written:
    it places the record in a cached page of the table, or changes no
    page. *)
Lemma scan_pages_quiet tableName recordData : forall n pageID st,
  layer_ok st -> heap_empty st.2 ->
  exists r st',
    scan_pages tableName recordData pageID n st = (r, st')
    /\ layer_ok st' /\ heap_empty st'.2
    /\ same_tables st.1 st'.1
    /\ (forall t, disk.GetPageCount (diskManager st'.1) t
                  = disk.GetPageCount (diskManager st.1) t)
    /\ host.index_files st'.2 = host.index_files st.2
    /\ match r with
       | Ok None => forall t p, cached st'.1 t p = cached st.1 t p
       | Ok (Some (p, s)) =>
           exists pg pg',
             cached st.1 tableName p = Some pg
             /\ page.InsertRecord pg recordData = (Ok s, pg')
             /\ forall t' p', cached st'.1 t' p'
                              = if decide (t' = tableName /\ p' = p) then Some pg'
                                else cached st.1 t' p'
       | _ => False
       end.
Proof.
  induction n as [|n IH]; intros pageID st Hok Hempty.
  - exists (Ok None), st. cbn [scan_pages]. split; [reflexivity|].
    split; [exact Hok|]. split; [exact Hempty|]. split; [repeat split|]. auto.
  - cbn [scan_pages].
    destruct (getPage_quiet tableName pageID st Hempty)
      as (Hempty1 & Hc1 & Hn1 & Hi1 & Hres).
    destruct (getPage_ok tableName pageID st Hok) as (Hok1 & Hsame1 & Hpg).
    destruct (getPage tableName pageID st) as [r1 [fsl1 fs1]]. cbn [fst snd] in *.
    destruct (cached st.1 tableName pageID) as [pg|] eqn:Hcached; subst r1.
    + destruct (Hpg pg eq_refl) as [Hinv Hcached1].
      destruct (InsertRecord_cases pg recordData Hinv)
        as [(_ & Hfull)|(_ & s & appended & pg' & Hins & Hpost)].
      * rewrite Hfull.
        destruct (IH (to_int32 (pageID + 1)) (put_page fsl1 tableName pageID pg, fs1))
          as (r & st' & Hrun & Hok' & Hempty' & Hsame' & Hn' & Hi' & Hr).
        { destruct Hok1 as [Hco Hh]. split; [|exact Hh].
          apply cache_ok_put_page; assumption. }
        { exact Hempty1. }
        cbn [fst snd put_page set_pageCache diskManager] in *.
        exists r, st'. split; [exact Hrun|]. split; [exact Hok'|].
        split; [exact Hempty'|]. split.
        { eapply same_tables_trans; [exact Hsame1|].
          eapply same_tables_trans; [apply same_tables_put_page|exact Hsame']. }
        split; [intros t; rewrite Hn'; apply Hn1|].
        split; [rewrite Hi'; exact Hi1|].
        assert (forall t p, cached (put_page fsl1 tableName pageID pg) t p
                            = cached st.1 t p) as Hsamec.
        { intros t p. rewrite (cached_put_same _ _ _ _ _ _ Hcached1). apply Hc1. }
        destruct r as [[[p s]|]|e|]; try exact Hr.
        -- destruct Hr as (pg0 & pg0' & Hc0 & Hins0 & Hform).
           exists pg0, pg0'. rewrite <- Hsamec. split; [exact Hc0|].
           split; [exact Hins0|]. intros t' p'. rewrite Hform, Hsamec. reflexivity.
        -- intros t p. rewrite Hr. apply Hsamec.
      * rewrite Hins.
        exists (Ok (Some (pageID, s))), (put_page fsl1 tableName pageID pg', fs1).
        split; [reflexivity|]. cbn [fst snd put_page set_pageCache diskManager].
        pose proof (insert_post_inv _ _ _ _ _ Hinv
                      (proj1 (InsertRecord_Ok_inv _ _ _ _ Hinv Hins)) Hpost) as Hinv'.
        split.
        { destruct Hok1 as [Hco Hh]. split; [|exact Hh].
          apply cache_ok_put_page; assumption. }
        split; [exact Hempty1|]. split.
        { eapply same_tables_trans; [exact Hsame1|apply same_tables_put_page]. }
        split; [exact Hn1|]. split; [exact Hi1|].
        exists pg, pg'. split; [exact Hcached|]. split; [exact Hins|].
        intros t' p'.
        change (cached (set_pageCache fsl1 _) t' p')
          with (cached (put_page fsl1 tableName pageID pg') t' p').
        rewrite cached_put_page. destruct (decide _); [reflexivity|apply Hc1].
    + destruct (IH (to_int32 (pageID + 1)) (fsl1, fs1) Hok1 Hempty1)
        as (r & st' & Hrun & Hok' & Hempty' & Hsame' & Hn' & Hi' & Hr).
      cbn [fst snd] in *.
      exists r, st'. split; [exact Hrun|]. split; [exact Hok'|].
      split; [exact Hempty'|]. split; [eapply same_tables_trans; eassumption|].
      split; [intros t; rewrite Hn'; apply Hn1|].
      split; [rewrite Hi'; exact Hi1|].
      destruct r as [[[p s]|]|e|]; try exact Hr.
      * destruct Hr as (pg0 & pg0' & Hc0 & Hins0 & Hform).
        exists pg0, pg0'. rewrite <- Hc1. split; [exact Hc0|].
        split; [exact Hins0|]. intros t' p'. rewrite Hform, Hc1. reflexivity.
      * intros t p. rewrite Hr. apply Hc1.
Qed.

Lemma to_int32_small z : - 2 ^ 31 <= z < 2 ^ 31 -> to_int32 z = z.
Proof.
  intros Hz. unfold to_int32, wrap_signed. change (2 ^ (32 - 1)) with (2 ^ 31).
  change (2 ^ 32) with (2 * 2 ^ 31). rewrite Z.mod_small by lia. lia.
Qed.

(** [insertRecord] while no heap file has been written: the record goes to
    a cached page of the table or to a new page with the next page number;
    when no page takes it, only the page count changes. *)
Lemma insertRecord_quiet tableName recordData st :
  layer_ok st -> heap_empty st.2 -> counted st.1 ->
  0 <= disk.GetPageCount (diskManager st.1) tableName < 2 ^ 31 - 1 ->
  exists r st',
    insertRecord tableName recordData st = (r, st')
    /\ layer_ok st' /\ heap_empty st'.2
    /\ same_tables st.1 st'.1
    /\ host.index_files st'.2 = host.index_files st.2
    /\ (forall t, t <> tableName ->
          disk.GetPageCount (diskManager st'.1) t
          = disk.GetPageCount (diskManager st.1) t)
    /\ disk.GetPageCount (diskManager st.1) tableName
       <= disk.GetPageCount (diskManager st'.1) tableName
       <= disk.GetPageCount (diskManager st.1) tableName + 1
    /\ match r with
       | Ok (p, s) =>
           exists pg pg',
             page.page_inv pg
             /\ page.InsertRecord pg recordData = (Ok s, pg')
             /\ (forall pg0, cached st.1 tableName p = Some pg0 -> pg0 = pg)
             /\ (cached st.1 tableName p = None -> forall j, ~ page.live pg j)
             /\ 0 <= p < disk.GetPageCount (diskManager st'.1) tableName
             /\ forall t' p', cached st'.1 t' p'
                              = if decide (t' = tableName /\ p' = p) then Some pg'
                                else cached st.1 t' p'
       | Err _ => forall t p, cached st'.1 t p = cached st.1 t p
       | Panic => False
       end.
Proof.
  intros Hok Hempty Hcounted Hcount. unfold insertRecord.
  set (c := disk.GetPageCount (diskManager st.1) tableName) in *.
  destruct (scan_pages_quiet tableName recordData (Z.to_nat c) 0 st Hok Hempty)
    as (r1 & [fsl1 fs1] & -> & Hok1 & Hempty1 & Hsame1 & Hn1 & Hi1 & Hr1).
  cbn [fst snd] in *.
  destruct r1 as [[[p s]|]|e|]; try contradiction.
  - destruct Hr1 as (pg & pg' & Hc & Hins & Hform).
    exists (Ok (p, s)), (fsl1, fs1). split; [reflexivity|]. cbn [fst snd].
    split; [exact Hok1|]. split; [exact Hempty1|]. split; [exact Hsame1|].
    split; [exact Hi1|]. split; [intros t _; apply Hn1|].
    split; [rewrite Hn1; fold c; lia|].
    exists pg, pg'. split; [exact (proj1 Hok _ _ _ Hc)|]. split; [exact Hins|].
    split; [intros pg0 H0; congruence|]. split; [intros H0; congruence|].
    split; [rewrite Hn1; exact (Hcounted _ _ _ Hc)|exact Hform].
  - destruct (AllocatePage_result (diskManager fsl1) fs1 tableName)
      as (dm0 & fs' & Hget & ->).
    destruct (getFile_quiet (diskManager fsl1) fs1 tableName Hempty1)
      as (dm0' & fs0' & Hget' & Hempty' & Hn0 & Hi0).
    rewrite Hget in Hget'. injection Hget' as <- <-.
    assert (disk.GetPageCount dm0 tableName = c) as Hc0
      by (rewrite Hn0, Hn1; reflexivity).
    rewrite Hc0.
    set (dm' := {| disk.basePath := disk.basePath dm0; disk.files := disk.files dm0;
                   disk.pageCounter :=
                     <[tableName := to_int32 (c + 1)]> (disk.pageCounter dm0) |}).
    assert (disk.GetPageCount dm' tableName = c + 1) as Hc'.
    { unfold disk.GetPageCount. cbn [dm' disk.pageCounter].
      rewrite lookup_insert_eq. cbn [default]. unfold id.
      apply to_int32_small. lia. }
    assert (forall t, t <> tableName ->
              disk.GetPageCount dm' t = disk.GetPageCount (diskManager st.1) t) as Hother.
    { intros t Hne. unfold disk.GetPageCount at 1. cbn [dm' disk.pageCounter].
      rewrite lookup_insert_ne by congruence.
      change (default 0 (disk.pageCounter dm0 !! t)) with (disk.GetPageCount dm0 t).
      rewrite Hn0. apply Hn1. }
    assert (heap_ok fs') as Hheap'.
    { pose proof (getFile_heap (diskManager fsl1) fs1 tableName (proj2 Hok1)) as H.
      rewrite Hget in H. exact H. }
    assert (cached st.1 tableName c = None) as Hfree.
    { destruct (cached st.1 tableName c) as [pg0|] eqn:H0; [|reflexivity].
      apply Hcounted in H0. fold c in H0. lia. }
    destruct (InsertRecord_cases (page.NewPage c) recordData (NewPage_inv c))
      as [(_ & Hfull)|(Hfit & s & appended & pg' & Hins & Hpost)].
    + rewrite Hfull.
      exists (Err PageFull), (set_diskManager fsl1 dm', fs'). split; [reflexivity|].
      cbn [fst snd set_diskManager diskManager].
      split; [split; [exact (proj1 Hok1)|exact Hheap']|]. split; [exact Hempty'|].
      split; [eapply same_tables_trans;
              [exact Hsame1|apply same_tables_set_diskManager]|].
      split; [rewrite Hi0; exact Hi1|]. split; [exact Hother|].
      split; [rewrite Hc'; lia|]. exact Hr1.
    + rewrite Hins.
      exists (Ok (c, s)), (put_page (set_diskManager fsl1 dm') tableName c pg', fs').
      split; [reflexivity|].
      cbn [fst snd put_page set_pageCache set_diskManager diskManager].
      pose proof (insert_post_inv _ _ _ _ _ (NewPage_inv c) Hfit Hpost) as Hinv'.
      split.
      { split; [|exact Hheap'].
        apply (cache_ok_put_page (set_diskManager fsl1 dm'));
          [exact (proj1 Hok1)|exact Hinv']. }
      split; [exact Hempty'|]. split.
      { eapply same_tables_trans; [exact Hsame1|].
        eapply same_tables_trans; [apply same_tables_set_diskManager|].
        apply same_tables_put_page. }
      split; [rewrite Hi0; exact Hi1|]. split; [exact Hother|].
      split; [rewrite Hc'; lia|].
      exists (page.NewPage c), pg'. split; [apply NewPage_inv|]. split; [exact Hins|].
      split; [intros pg0 H0; congruence|].
      split; [intros _ j; apply live_NewPage|]. split; [rewrite Hc'; lia|].
      intros t' p'.
      rewrite cached_put_page. destruct (decide _); [reflexivity|].
      change (cached (set_diskManager fsl1 dm') t' p') with (cached fsl1 t' p').
      apply Hr1.
Qed.

Lemma fetch_quiet st t p :
  heap_empty st.2 ->
  fetch st t p = match cached st.1 t p with
                 | Some pg => Ok pg
                 | None => Err IOError
                 end.
Proof.
  intros Hempty. unfold fetch. destruct (cached st.1 t p); [reflexivity|].
  rewrite (contents_empty _ _ _ Hempty), page_at_empty. reflexivity.
Qed.

Lemma records_state_ok k st : records_ok k st -> state_ok st.
Proof.
  intros (Hok & _ & Hfiles & Hloc & _). split; [exact Hok|]. split; [|exact Hfiles].
  intros t idx id rid Hidx Hrid.
  destruct (Hloc t idx id rid Hidx Hrid) as (pg & _ & [Hr _]). lia.
Qed.

Lemma records_ok_mono k k' st : records_ok k st -> k <= k' -> records_ok k' st.
Proof.
  intros (H1 & H2 & H3 & H4 & H5 & H6 & H7 & H8) Hk.
  repeat (split; [assumption|]). split; [|exact H8].
  intros t. specialize (H7 t). lia.
Qed.

(** The locations stay where they are when a page is replaced by one that
    keeps its records. *)
Lemma located_after_place fsl fsl1 t p pg pg' :
  located fsl -> indexes fsl1 = indexes fsl ->
  (forall pg0, cached fsl t p = Some pg0 -> pg0 = pg) ->
  (forall j, page.live pg j -> page.live pg' j) ->
  (forall t' p', cached fsl1 t' p'
                 = if decide (t' = t /\ p' = p) then Some pg' else cached fsl t' p') ->
  located fsl1.
Proof.
  intros Hloc Hi Hsame Hkeep Hform t' idx id rid Hidx Hrid.
  rewrite Hi in Hidx. destruct (Hloc t' idx id rid Hidx Hrid) as (pgx & Hc & Hlive).
  rewrite Hform. destruct (decide _) as [[-> Hp]|_].
  - exists pg'. split; [reflexivity|]. apply Hkeep.
    rewrite Hp in Hc. rewrite <- (Hsame _ Hc). exact Hlive.
  - exists pgx. auto.
Qed.

Lemma located_same fsl fsl1 :
  located fsl -> indexes fsl1 = indexes fsl ->
  (forall t p, cached fsl1 t p = cached fsl t p) -> located fsl1.
Proof.
  intros Hloc Hi Hc t idx id rid Hidx Hrid. rewrite Hi in Hidx.
  destruct (Hloc t idx id rid Hidx Hrid) as (pg & Hcp & Hlive).
  exists pg. rewrite Hc. auto.
Qed.

Lemma distinct_same fsl fsl1 t :
  locations_distinct fsl t -> indexes fsl1 = indexes fsl -> locations_distinct fsl1 t.
Proof. intros Hd Hi idx id1 id2 rid1 rid2. rewrite Hi. apply Hd. Qed.

Lemma records_ok_Insert k tableName recordData st :
  records_ok k st -> k < 2 ^ 31 - 1 -> recordData <> [] ->
  records_ok (k + 1) (Insert tableName recordData st).2.
Proof.
  intros HJ Hk Hne.
  pose proof HJ as (Hok & Hempty & Hfiles & Hloc & Hdist & Hcounted & Hbound & Hclosed).
  destruct st as [fsl fs]. cbn [fst snd] in *. unfold Insert.
  destruct (isOpen fsl) eqn:Hopen; cbn [negb];
    [|apply (records_ok_mono k); [exact HJ|lia]].
  destruct (catalog.TableExists (catalog fsl) tableName); cbn [negb];
    [|apply (records_ok_mono k); [exact HJ|lia]].
  destruct (insertRecord_quiet tableName recordData (fsl, fs) Hok Hempty Hcounted)
    as (r & [fsl1 fs1] & -> & Hok1 & Hempty1 & (Ho & Hi & _) & Hif & Hother & Hc & Hr).
  { cbn [fst]. specialize (Hbound tableName). lia. }
  cbn [fst snd] in *.
  assert (forall t, 0 <= disk.GetPageCount (diskManager fsl1) t <= k + 1) as Hbound1.
  { intros t. destruct (decide (t = tableName)) as [->|Hnt].
    - specialize (Hbound tableName). lia.
    - rewrite (Hother t Hnt). specialize (Hbound t). lia. }
  assert (forall t, disk.GetPageCount (diskManager fsl) t
                    <= disk.GetPageCount (diskManager fsl1) t) as Hgrow.
  { intros t. destruct (decide (t = tableName)) as [->|Hnt]; [lia|].
    rewrite (Hother t Hnt). lia. }
  assert (isOpen fsl1 = false -> pageCache fsl1 = ∅ /\ indexes fsl1 = ∅) as Hclosed1
    by (intros H; congruence).
  destruct r as [[p s]|e|]; [| |contradiction].
  - destruct Hr as (pg & pg' & Hinv & Hins & Hsame & Hfresh & Hrange & Hform).
    destruct (live_insert pg recordData s pg' Hinv Hins) as (Hnew & Hnot & Hkeep).
    specialize (Hnew Hne).
    assert (located fsl1) as Hloc1
      by (exact (located_after_place fsl fsl1 tableName p pg pg' Hloc Hi Hsame Hkeep Hform)).
    assert (counted fsl1) as Hcounted1.
    { intros t q pgx Hcq. rewrite Hform in Hcq.
      destruct (decide _) as [[-> ->]|_]; [exact Hrange|].
      pose proof (Hcounted _ _ _ Hcq). specialize (Hgrow t). lia. }
    destruct (indexes fsl1 !! tableName) as [idx|] eqn:Hidx; cbn [snd].
    + unfold bptree.Insert. cbn [snd].
      set (rid := {| bptree.PageID := p; bptree.SlotID := s |}).
      set (idx' := {| bptree.tableName := bptree.tableName idx;
                      bptree.basePath := bptree.basePath idx;
                      bptree.index := <[bptree.nextID idx := rid]> (bptree.index idx);
                      bptree.nextID := to_int (bptree.nextID idx + 1) |}).
      assert (forall id2 rid2, bptree.index idx !! id2 = Some rid2 ->
                (bptree.PageID rid2, bptree.SlotID rid2) <> (p, s)) as Hfar.
      { intros id2 rid2 Hrid2 [= Hp Hs].
        rewrite Hi in Hidx.
        destruct (Hloc tableName idx id2 rid2 Hidx Hrid2) as (pgx & Hcx & Hlx).
        rewrite Hp in Hcx. rewrite (Hsame _ Hcx), Hs in Hlx. exact (Hnot Hlx). }
      split; [exact Hok1|]. split; [exact Hempty1|].
      split; [cbn [snd]; congruence|]. cbn [fst].
      split; [|split; [|split; [exact Hcounted1|split; [exact Hbound1|]]]].
      * intros t idx0 id rid0. cbn [set_indexes indexes].
        destruct (decide (t = tableName)) as [->|Hnt].
        -- rewrite lookup_insert_eq. intros [= <-]. cbn [idx' bptree.index].
           destruct (decide (id = bptree.nextID idx)) as [->|Hnid].
           ++ rewrite lookup_insert_eq. intros [= <-]. cbn [rid bptree.PageID bptree.SlotID].
              exists pg'. split; [|exact Hnew].
              change (cached (set_indexes fsl1 _) tableName p)
                with (cached fsl1 tableName p).
              rewrite Hform. destruct (decide _) as [_|[]]; auto.
           ++ rewrite lookup_insert_ne by congruence. intros Hrid0.
              exact (Hloc1 tableName idx id rid0 Hidx Hrid0).
        -- rewrite lookup_insert_ne by congruence. apply Hloc1.
      * intros t idx0 id1 id2 rid1 rid2. cbn [set_indexes indexes].
        destruct (decide (t = tableName)) as [->|Hnt].
        -- rewrite lookup_insert_eq. intros [= <-]. cbn [idx' bptree.index].
           intros H1 H2 Hne12.
           apply lookup_insert_Some in H1 as [[<- <-]|[Hn1 H1]];
             apply lookup_insert_Some in H2 as [[<- <-]|[Hn2 H2]].
           ++ congruence.
           ++ cbn [rid bptree.PageID bptree.SlotID]. intros Heq.
              apply (Hfar id2 rid2 H2). congruence.
           ++ cbn [rid bptree.PageID bptree.SlotID]. apply (Hfar id1 rid1 H1).
           ++ rewrite Hi in Hidx.
              exact (Hdist tableName idx id1 id2 rid1 rid2 Hidx H1 H2 Hne12).
        -- rewrite lookup_insert_ne by congruence. rewrite Hi. apply Hdist.
      * cbn [set_indexes isOpen]. intros H. congruence.
    + split; [exact Hok1|]. split; [exact Hempty1|]. split; [cbn [snd]; congruence|].
      split; [exact Hloc1|].
      split; [intros t; apply (distinct_same fsl); [apply Hdist|exact Hi]|].
      split; [exact Hcounted1|]. split; [exact Hbound1|exact Hclosed1].
  - cbn [snd]. split; [exact Hok1|]. split; [exact Hempty1|].
    split; [cbn [snd]; congruence|].
    split; [exact (located_same fsl fsl1 Hloc Hi Hr)|].
    split; [intros t; apply (distinct_same fsl); [apply Hdist|exact Hi]|].
    split; [|split; [exact Hbound1|exact Hclosed1]].
    intros t q pgx Hcq. cbn [fst] in *. rewrite Hr in Hcq.
    pose proof (Hcounted _ _ _ Hcq). specialize (Hgrow t). lia.
Qed.

Lemma records_ok_getPage k tableName pageID st :
  records_ok k st -> isOpen st.1 = true ->
  records_ok k (getPage tableName pageID st).2.
Proof.
  intros (Hok & Hempty & Hfiles & Hloc & Hdist & Hcounted & Hbound & _) Hopen.
  destruct (getPage_ok tableName pageID st Hok) as (Hok1 & (Ho & Hi & _) & _).
  destruct (getPage_quiet tableName pageID st Hempty) as (Hempty1 & Hc & Hn & Hif & _).
  split; [exact Hok1|]. split; [exact Hempty1|]. split; [congruence|].
  split; [exact (located_same _ _ Hloc Hi Hc)|].
  split; [intros t; apply (distinct_same st.1); [apply Hdist|exact Hi]|].
  split; [|split].
  - intros t p pg Hcp. rewrite Hc in Hcp. rewrite Hn. exact (Hcounted _ _ _ Hcp).
  - intros t. rewrite Hn. apply Hbound.
  - intros H. congruence.
Qed.

(** Replacing a cached page by a page that keeps its records keeps the
    invariant. *)
Lemma records_ok_put_page k fsl fs tableName pageID pg pg' :
  records_ok k (fsl, fs) -> cached fsl tableName pageID = Some pg ->
  page.page_inv pg' -> (forall j, page.live pg j -> page.live pg' j) ->
  isOpen fsl = true ->
  records_ok k (put_page fsl tableName pageID pg', fs).
Proof.
  intros (Hok & Hempty & Hfiles & Hloc & Hdist & Hcounted & Hbound & _)
    Hc Hinv' Hkeep Hopen.
  cbn [fst snd] in *.
  split; [split; [apply cache_ok_put_page; [exact (proj1 Hok)|exact Hinv']
                 |exact (proj2 Hok)]|].
  split; [exact Hempty|]. split; [exact Hfiles|]. cbn [fst].
  split; [|split; [|split; [|split]]].
  - apply (located_after_place fsl (put_page fsl tableName pageID pg')
             tableName pageID pg pg' Hloc eq_refl);
      [intros pg0 H0; congruence|exact Hkeep|].
    intros t' p'. apply cached_put_page.
  - intros t. apply (distinct_same fsl); [apply Hdist|reflexivity].
  - intros t p pgx Hcp. rewrite cached_put_page in Hcp.
    destruct (decide _) as [[-> ->]|_]; [exact (Hcounted _ _ _ Hc)|].
    exact (Hcounted _ _ _ Hcp).
  - exact Hbound.
  - cbn [put_page set_pageCache isOpen]. intros H. congruence.
Qed.

Lemma records_ok_Get k tableName recordID st :
  records_ok k st -> records_ok k (Get tableName recordID st).2.
Proof.
  intros HJ. destruct st as [fsl fs]. unfold Get.
  destruct (isOpen fsl) eqn:Hopen; cbn [negb]; [|exact HJ].
  destruct (indexes fsl !! tableName) as [idx|]; [|exact HJ].
  destruct (bptree.Search idx recordID) as [rid|]; [|exact HJ].
  pose proof (records_ok_getPage k tableName (bptree.PageID rid) (fsl, fs) HJ Hopen) as H.
  destruct (getPage tableName (bptree.PageID rid) (fsl, fs)) as [[pg|e|] st1]; exact H.
Qed.

Lemma records_ok_Update k tableName recordID updatedRecord st :
  records_ok k st -> records_ok k (Update tableName recordID updatedRecord st).2.
Proof.
  intros HJ. pose proof (records_state_ok k st HJ) as (_ & Hiok & _).
  destruct st as [fsl fs]. unfold Update. cbn [fst] in *.
  destruct (isOpen fsl) eqn:Hopen; cbn [negb]; [|exact HJ].
  destruct (indexes fsl !! tableName) as [idx|] eqn:Hidx; [|exact HJ].
  destruct (bptree.Search idx recordID) as [rid|] eqn:Hrid; [|exact HJ].
  pose proof (Hiok tableName idx recordID rid Hidx Hrid) as Hslot.
  pose proof (records_ok_getPage k tableName (bptree.PageID rid) (fsl, fs) HJ Hopen) as H.
  destruct (getPage_ok tableName (bptree.PageID rid) (fsl, fs) (proj1 HJ))
    as (_ & (Ho & _) & Hpg).
  destruct (getPage tableName (bptree.PageID rid) (fsl, fs)) as [[pg|e|] [fsl1 fs1]];
    cbn [fst snd] in *; try exact H.
  destruct (Hpg pg eq_refl) as [Hinv Hc].
  pose proof (UpdateRecord_inv pg (bptree.SlotID rid) updatedRecord Hinv Hslot) as Hinv'.
  pose proof (fun j => live_update pg (bptree.SlotID rid) updatedRecord j Hinv Hslot)
    as Hkeep.
  destruct (page.UpdateRecord pg (bptree.SlotID rid) updatedRecord) as [r pg'].
  cbn [snd] in *.
  apply (records_ok_put_page k fsl1 fs1 _ _ pg pg' H Hc Hinv' Hkeep). congruence.
Qed.

Lemma records_ok_DeleteRecord k tableName recordID st :
  records_ok k st -> records_ok k (DeleteRecord tableName recordID st).2.
Proof.
  intros HJ. pose proof (records_state_ok k st HJ) as (_ & Hiok & _).
  destruct st as [fsl fs]. unfold DeleteRecord. cbn [fst] in *.
  destruct (isOpen fsl) eqn:Hopen; cbn [negb]; [|exact HJ].
  destruct (indexes fsl !! tableName) as [idx|] eqn:Hidx; [|exact HJ].
  destruct (bptree.Search idx recordID) as [rid|] eqn:Hrid; [|exact HJ].
  pose proof (Hiok tableName idx recordID rid Hidx Hrid) as Hslot.
  pose proof (records_ok_getPage k tableName (bptree.PageID rid) (fsl, fs) HJ Hopen) as H.
  destruct (getPage_ok tableName (bptree.PageID rid) (fsl, fs) (proj1 HJ))
    as (_ & (Ho & Hi & _) & Hpg).
  destruct (getPage tableName (bptree.PageID rid) (fsl, fs)) as [[pg|e|] [fsl1 fs1]];
    cbn [fst snd] in *; try exact H.
  destruct (Hpg pg eq_refl) as [Hinv Hc].
  assert (isOpen fsl1 = true) as Hopen1 by congruence.
  destruct (DeleteRecord_outcome pg (bptree.SlotID rid) Hinv Hslot)
    as [[e ->]|(pg' & Hdel & Hh & Hothers)].
  { apply (records_ok_put_page k fsl1 fs1 _ _ pg pg H Hc Hinv); auto. }
  pose proof (DeleteRecord_inv pg (bptree.SlotID rid) Hinv Hslot) as Hinv'.
  pose proof (fun j => live_delete pg (bptree.SlotID rid) j Hinv Hslot) as Hkeep.
  rewrite Hdel in *. cbn [snd] in *.
  rewrite <- Hi in Hidx.
  cbn [put_page set_pageCache indexes]. rewrite Hidx.
  unfold bptree.Delete. unfold bptree.Search in Hrid. rewrite Hrid. cbn [snd].
  destruct H as (Hok1 & Hempty1 & Hfiles1 & Hloc1 & Hdist1 & Hcounted1 & Hbound1 & _).
  cbn [fst snd] in *.
  split; [split; [apply (cache_ok_put_page fsl1); [exact (proj1 Hok1)|exact Hinv']
                 |exact (proj2 Hok1)]|].
  split; [exact Hempty1|]. split; [exact Hfiles1|]. cbn [fst].
  split; [|split; [|split; [|split]]].
  - intros t idx0 id rid0. cbn [set_indexes indexes].
    change (cached (set_indexes ?f ?i) ?a ?b) with (cached f a b).
    destruct (decide (t = tableName)) as [->|Hnt].
    + rewrite lookup_insert_eq. intros [= <-]. cbn [bptree.index]. intros Hrid0.
      apply lookup_delete_Some in Hrid0 as [Hnid Hrid0].
      destruct (Hloc1 tableName idx id rid0 Hidx Hrid0) as (pgx & Hcx & Hlx).
      change (cached (set_pageCache fsl1 _) tableName (bptree.PageID rid0))
        with (cached (put_page fsl1 tableName (bptree.PageID rid) pg')
                tableName (bptree.PageID rid0)).
      rewrite cached_put_page. destruct (decide _) as [[_ Hp]|_].
      * exists pg'. split; [reflexivity|]. apply Hkeep.
        -- rewrite Hp in Hcx. congruence.
        -- intros Hs.
           apply (Hdist1 tableName idx id recordID rid0 rid Hidx Hrid0 Hrid);
             congruence.
      * exists pgx. auto.
    + rewrite lookup_insert_ne by congruence. intros Hidx0 Hrid0.
      destruct (Hloc1 t idx0 id rid0 Hidx0 Hrid0) as (pgx & Hcx & Hlx).
      change (cached (set_pageCache fsl1 _) t (bptree.PageID rid0))
        with (cached (put_page fsl1 tableName (bptree.PageID rid) pg')
                t (bptree.PageID rid0)).
      rewrite cached_put_page. destruct (decide _) as [[? _]|_]; [contradiction|].
      exists pgx. auto.
  - intros t idx0 id1 id2 rid1 rid2. cbn [set_indexes indexes].
    destruct (decide (t = tableName)) as [->|Hnt].
    + rewrite lookup_insert_eq. intros [= <-]. cbn [bptree.index]. intros H1 H2.
      apply lookup_delete_Some in H1 as [_ H1].
      apply lookup_delete_Some in H2 as [_ H2].
      exact (Hdist1 tableName idx id1 id2 rid1 rid2 Hidx H1 H2).
    + rewrite lookup_insert_ne by congruence. apply Hdist1.
  - intros t p pgx.
    change (cached (set_indexes ?f ?i) ?a ?b) with (cached f a b).
    change (cached (set_pageCache fsl1 _) t p)
      with (cached (put_page fsl1 tableName (bptree.PageID rid) pg') t p).
    rewrite cached_put_page. intros Hcp.
    destruct (decide _) as [[-> ->]|_]; [exact (Hcounted1 _ _ _ Hc)|].
    exact (Hcounted1 _ _ _ Hcp).
  - exact Hbound1.
  - cbn [set_indexes put_page set_pageCache isOpen]. intros H. congruence.
Qed.

Lemma records_ok_CreateTable k tableName schema st :
  records_ok k st -> records_ok k (CreateTable tableName schema st).2.
Proof.
  intros HJ.
  pose proof (state_ok_CreateTable tableName schema st (records_state_ok k st HJ))
    as (Hok' & _ & Hfiles').
  destruct HJ as (Hok & Hempty & Hfiles & Hloc & Hdist & Hcounted & Hbound & Hclosed).
  assert (records_ok k st) as HJ by (repeat (split; [assumption|]); assumption).
  destruct st as [fsl fs]. unfold CreateTable in *. cbn [fst snd] in *.
  destruct (isOpen fsl) eqn:Hopen; cbn [negb] in *; [|exact HJ].
  unfold catalog.CreateTable in *.
  destruct (catalog.schemas (catalog fsl) !! tableName); [exact HJ|].
  cbn [catalog.Save fst snd] in *.
  split; [exact Hok'|]. split; [exact Hempty|]. split; [exact Hfiles'|]. cbn [fst].
  assert (forall t p,
            cached {| basePath := basePath fsl; diskManager := diskManager fsl;
                      catalog := {| catalog.basePath := catalog.basePath (catalog fsl);
                                    catalog.schemas :=
                                      <[tableName := schema]>
                                        (catalog.schemas (catalog fsl)) |};
                      pageCache := <[tableName := ∅]> (pageCache fsl);
                      indexes := <[tableName := bptree.NewSimpleIndex tableName
                                                  (basePath fsl)]> (indexes fsl);
                      isOpen := true |} t p
            = if decide (t = tableName) then None else cached fsl t p) as Hcache.
  { intros t p. unfold cached. cbn [pageCache].
    destruct (decide (t = tableName)) as [->|Hnt].
    - rewrite lookup_insert_eq. apply lookup_empty.
    - rewrite lookup_insert_ne by congruence. reflexivity. }
  split; [|split; [|split; [|split]]].
  - intros t idx id rid. cbn [indexes]. rewrite Hcache.
    destruct (decide (t = tableName)) as [->|Hnt].
    + rewrite lookup_insert_eq. intros [= <-]. cbn. rewrite lookup_empty. discriminate.
    + rewrite lookup_insert_ne by congruence. apply Hloc.
  - intros t idx id1 id2 rid1 rid2. cbn [indexes].
    destruct (decide (t = tableName)) as [->|Hnt].
    + rewrite lookup_insert_eq. intros [= <-]. cbn. rewrite lookup_empty. discriminate.
    + rewrite lookup_insert_ne by congruence. apply Hdist.
  - intros t p pg. rewrite Hcache. destruct (decide _); [discriminate|].
    apply Hcounted.
  - exact Hbound.
  - cbn [isOpen]. discriminate.
Qed.

Lemma records_ok_Open k path st :
  records_ok k st -> records_ok k (Open path st).2.
Proof.
  intros HJ.
  pose proof (state_ok_Open path st (records_state_ok k st HJ)) as (Hok' & _ & Hfiles').
  destruct st as [fsl fs]. cbn [fst snd] in *.
  destruct (isOpen fsl) eqn:Hopen.
  { unfold Open. rewrite Hopen. exact HJ. }
  rewrite (Open_closed path fsl fs Hopen) in *. cbn [fst snd] in *.
  destruct HJ as (Hok & Hempty & Hfiles & Hloc & Hdist & Hcounted & Hbound & Hclosed).
  cbn [fst snd] in *. destruct (Hclosed Hopen) as [Hpc Hix].
  set (tables := catalog.ListTables
                   (catalog.Load (catalog.NewCatalogManager path) fs).2) in *.
  assert (forall t idx,
            foldr (fun tableName i =>
                     <[tableName :=
                         (bptree.Load (bptree.NewSimpleIndex tableName path) fs).2]> i)
              (indexes fsl) tables !! t = Some idx ->
            bptree.index idx = ∅) as Hidx.
  { intros t idx. rewrite foldr_insert_lookup.
    destruct (decide _).
    - intros [= <-]. unfold bptree.Load. rewrite Hfiles, lookup_empty. reflexivity.
    - rewrite Hix, lookup_empty. discriminate. }
  split; [exact Hok'|]. split; [exact Hempty|]. split; [exact Hfiles'|]. cbn [fst].
  split; [|split; [|split; [|split]]].
  - intros t idx id rid Hi. cbn [indexes] in Hi. rewrite (Hidx t idx Hi), lookup_empty.
    discriminate.
  - intros t idx id1 id2 rid1 rid2 Hi. cbn [indexes] in Hi.
    rewrite (Hidx t idx Hi), lookup_empty. discriminate.
  - intros t p pg Hc. exfalso. unfold cached in Hc. cbn [pageCache] in Hc.
    rewrite (foldr_insert_lookup (fun _ => ∅)) in Hc.
    destruct (decide _); [rewrite lookup_empty in Hc; discriminate|].
    rewrite Hpc, lookup_empty in Hc. discriminate.
  - intros t. cbn [diskManager]. unfold disk.GetPageCount, disk.NewDiskManager.
    cbn [disk.pageCounter]. rewrite lookup_empty. cbn. specialize (Hbound t). lia.
  - cbn [isOpen]. discriminate.
Qed.

Lemma count_insert_calls_cons c calls :
  count_insert_calls (c :: calls)
  = (if is_insert_call c then 1 else 0) + count_insert_calls calls.
Proof.
  unfold count_insert_calls, len. rewrite filter_cons.
  destruct (is_insert_call c); destruct (decide _) as [H|H];
    try congruence; cbn [length]; lia.
Qed.

Lemma exec_all_records_ok calls : forall k st,
  records_ok k st -> Forall inserts_nonempty calls ->
  k + count_insert_calls calls < 2 ^ 31 - 1 ->
  records_ok (k + count_insert_calls calls) (exec_all st calls).
Proof.
  induction calls as [|c calls IH]; intros k st HJ Hcalls Hk.
  - cbn [exec_all fold_left]. apply (records_ok_mono k); [exact HJ|].
    unfold count_insert_calls, len. cbn. lia.
  - apply Forall_cons in Hcalls as [Hc Hcalls].
    rewrite count_insert_calls_cons in *.
    assert (0 <= count_insert_calls calls) as Hpos
      by (unfold count_insert_calls, len; lia).
    change (exec_all st (c :: calls)) with (exec_all (exec st c) calls).
    destruct c as [path|t schema|t recordData|t id|t id b|t id];
      cbn [is_insert_call exec inserts_nonempty] in *.
    + rewrite Z.add_0_l. apply IH; [apply records_ok_Open, HJ|exact Hcalls|lia].
    + rewrite Z.add_0_l. apply IH; [apply records_ok_CreateTable, HJ|exact Hcalls|lia].
    + rewrite Z.add_assoc.
      apply IH; [apply records_ok_Insert; [exact HJ|lia|exact Hc]|exact Hcalls|lia].
    + rewrite Z.add_0_l. apply IH; [apply records_ok_Get, HJ|exact Hcalls|lia].
    + rewrite Z.add_0_l. apply IH; [apply records_ok_Update, HJ|exact Hcalls|lia].
    + rewrite Z.add_0_l. apply IH; [apply records_ok_DeleteRecord, HJ|exact Hcalls|lia].
Qed.

Lemma records_ok_new : records_ok 0 (NewFileStorageLayer, host.empty_fs).
Proof.
  split; [apply layer_ok_new|]. split.
  { intros path data H. cbn in H. rewrite lookup_empty in H. discriminate. }
  split; [reflexivity|]. cbn [fst].
  split; [|split; [|split; [|split]]].
  - intros t idx id rid H. cbn in H. rewrite lookup_empty in H. discriminate.
  - intros t idx id1 id2 rid1 rid2 H. cbn in H. rewrite lookup_empty in H. discriminate.
  - intros t p pg H. unfold cached in H. cbn in H. rewrite lookup_empty in H.
    discriminate.
  - intros t. unfold disk.GetPageCount. cbn. rewrite lookup_empty. cbn. lia.
  - intros _. split; reflexivity.
Qed.

Lemma reachable_records_ok calls :
  Forall inserts_nonempty calls -> count_insert_calls calls < 2 ^ 31 - 1 ->
  records_ok (count_insert_calls calls)
    (exec_all (NewFileStorageLayer, host.empty_fs) calls).
Proof.
  intros Hcalls Hk.
  exact (exec_all_records_ok calls 0 _ records_ok_new Hcalls Hk).
Qed.

Lemma located_Get k tableName idx recordID rid st :
  records_ok k st ->
  indexes st.1 !! tableName = Some idx -> bptree.index idx !! recordID = Some rid ->
  exists recordData,
    recordData <> [] /\ (Get tableName recordID st).1 = Ok recordData.
Proof.
  intros (Hok & Hempty & _ & Hloc & _ & _ & _ & Hclosed) Hidx Hrid.
  rewrite Get_fst. destruct (isOpen st.1) eqn:Hopen.
  2: { destruct (Hclosed eq_refl) as [_ Hix]. rewrite Hix, lookup_empty in Hidx.
       discriminate. }
  cbn [negb]. rewrite Hidx. unfold bptree.Search. rewrite Hrid.
  destruct (Hloc _ _ _ _ Hidx Hrid) as (pg & Hc & Hlive).
  unfold read. rewrite fetch_quiet by exact Hempty. rewrite Hc.
  destruct (live_GetRecord pg _ (proj1 Hok _ _ _ Hc) Hlive) as (record & Hget & Hne).
  exists record. auto.
Qed.

(** [Insert] changes what [Get] returns for the ID it issues only. *)
Lemma Insert_frame k tableName recordData t other st :
  records_ok k st -> k < 2 ^ 31 - 1 ->
  (t = tableName -> (Insert tableName recordData st).1 <> Ok other) ->
  (Get t other (Insert tableName recordData st).2).1 = (Get t other st).1.
Proof.
  intros HJ Hk Hnew.
  pose proof HJ as (Hok & Hempty & Hfiles & Hloc & Hdist & Hcounted & Hbound & Hclosed).
  destruct st as [fsl fs]. cbn [fst snd] in *. unfold Insert in *.
  destruct (isOpen fsl) eqn:Hopen; cbn [negb] in *; [|reflexivity].
  destruct (catalog.TableExists (catalog fsl) tableName); cbn [negb] in *;
    [|reflexivity].
  destruct (insertRecord_quiet tableName recordData (fsl, fs) Hok Hempty Hcounted)
    as (r & [fsl1 fs1] & Hrun & Hok1 & Hempty1 & (Ho & Hi & _) & Hif & Hother & Hc & Hr).
  { cbn [fst]. specialize (Hbound tableName). lia. }
  rewrite Hrun in *. cbn [fst snd] in *.
  destruct r as [[p s]|e|]; [| |contradiction].
  - destruct Hr as (pg & pg' & Hinv & Hins & Hsame & Hfresh & Hrange & Hform).
    destruct (live_insert pg recordData s pg' Hinv Hins) as (_ & Hnot & _).
    destruct (InsertRecord_effect pg recordData s pg' Hinv Hins) as (Hs & _ & Hframe).
    destruct (indexes fsl1 !! tableName) as [idx|] eqn:Hidx; cbn [fst snd] in *.
    + unfold bptree.Insert in *. cbn [fst snd] in *.
      rewrite !Get_fst. cbn [fst set_indexes isOpen indexes]. rewrite Ho, Hopen.
      cbn [negb].
      destruct (decide (t = tableName)) as [->|Hnt].
      * rewrite lookup_insert_eq. rewrite <- Hi, Hidx. unfold bptree.Search.
        cbn [bptree.index].
        rewrite lookup_insert_ne by (intros E; apply Hnew; [reflexivity|congruence]).
        destruct (bptree.index idx !! other) as [rid0|] eqn:Hrid0; [|reflexivity].
        unfold read. rewrite !fetch_quiet by assumption. cbn [fst].
        change (cached (set_indexes fsl1 ?i) ?a ?b) with (cached fsl1 a b).
        rewrite Hform. rewrite Hi in Hidx.
        destruct (Hloc tableName idx other rid0 Hidx Hrid0) as (pgx & Hcx & Hlx).
        rewrite Hcx. destruct (decide _) as [[_ Hp]|_]; [|reflexivity].
        rewrite Hp in Hcx. rewrite (Hsame _ Hcx) in *.
        apply Hframe; [destruct Hlx as [[? ?] ?]; lia|].
        intros E. rewrite E in Hlx. exact (Hnot Hlx).
      * rewrite lookup_insert_ne by congruence. rewrite Hi.
        destruct (indexes fsl !! t) as [idx0|]; [|reflexivity].
        destruct (bptree.Search idx0 other) as [rid0|]; [|reflexivity].
        unfold read. rewrite !fetch_quiet by assumption. cbn [fst].
        change (cached (set_indexes fsl1 ?i) ?a ?b) with (cached fsl1 a b).
        rewrite Hform. destruct (decide _) as [[? _]|_]; [contradiction|reflexivity].
    + rewrite !Get_fst. cbn [fst]. rewrite Ho, Hopen. cbn [negb].
      destruct (decide (t = tableName)) as [->|Hnt].
      * rewrite Hidx. rewrite Hi in Hidx. rewrite Hidx. reflexivity.
      * rewrite Hi.
        destruct (indexes fsl !! t) as [idx0|]; [|reflexivity].
        destruct (bptree.Search idx0 other) as [rid0|]; [|reflexivity].
        unfold read. rewrite !fetch_quiet by assumption. cbn [fst].
        rewrite Hform. destruct (decide _) as [[? _]|_]; [contradiction|reflexivity].
  - rewrite !Get_fst. cbn [fst snd]. rewrite Ho, Hopen, Hi. cbn [negb].
    destruct (indexes fsl !! t) as [idx0|]; [|reflexivity].
    destruct (bptree.Search idx0 other) as [rid0|]; [|reflexivity].
    unfold read. rewrite !fetch_quiet by assumption. cbn [fst].
    rewrite Hr. reflexivity.
Qed.

(** X27.  In every state reached from a new layer on an empty directory by
    [Open], [CreateTable], [Insert], [Get], [Update] and [DeleteRecord], with
    fewer than 2^31 - 1 insertions and none of an empty record, the IDs of a
    table's index are recorded at pairwise different locations, and [Get]
    returns a record that is not empty for each of them. *)
Theorem recorded_ids_read_back calls :
  Forall inserts_nonempty calls -> count_insert_calls calls < 2 ^ 31 - 1 ->
  (forall tableName,
     locations_distinct
       (exec_all (NewFileStorageLayer, host.empty_fs) calls).1 tableName)
  /\ forall tableName idx recordID rid,
       indexes (exec_all (NewFileStorageLayer, host.empty_fs) calls).1 !! tableName
       = Some idx ->
       bptree.index idx !! recordID = Some rid ->
       exists recordData,
         recordData <> []
         /\ (Get tableName recordID
               (exec_all (NewFileStorageLayer, host.empty_fs) calls)).1
            = Ok recordData.
Proof.
  intros Hcalls Hk. pose proof (reachable_records_ok calls Hcalls Hk) as HJ.
  split.
  - exact (proj1 (proj2 (proj2 (proj2 (proj2 HJ))))).
  - intros tableName idx recordID rid. exact (located_Get _ _ _ _ _ _ HJ).
Qed.

Lemma recorded_ids_read_back_witness :
  let schema := {| record.Columns :=
                     [ {| record.Name := "id"; record.ColType := record.TypeInt;
                          record.Length := 0; record.Nullable := false |} ] |} in
  let calls := [CallOpen "db"; CallCreateTable "users" schema;
                CallInsert "users" [x00; x07; x00; x00; x00];
                CallInsert "users" [x00; x08; x00; x00; x00];
                CallDeleteRecord "users" 1] in
  let st := exec_all (NewFileStorageLayer, host.empty_fs) calls in
  exists recordData, recordData <> [] /\ (Get "users" 2 st).1 = Ok recordData.
Proof.
  intros schema calls st.
  destruct (recorded_ids_read_back calls) as [_ Hread].
  - repeat constructor; discriminate.
  - vm_compute. reflexivity.
  - apply (Hread "users"
             {| bptree.tableName := "users"; bptree.basePath := "db";
                bptree.index :=
                  delete 1 (<[2 := {| bptree.PageID := 0; bptree.SlotID := 1 |}]>
                              (<[1 := {| bptree.PageID := 0; bptree.SlotID := 0 |}]> ∅));
                bptree.nextID := 3 |}
             2 {| bptree.PageID := 0; bptree.SlotID := 1 |});
      vm_compute; reflexivity.
Defined.

(** X28.  In such a state, provided fewer than 2^31 - 1 records were
    inserted, [Insert] changes what [Get] returns for no table and ID other
    than the ID it issues: the records stored before read as before, and an
    ID that was not found is still not found. *)
Theorem insert_leaves_other_records_alone calls tableName recordData t other :
  Forall inserts_nonempty calls -> count_insert_calls calls < 2 ^ 31 - 1 ->
  (t = tableName ->
   (Insert tableName recordData
      (exec_all (NewFileStorageLayer, host.empty_fs) calls)).1 <> Ok other) ->
  (Get t other
     (Insert tableName recordData
        (exec_all (NewFileStorageLayer, host.empty_fs) calls)).2).1
  = (Get t other (exec_all (NewFileStorageLayer, host.empty_fs) calls)).1.
Proof.
  intros Hcalls Hk Hnew.
  exact (Insert_frame _ _ _ _ _ _ (reachable_records_ok calls Hcalls Hk) Hk Hnew).
Qed.

Lemma insert_leaves_other_records_alone_witness :
  let schema := {| record.Columns :=
                     [ {| record.Name := "id"; record.ColType := record.TypeInt;
                          record.Length := 0; record.Nullable := false |} ] |} in
  let calls := [CallOpen "db"; CallCreateTable "users" schema;
                CallInsert "users" [x00; x07; x00; x00; x00]] in
  let st := exec_all (NewFileStorageLayer, host.empty_fs) calls in
  (Get "users" 1 (Insert "users" [x00; x08; x00; x00; x00] st).2).1
  = Ok [x00; x07; x00; x00; x00].
Proof.
  intros schema calls st. subst st.
  rewrite (insert_leaves_other_records_alone calls "users"
             [x00; x08; x00; x00; x00] "users" 1).
  - vm_compute. reflexivity.
  - repeat constructor; discriminate.
  - vm_compute. reflexivity.
  - intros _. vm_compute. intros [= ].
Defined.

(** While the invariant holds, [Scan] skips no record of the index. *)
Lemma Scan_complete k tableName idx st :
  records_ok k st -> catalog.TableExists (catalog st.1) tableName = true ->
  indexes st.1 !! tableName = Some idx ->
  exists out st',
    Scan tableName None st = (Ok out, st')
    /\ length out = length (map_to_list (bptree.index idx)).
Proof.
  intros HJ Hex Hidx.
  pose proof HJ as (Hok & Hempty & _ & Hloc & _ & _ & _ & Hclosed).
  pose proof (records_state_ok k st HJ) as (_ & Hiok & _).
  destruct st as [fsl fs]. cbn [fst snd] in *. unfold Scan.
  destruct (isOpen fsl) eqn:Hopen.
  2: { destruct (Hclosed eq_refl) as [_ Hix]. rewrite Hix, lookup_empty in Hidx.
       discriminate. }
  cbn [negb]. rewrite Hex, Hidx. cbn [negb]. unfold bptree.GetAllRecords.
  set (rids := (map_to_list (bptree.index idx)).*2).
  assert (forall rid, rid ∈ rids -> exists id, bptree.index idx !! id = Some rid)
    as Hrids.
  { intros rid Hin. apply list_elem_of_fmap in Hin as ([id rid'] & -> & Hin).
    apply elem_of_map_to_list in Hin. exists id. exact Hin. }
  destruct (scan_records_total tableName None rids [] (fsl, fs) Hok)
    as (out & st' & Hrun).
  { apply Forall_forall. intros rid Hin. destruct (Hrids rid Hin) as [id Hrid].
    exact (Hiok _ _ _ _ Hidx Hrid). }
  exists out, st'. split; [exact Hrun|].
  destruct (scan_records_spec tableName None (fsl, fs) rids [] (fsl, fs) out st'
              (fun _ _ => eq_refl) Hrun) as (-> & _).
  cbn [app]. rewrite <- (length_fmap snd (map_to_list (bptree.index idx))).
  fold rids.
  clear Hrun. induction rids as [|rid rids' IH]; [reflexivity|].
  destruct (Hrids rid) as [id Hrid]; [left|].
  destruct (Hloc _ _ _ _ Hidx Hrid) as (pg & Hc & Hlive).
  destruct (live_GetRecord pg _ (proj1 Hok _ _ _ Hc) Hlive) as (d & Hget & _).
  assert (read (fsl, fs) tableName rid = Ok d) as Hread.
  { unfold read. rewrite fetch_quiet by exact Hempty. cbn [fst]. rewrite Hc.
    exact Hget. }
  cbn. rewrite Hread. cbn. f_equal. apply IH.
  intros rid' Hin. apply Hrids. right. exact Hin.
Qed.

(** X29.  In a state reached as above, [Scan] without a filter succeeds on a
    table of the catalog and returns as many records as the table's index
    has IDs: no record is skipped. *)
Theorem scan_skips_no_record calls tableName idx :
  Forall inserts_nonempty calls -> count_insert_calls calls < 2 ^ 31 - 1 ->
  catalog.TableExists
    (catalog (exec_all (NewFileStorageLayer, host.empty_fs) calls).1) tableName
  = true ->
  indexes (exec_all (NewFileStorageLayer, host.empty_fs) calls).1 !! tableName
  = Some idx ->
  exists out st',
    Scan tableName None (exec_all (NewFileStorageLayer, host.empty_fs) calls)
    = (Ok out, st')
    /\ length out = length (map_to_list (bptree.index idx)).
Proof.
  intros Hcalls Hk. exact (Scan_complete _ _ _ _ (reachable_records_ok calls Hcalls Hk)).
Qed.

Lemma scan_skips_no_record_witness :
  let schema := {| record.Columns :=
                     [ {| record.Name := "id"; record.ColType := record.TypeInt;
                          record.Length := 0; record.Nullable := false |} ] |} in
  let calls := [CallOpen "db"; CallCreateTable "users" schema;
                CallInsert "users" [x00; x07; x00; x00; x00];
                CallInsert "users" [x00; x08; x00; x00; x00];
                CallUpdate "users" 1 [x00; x09; x00; x00; x00]] in
  let idx := {| bptree.tableName := "users"; bptree.basePath := "db";
                bptree.index :=
                  <[2 := {| bptree.PageID := 0; bptree.SlotID := 1 |}]>
                    (<[1 := {| bptree.PageID := 0; bptree.SlotID := 0 |}]> ∅);
                bptree.nextID := 3 |} in
  exists out st',
    Scan "users" None (exec_all (NewFileStorageLayer, host.empty_fs) calls)
    = (Ok out, st')
    /\ length out = length (map_to_list (bptree.index idx)).
Proof.
  intros schema calls idx.
  apply (scan_skips_no_record calls "users" idx).
  - repeat constructor; discriminate.
  - vm_compute. reflexivity.
  - vm_compute. reflexivity.
  - vm_compute. reflexivity.
Defined.

End layer_reachable.
